(** * capi/examples/server.c: the epoll-driven example server

    A shallow embedding of the example server that drives the HTTP engine
    through its C API from a hand-written epoll loop.  The program talks to
    two outside parties, the operating system and the engine, so the model
    is a state-and-control monad over a [World]:
    - the heap of [conn_data] records, addressed by pointer;
    - the C global [errno];
    - the engine-side book-keeping the program can observe (which wakers
      are outstanding, the user-data of I/O bindings and of tasks);
    - an oracle answering every external call, and the trace of calls made.
    Every theorem quantifies over the oracle: it speaks about all behaviours
    of the operating system and of the engine. *)

From Stdlib Require Import ZArith Lia.
From stdpp Require Import gmap strings list.

Local Open Scope Z_scope.

(** ** Constants of the system headers (Linux) *)

Definition NULL : Z := 0.
Definition EAGAIN : Z := 11.
Definition EPOLLIN : Z := 1.
Definition EPOLLOUT : Z := 4.
Definition EPOLL_CTL_ADD : Z := 1.
Definition EPOLL_CTL_DEL : Z := 2.
Definition EPOLL_CLOEXEC : Z := 524288.
Definition F_SETFD : Z := 2.
Definition F_SETFL : Z := 4.
Definition FD_CLOEXEC : Z := 1.
Definition O_NONBLOCK : Z := 2048.
Definition SIGINT : Z := 2.
Definition SIGQUIT : Z := 3.
Definition SIGTERM : Z := 15.
Definition sizeof_signalfd_siginfo : Z := 128.
Definition SIZE_MAX : Z := 2 ^ 64 - 1.
Definition SSIZE_MAX : Z := 2 ^ 63 - 1.

(** server.c:19 *)
Definition MAX_EVENTS : Z := 128.

(** Modelled from the spec: the two sentinels an I/O callback may return
    instead of a byte count.  They are macros of hyper.h, which is not part
    of the sources at hand; the values are those of the engine's header. *)
Definition HYPER_IO_PENDING : Z := 4294967295.
Definition HYPER_IO_ERROR : Z := 4294967294.

(** Modelled from the spec: the terminal type of a completed task (an enum
    of hyper.h).  The program only tells the error type and the empty type
    from everything else. *)
Inductive hyper_task_return_type :=
| HYPER_TASK_EMPTY
| HYPER_TASK_ERROR
| HYPER_TASK_OTHER.

(** ** Data *)

(** server.c:21-25.  A [hyper_waker *] is [None] when it is the null
    pointer and [Some h] when it points to the waker with identity [h]. *)
Record conn_data := mk_conn_data {
  fd : Z;
  read_waker : option nat;
  write_waker : option nat
}.

(** What [epoll_event.data.ptr] can be compared with in [main]: the address
    of the local [listen_fd], the address of the local [signal_fd], or
    anything else, which [main] takes for a [conn_data *]. *)
Inductive epoll_key :=
| KeyListen
| KeySignal
| KeyConn (p : Z).

Record epoll_event := mk_epoll_event {
  ev_events : Z;
  ev_data : epoll_key
}.

Record addrinfo := mk_addrinfo {
  ai_family : Z;
  ai_socktype : Z;
  ai_protocol : Z;
  ai_addr : Z
}.

(** A callback the engine runs while it is being polled: the read or the
    write callback of an I/O binding. *)
Inductive callback :=
| CbRead (io : nat) (buf_len : Z)
| CbWrite (io : nat) (buf_len : Z).

(** A task handed back by [hyper_executor_poll], with what the accessors
    of the engine will say about it. *)
Record completed := mk_completed {
  c_task : nat;
  c_type : hyper_task_return_type;
  c_error_code : Z;
  c_error_len : Z
}.

(** The answer of the outside world to one external call.  Each call reads
    the fields that concern it. *)
Record Response := mk_Response {
  r_ret : Z;
  r_errno : Z;
  r_addrs : list addrinfo;
  r_events : list epoll_event;
  r_signo : Z;
  r_cbs : list callback;
  r_task : option completed
}.

Inductive Syscall :=
| SysGetaddrinfo (host port : string)
| SysFreeaddrinfo
| SysSocket (ai : addrinfo)
| SysSetsockopt (sock : Z)
| SysBind (sock : Z) (ai : addrinfo)
| SysClose (sock : Z)
| SysFcntl (sock cmd arg : Z)
| SysListen (sock backlog : Z)
| SysSignalfd
| SysSigprocmask
| SysEpollCreate1 (flags : Z)
| SysEpollCtl (epoll op sock : Z) (data : option epoll_key)
| SysEpollWait (epoll maxevents : Z)
| SysAccept (sock : Z)
| SysGetnameinfo
| SysRead (sock len : Z)
| SysWrite (sock len : Z).

Inductive HyperCall :=
| HyContextWaker (h : nat)
| HyWakerFree (h : nat)
| HyWakerWake (h : nat)
| HyIoNew (io : nat)
| HyIoSetUserdata (io : nat) (p : Z)
| HyIoSetRead (io : nat)
| HyIoSetWrite (io : nat)
| HyServiceNew (service : nat)
| HyServeConnection (opts io service task : nat)
| HyTaskSetUserdata (task : nat) (p : Z)
| HyExecutorNew (exec : nat)
| HyExecutorPush (exec task : nat)
| HyExecutorPoll (exec : nat) (task : option nat)
| HyExecutorFree (exec : nat)
| HyOptionsNew (opts : nat)
| HyOptionsFree (opts : nat)
| HyErrorFree (task : nat)
| HyTaskFree (task : nat).

Inductive Event :=
| EvPrintf (fmt : string) (args : list Z)
| EvPerror (msg : string)
| EvStderr (fmt : string)
| EvSys (c : Syscall) (ret : Z)
| EvMalloc (p : Z)
| EvFree (p : Z)
| EvHyper (c : HyperCall).

(** ** The world *)

Record World := mk_World {
  heap : gmap Z conn_data;      (* the allocated [conn_data] records *)
  brk : Z;                      (* every address handed out so far is at most [brk] *)
  errno : Z;
  live : gset nat;              (* wakers obtained and neither woken nor freed *)
  ios : gmap nat Z;             (* user-data of each I/O binding *)
  tasks : gmap nat Z;           (* user-data of each task *)
  next_id : nat;                (* next identity the engine hands out *)
  tick : nat;                   (* number of oracle answers consumed *)
  oracle : nat -> Response;
  trace : list Event
}.

Definition set_heap (f : gmap Z conn_data -> gmap Z conn_data) (w : World) : World :=
  mk_World (f (heap w)) (brk w) (errno w) (live w) (ios w) (tasks w)
           (next_id w) (tick w) (oracle w) (trace w).
Definition set_brk (b : Z) (w : World) : World :=
  mk_World (heap w) b (errno w) (live w) (ios w) (tasks w)
           (next_id w) (tick w) (oracle w) (trace w).
Definition set_errno (e : Z) (w : World) : World :=
  mk_World (heap w) (brk w) e (live w) (ios w) (tasks w)
           (next_id w) (tick w) (oracle w) (trace w).
Definition set_live (f : gset nat -> gset nat) (w : World) : World :=
  mk_World (heap w) (brk w) (errno w) (f (live w)) (ios w) (tasks w)
           (next_id w) (tick w) (oracle w) (trace w).
Definition set_ios (f : gmap nat Z -> gmap nat Z) (w : World) : World :=
  mk_World (heap w) (brk w) (errno w) (live w) (f (ios w)) (tasks w)
           (next_id w) (tick w) (oracle w) (trace w).
Definition set_tasks (f : gmap nat Z -> gmap nat Z) (w : World) : World :=
  mk_World (heap w) (brk w) (errno w) (live w) (ios w) (f (tasks w))
           (next_id w) (tick w) (oracle w) (trace w).
Definition set_next_id (n : nat) (w : World) : World :=
  mk_World (heap w) (brk w) (errno w) (live w) (ios w) (tasks w)
           n (tick w) (oracle w) (trace w).
Definition set_tick (n : nat) (w : World) : World :=
  mk_World (heap w) (brk w) (errno w) (live w) (ios w) (tasks w)
           (next_id w) n (oracle w) (trace w).
Definition set_trace (f : list Event -> list Event) (w : World) : World :=
  mk_World (heap w) (brk w) (errno w) (live w) (ios w) (tasks w)
           (next_id w) (tick w) (oracle w) (f (trace w)).

(** ** The monad: state, plus the ways control leaves a block of C *)

Inductive fault :=
| NullDeref          (* a field of the null [conn_data *] is accessed *)
| DanglingDeref      (* a field of a record that is not allocated is accessed *)
| DeadWaker.         (* a waker that is not outstanding is woken or freed *)

Inductive Res (A : Type) :=
| Val (a : A)              (* the block ran to its end *)
| Return (z : Z)           (* a [return z;] was executed *)
| GotoEXIT                 (* [goto EXIT;] was executed *)
| Fault (f : fault)        (* undefined behaviour *)
| OutOfFuel.               (* the iteration bound of the model was reached *)
Arguments Val {A} a.
Arguments Return {A} z.
Arguments GotoEXIT {A}.
Arguments Fault {A} f.
Arguments OutOfFuel {A}.

Definition M (A : Type) : Type := World -> Res A * World.

Definition ret {A} (a : A) : M A := fun w => (Val a, w).

Definition bind {A B} (m : M A) (k : A -> M B) : M B := fun w =>
  match m w with
  | (Val a, w') => k a w'
  | (Return z, w') => (Return z, w')
  | (GotoEXIT, w') => (GotoEXIT, w')
  | (Fault f, w') => (Fault f, w')
  | (OutOfFuel, w') => (OutOfFuel, w')
  end.

Declare Scope prog_scope.
Delimit Scope prog_scope with prog.
Notation "x <- m ;; k" := (bind m (fun x => k))
  (at level 100, m at next level, k at level 200, right associativity) : prog_scope.
Notation "m ;; k" := (bind m (fun _ => k))
  (at level 100, k at level 200, right associativity) : prog_scope.
Local Open Scope prog_scope.

Definition return_ {A} (z : Z) : M A := fun w => (Return z, w).
Definition goto_EXIT {A} : M A := fun w => (GotoEXIT, w).
Definition undefined {A} (f : fault) : M A := fun w => (Fault f, w).
Definition out_of_fuel {A} : M A := fun w => (OutOfFuel, w).

(** A C function call: a [return z;] inside the callee is the value of the
    call for the caller. *)
Definition call (m : M Z) : M Z := fun w =>
  match m w with
  | (Return z, w') => (Val z, w')
  | other => other
  end.

(** The label [EXIT:] of [main]: [handler] runs when [body] jumps to it
    (or falls through to it). *)
Definition at_EXIT {A} (body : M unit) (handler : M A) : M A := fun w =>
  match body w with
  | (Val _, w') => handler w'
  | (GotoEXIT, w') => handler w'
  | (Return z, w') => (Return z, w')
  | (Fault f, w') => (Fault f, w')
  | (OutOfFuel, w') => (OutOfFuel, w')
  end.

Definition when (b : bool) (m : M unit) : M unit := if b then m else ret tt.

(** ** Primitive effects *)

Definition emit (e : Event) : M unit := fun w =>
  (Val tt, set_trace (fun t => t ++ [e]) w).

Definition ask : M Response := fun w =>
  (Val (oracle w (tick w)), set_tick (S (tick w)) w).

Definition get_errno : M Z := fun w => (Val (errno w), w).

(** A system call: the oracle gives the return value; a negative return
    value comes with an [errno]. *)
Definition syscall_r (c : Syscall) : M Response :=
  r <- ask ;;
  (fun w => (Val tt, if r_ret r <? 0 then set_errno (r_errno r) w else w)) ;;
  emit (EvSys c (r_ret r)) ;;
  ret r.

Definition syscall (c : Syscall) : M Z :=
  r <- syscall_r c ;;
  ret (r_ret r).

(** Output.  The newline that ends each format string is left out, and so
    are the string arguments of [printf]. *)
Definition printf (fmt : string) (args : list Z) : M unit := emit (EvPrintf fmt args).
Definition perror (msg : string) : M unit := emit (EvPerror msg).
Definition fprintf_stderr (fmt : string) : M unit := emit (EvStderr fmt).

(** [malloc(sizeof(conn_data))]: a fresh address; the fields of the new
    record are indeterminate in C and are all written before they are read. *)
Definition malloc : M Z := fun w =>
  let p := brk w + 1 in
  (Val p, set_trace (fun t => t ++ [EvMalloc p])
            (set_brk p (set_heap (insert p (mk_conn_data 0 None None)) w))).

(** Access to [*p] for a [conn_data *p]. *)
Definition deref (p : Z) : M conn_data := fun w =>
  if p =? NULL then (Fault NullDeref, w)
  else match heap w !! p with
       | Some c => (Val c, w)
       | None => (Fault DanglingDeref, w)
       end.

Definition store (p : Z) (c : conn_data) : M unit :=
  _ <- deref p ;;
  (fun w => (Val tt, set_heap (insert p c) w)).

(** The assignments [p->fd = v], [p->read_waker = v], [p->write_waker = v]. *)
Definition set_fd (p : Z) (v : Z) : M unit :=
  c <- deref p ;; store p (mk_conn_data v (read_waker c) (write_waker c)).
Definition set_read_waker (p : Z) (v : option nat) : M unit :=
  c <- deref p ;; store p (mk_conn_data (fd c) v (write_waker c)).
Definition set_write_waker (p : Z) (v : option nat) : M unit :=
  c <- deref p ;; store p (mk_conn_data (fd c) (read_waker c) v).

(** [free(p)] for a [conn_data *p] that came from [malloc]. *)
Definition free (p : Z) : M unit :=
  _ <- deref p ;;
  (fun w => (Val tt, set_trace (fun t => t ++ [EvFree p]) (set_heap (delete p) w))).

Definition hy (c : HyperCall) : M unit := emit (EvHyper c).

Definition fresh_id : M nat := fun w => (Val (next_id w), set_next_id (S (next_id w)) w).

(** ** The engine, as far as the program can tell *)

(** [hyper_context_waker(ctx)]: a new waker, now outstanding. *)
Definition hyper_context_waker (ctx : nat) : M nat :=
  h <- fresh_id ;;
  (fun w => (Val tt, set_live (union {[h]}) w)) ;;
  hy (HyContextWaker h) ;;
  ret h.

(** Waking or freeing a waker consumes it. *)
Definition consume_waker (h : nat) : M unit := fun w =>
  if decide (h ∈ live w) then (Val tt, set_live (fun s => s ∖ {[h]}) w)
  else (Fault DeadWaker, w).

Definition hyper_waker_free (h : nat) : M unit :=
  consume_waker h ;; hy (HyWakerFree h).

Definition hyper_waker_wake (h : nat) : M unit :=
  consume_waker h ;; hy (HyWakerWake h).

(** ** The I/O adapter *)

(** The conversion of the [ssize_t] result to the [size_t] return type. *)
Definition to_size_t (z : Z) : Z := z mod (SIZE_MAX + 1).

(** server.c:133-153 *)
Definition read_cb (userdata : Z) (ctx : nat) (buf_len : Z) : M Z :=
  let conn := userdata in
  c <- deref conn ;;
  ret_ <- syscall (SysRead (fd c) buf_len) ;;
  if 0 <=? ret_ then
    ret (to_size_t ret_)
  else
    e <- get_errno ;;
    if negb (e =? EAGAIN) then
      ret HYPER_IO_ERROR
    else
      c <- deref conn ;;
      match read_waker c with
      | Some old => hyper_waker_free old
      | None => ret tt
      end ;;
      h <- hyper_context_waker ctx ;;
      set_read_waker conn (Some h) ;;
      ret HYPER_IO_PENDING.

(** server.c:155-175 *)
Definition write_cb (userdata : Z) (ctx : nat) (buf_len : Z) : M Z :=
  let conn := userdata in
  c <- deref conn ;;
  ret_ <- syscall (SysWrite (fd c) buf_len) ;;
  if 0 <=? ret_ then
    ret (to_size_t ret_)
  else
    e <- get_errno ;;
    if negb (e =? EAGAIN) then
      ret HYPER_IO_ERROR
    else
      c <- deref conn ;;
      match write_waker c with
      | Some old => hyper_waker_free old
      | None => ret tt
      end ;;
      h <- hyper_context_waker ctx ;;
      set_write_waker conn (Some h) ;;
      ret HYPER_IO_PENDING.

(** ** The rest of the engine interface *)

Definition hyper_io_new : M nat :=
  io <- fresh_id ;; hy (HyIoNew io) ;; ret io.

Definition hyper_io_set_userdata (io : nat) (p : Z) : M unit :=
  (fun w => (Val tt, set_ios (insert io p) w)) ;; hy (HyIoSetUserdata io p).

Definition hyper_io_set_read (io : nat) : M unit := hy (HyIoSetRead io).
Definition hyper_io_set_write (io : nat) : M unit := hy (HyIoSetWrite io).

Definition hyper_service_new : M nat :=
  s <- fresh_id ;; hy (HyServiceNew s) ;; ret s.

Definition hyper_serve_connection (opts io service : nat) : M nat :=
  t <- fresh_id ;; hy (HyServeConnection opts io service t) ;; ret t.

Definition hyper_task_set_userdata (task : nat) (p : Z) : M unit :=
  (fun w => (Val tt, set_tasks (insert task p) w)) ;; hy (HyTaskSetUserdata task p).

(** A task whose user-data was never set has the null user-data. *)
Definition hyper_task_userdata (task : nat) : M Z := fun w =>
  (Val (default NULL (tasks w !! task)), w).

Definition hyper_task_free (task : nat) : M unit :=
  (fun w => (Val tt, set_tasks (delete task) w)) ;; hy (HyTaskFree task).

Definition hyper_error_free (task : nat) : M unit := hy (HyErrorFree task).

Definition hyper_executor_new : M nat :=
  e <- fresh_id ;; hy (HyExecutorNew e) ;; ret e.

Definition hyper_executor_push (exec task : nat) : M unit := hy (HyExecutorPush exec task).
Definition hyper_executor_free (exec : nat) : M unit := hy (HyExecutorFree exec).

Definition hyper_serverconn_options_new (exec : nat) : M nat :=
  o <- fresh_id ;; hy (HyOptionsNew o) ;; ret o.

Definition hyper_serverconn_options_free (opts : nat) : M unit := hy (HyOptionsFree opts).

(** The engine calls a callback with the user-data of the binding (null if
    none was set) and a context of its own. *)
Definition io_userdata (io : nat) : M Z := fun w =>
  (Val (default NULL (ios w !! io)), w).

Definition run_callback (cb : callback) : M unit :=
  match cb with
  | CbRead io len => p <- io_userdata io ;; _ <- read_cb p io len ;; ret tt
  | CbWrite io len => p <- io_userdata io ;; _ <- write_cb p io len ;; ret tt
  end.

Fixpoint run_callbacks (cbs : list callback) : M unit :=
  match cbs with
  | [] => ret tt
  | cb :: rest => run_callback cb ;; run_callbacks rest
  end.

(** [hyper_executor_poll(exec)]: the engine makes progress, which is when
    it calls the I/O callbacks, and hands back a completed task or null. *)
Definition hyper_executor_poll (exec : nat) : M (option completed) :=
  r <- ask ;;
  run_callbacks (r_cbs r) ;;
  hy (HyExecutorPoll exec (c_task <$> r_task r)) ;;
  ret (r_task r).

(** ** Connection records *)

(** server.c:177-195 *)
Definition create_conn_data (epoll new_fd : Z) : M Z :=
  conn <- malloc ;;
  rc <- syscall (SysEpollCtl epoll EPOLL_CTL_ADD new_fd (Some (KeyConn conn))) ;;
  if rc <? 0 then
    perror "epoll_ctl (transport)" ;;
    free conn ;;
    ret NULL
  else
    set_fd conn new_fd ;;
    set_read_waker conn None ;;
    set_write_waker conn None ;;
    ret conn.

(** server.c:197-205 *)
Definition create_io (conn : Z) : M nat :=
  io <- hyper_io_new ;;
  hyper_io_set_userdata io conn ;;
  hyper_io_set_read io ;;
  hyper_io_set_write io ;;
  ret io.

(** server.c:213-221, the block "Drop any saved-off wakers" of
    [free_conn_data] *)
Definition drop_saved_wakers (conn : Z) : M unit :=
  c <- deref conn ;;
  match read_waker c with
  | Some h => hyper_waker_free h ;; set_read_waker conn None
  | None => ret tt
  end ;;
  c <- deref conn ;;
  match write_waker c with
  | Some h => hyper_waker_free h ;; set_write_waker conn None
  | None => ret tt
  end.

(** server.c:207-228 *)
Definition free_conn_data (epoll conn : Z) : M unit :=
  c <- deref conn ;;
  rc <- syscall (SysEpollCtl epoll EPOLL_CTL_DEL (fd c) None) ;;
  when (rc <? 0) (perror "epoll_ctl (transport)") ;;
  drop_saved_wakers conn ;;
  c <- deref conn ;;
  _ <- syscall (SysClose (fd c)) ;;
  free conn.

(** ** Setup *)

(** server.c:61-83, the loop over the resolved addresses; [sock] is the
    value of the variable of that name when the iteration starts. *)
Fixpoint listen_on_loop (sock : Z) (addrs : list addrinfo) : M Z :=
  match addrs with
  | [] => ret sock
  | resp :: rest =>
      sock <- syscall (SysSocket resp) ;;
      if sock <? 0 then
        perror "socket" ;;
        listen_on_loop sock rest
      else
        rc <- syscall (SysSetsockopt sock) ;;
        when (rc <? 0) (perror "setsockopt") ;;
        rc <- syscall (SysBind sock resp) ;;
        if rc =? 0 then
          ret sock
        else
          _ <- syscall (SysClose sock) ;;
          listen_on_loop (-1) rest
  end.

(** server.c:40-110 *)
Definition listen_on (host port : string) : M Z :=
  call (
    r <- ask ;;
    emit (EvSys (SysGetaddrinfo host port) (r_ret r)) ;;
    let gai_rc := r_ret r in
    if negb (gai_rc =? 0) then
      fprintf_stderr "getaddrinfo: %s" ;;
      return_ (-1)
    else
      sock <- listen_on_loop (-1) (r_addrs r) ;;
      emit (EvSys SysFreeaddrinfo 0) ;;
      if sock <? 0 then
        return_ (-1)
      else
        rc <- syscall (SysFcntl sock F_SETFL O_NONBLOCK) ;;
        if negb (rc =? 0) then
          perror "fcntl(O_NONBLOCK) (listening)" ;;
          return_ (-1)
        else
          rc <- syscall (SysFcntl sock F_SETFD FD_CLOEXEC) ;;
          if negb (rc =? 0) then
            perror "fcntl(FD_CLOEXEC) (listening)" ;;
            return_ 1
          else
            rc <- syscall (SysListen sock 32) ;;
            if rc <? 0 then
              perror "listen" ;;
              return_ (-1)
            else
              return_ sock).

(** server.c:114-131 *)
Definition register_signal_handler : M Z :=
  call (
    signal_fd <- syscall SysSignalfd ;;
    if signal_fd <? 0 then
      perror "signalfd" ;;
      return_ 1
    else
      rc <- syscall SysSigprocmask ;;
      if rc <? 0 then
        perror "sigprocmask" ;;
        return_ 1
      else
        return_ signal_fd).

(** ** main *)

(** [epoll_wait(epoll, events, maxevents, -1)]: a negative return value, or
    the events the kernel filled in, at most [maxevents] of them, and their
    number. *)
Definition epoll_wait (epoll maxevents : Z) : M (Z * list epoll_event) :=
  r <- ask ;;
  if r_ret r <? 0 then
    (fun w => (Val tt, set_errno (r_errno r) w)) ;;
    emit (EvSys (SysEpollWait epoll maxevents) (r_ret r)) ;;
    ret (r_ret r, [])
  else
    let evs := take (Z.to_nat maxevents) (r_events r) in
    let nevents := Z.of_nat (length evs) in
    emit (EvSys (SysEpollWait epoll maxevents) nevents) ;;
    ret (nevents, evs).

(** server.c:301-321, a completed task of the error type *)
Definition main_task_error (epoll : Z) (t : completed) : M unit :=
  printf "handshake error!" [] ;;
  printf "error code: %d" [c_error_code t] ;;
  printf "details: %.*s" [c_error_len t] ;;
  hyper_error_free (c_task t) ;;
  conn <- hyper_task_userdata (c_task t) ;;
  when (negb (conn =? NULL)) (free_conn_data epoll conn) ;;
  hyper_task_free (c_task t).

(** server.c:323-334, a completed task of the empty type *)
Definition main_task_empty (epoll : Z) (t : completed) : M unit :=
  conn <- hyper_task_userdata (c_task t) ;;
  (if negb (conn =? NULL) then
     printf "server connection complete" [] ;;
     free_conn_data epoll conn
   else
     printf "internal hyper task complete" []) ;;
  hyper_task_free (c_task t).

(** server.c:296-335, the inner [while (1)] *)
Fixpoint main_pump (fuel : nat) (epoll : Z) (exec : nat) : M unit :=
  match fuel with
  | O => out_of_fuel
  | S n =>
      task <- hyper_executor_poll exec ;;
      match task with
      | None => ret tt
      | Some t =>
          match c_type t with
          | HYPER_TASK_ERROR => main_task_error epoll t
          | HYPER_TASK_EMPTY => main_task_empty epoll t
          | HYPER_TASK_OTHER => ret tt
          end ;;
          main_pump n epoll exec
      end
  end.

(** server.c:357-386, the body of the accept loop *)
Definition main_accepted (epoll : Z) (opts exec : nat) (new_fd : Z) : M unit :=
  rc <- syscall SysGetnameinfo ;;
  (if rc <? 0 then
     perror "getnameinfo" ;;
     printf "New incoming connection from (unknown)" []
   else
     printf "New incoming connection from (%s:%s)" []) ;;
  rc <- syscall (SysFcntl new_fd F_SETFL O_NONBLOCK) ;;
  if negb (rc =? 0) then
    perror "fcntl(O_NONBLOCK) (transport)" ;;
    return_ 1
  else
    rc <- syscall (SysFcntl new_fd F_SETFD FD_CLOEXEC) ;;
    if negb (rc =? 0) then
      perror "fcntl(FD_CLOEXEC) (transport)" ;;
      return_ 1
    else
      conn <- create_conn_data epoll new_fd ;;
      io <- create_io conn ;;
      service <- hyper_service_new ;;
      serverconn <- hyper_serve_connection opts io service ;;
      hyper_task_set_userdata serverconn conn ;;
      hyper_executor_push exec serverconn.

(** server.c:356-387, the accept loop *)
Fixpoint main_accept_loop (fuel : nat) (listen_fd epoll : Z) (opts exec : nat) : M unit :=
  match fuel with
  | O => out_of_fuel
  | S n =>
      new_fd <- syscall (SysAccept listen_fd) ;;
      if 0 <=? new_fd then
        main_accepted epoll opts exec new_fd ;;
        main_accept_loop n listen_fd epoll opts exec
      else
        ret tt
  end.

(** server.c:350-391, an event on the listening socket *)
Definition main_listen (fuel : nat) (listen_fd epoll : Z) (opts exec : nat) : M unit :=
  main_accept_loop fuel listen_fd epoll opts exec ;;
  e <- get_errno ;;
  when (negb (e =? EAGAIN)) (perror "accept").

(** server.c:392-410, an event on the signal descriptor *)
Definition main_signal (signal_fd : Z) : M unit :=
  r <- syscall_r (SysRead signal_fd sizeof_signalfd_siginfo) ;;
  if negb (r_ret r =? sizeof_signalfd_siginfo) then
    perror "read (signal_fd)" ;;
    return_ 1
  else
    let ssi_signo := r_signo r in
    if ssi_signo =? SIGINT then
      printf "Caught SIGINT... exiting" [] ;;
      goto_EXIT
    else if ssi_signo =? SIGTERM then
      printf "Caught SIGTERM... exiting" [] ;;
      goto_EXIT
    else if ssi_signo =? SIGQUIT then
      printf "Caught SIGQUIT... exiting" [] ;;
      goto_EXIT
    else
      printf "Caught unexpected signal %d... ignoring" [ssi_signo].

(** server.c:411-422, an event on a transport socket *)
Definition main_transport (events conn : Z) : M unit :=
  (if negb (Z.land events EPOLLIN =? 0) then
     c <- deref conn ;;
     match read_waker c with
     | Some h => hyper_waker_wake h ;; set_read_waker conn None
     | None => ret tt
     end
   else ret tt) ;;
  (if negb (Z.land events EPOLLOUT =? 0) then
     c <- deref conn ;;
     match write_waker c with
     | Some h => hyper_waker_wake h ;; set_write_waker conn None
     | None => ret tt
     end
   else ret tt).

(** server.c:350-422, the body of the [for] over the reported events *)
Definition main_event (fuel : nat) (listen_fd signal_fd epoll : Z) (opts exec : nat)
    (ev : epoll_event) : M unit :=
  match ev_data ev with
  | KeyListen => main_listen fuel listen_fd epoll opts exec
  | KeySignal => main_signal signal_fd
  | KeyConn conn => main_transport (ev_events ev) conn
  end.

(** server.c:349-423 *)
Fixpoint main_events (fuel : nat) (listen_fd signal_fd epoll : Z) (opts exec : nat)
    (evs : list epoll_event) : M unit :=
  match evs with
  | [] => ret tt
  | ev :: rest =>
      main_event fuel listen_fd signal_fd epoll opts exec ev ;;
      main_events fuel listen_fd signal_fd epoll opts exec rest
  end.

(** server.c:295-424, the outer [while (1)].  [fuel] bounds the number of
    iterations of this loop and of each loop inside it. *)
Fixpoint main_loop (fuel : nat) (listen_fd signal_fd epoll : Z) (opts exec : nat) : M unit :=
  match fuel with
  | O => out_of_fuel
  | S n =>
      main_pump (S n) epoll exec ;;
      printf "Processed all tasks - polling for events" [] ;;
      reported <- epoll_wait epoll MAX_EVENTS ;;
      let nevents := fst reported in
      let events := snd reported in
      if nevents <? 0 then
        perror "epoll" ;;
        return_ 1
      else
        printf "Poll reported %d events" [nevents] ;;
        main_events (S n) listen_fd signal_fd epoll opts exec events ;;
        main_loop n listen_fd signal_fd epoll opts exec
  end.

(** server.c:426-430, what runs from the label [EXIT] *)
Definition main_EXIT (opts exec : nat) : M Z :=
  hyper_serverconn_options_free opts ;;
  hyper_executor_free exec ;;
  return_ 1.

(** server.c:284-430, [main] once the descriptors are set up *)
Definition main_serve (fuel : nat) (listen_fd signal_fd epoll : Z) : M Z :=
  printf "http handshake (hyper v%s) ..." [] ;;
  exec <- hyper_executor_new ;;
  opts <- hyper_serverconn_options_new exec ;;
  at_EXIT (main_loop fuel listen_fd signal_fd epoll opts exec) (main_EXIT opts exec).

(** server.c:242-430.  The value of the call is the exit status. *)
Definition main (fuel : nat) (argv : list string) : M Z :=
  call (
    let host := nth 1 argv "127.0.0.1"%string in
    let port := nth 2 argv "1234"%string in
    printf "listening on port %s on %s..." [] ;;
    listen_fd <- listen_on host port ;;
    if listen_fd <? 0 then
      return_ 1
    else
      signal_fd <- register_signal_handler ;;
      if signal_fd <? 0 then
        return_ 1
      else
        epoll <- syscall (SysEpollCreate1 EPOLL_CLOEXEC) ;;
        if epoll <? 0 then
          perror "epoll" ;;
          return_ 1
        else
          rc <- syscall (SysEpollCtl epoll EPOLL_CTL_ADD listen_fd (Some KeyListen)) ;;
          if rc <? 0 then
            perror "epoll_ctl (add listening)" ;;
            return_ 1
          else
            rc <- syscall (SysEpollCtl epoll EPOLL_CTL_ADD signal_fd (Some KeySignal)) ;;
            if rc <? 0 then
              perror "epoll_ctl (add signal)" ;;
              return_ 1
            else
              main_serve fuel listen_fd signal_fd epoll).

(** ** Worlds to run the program in *)

Definition answer (ret_ : Z) : Response := mk_Response ret_ 0 [] [] 0 [] None.
Definition failure (e : Z) : Response := mk_Response (-1) e [] [] 0 [] None.
Definition resolved (addrs : list addrinfo) : Response := mk_Response 0 0 addrs [] 0 [] None.
Definition ready (evs : list epoll_event) : Response := mk_Response 0 0 [] evs 0 [] None.
Definition signalled (signo : Z) : Response :=
  mk_Response sizeof_signalfd_siginfo 0 [] [] signo [] None.
Definition polled (cbs : list callback) (t : option completed) : Response :=
  mk_Response 0 0 [] [] 0 cbs t.

(** The oracle that gives the answers of [l] in turn, then zeros. *)
Definition script (l : list Response) : nat -> Response :=
  fun k => nth k l (answer 0).

(** The world when the process starts. *)
Definition init_world (o : nat -> Response) : World :=
  mk_World ∅ 0 0 ∅ ∅ ∅ 0 0 o [].

(** ** Vocabulary of the statements *)

(** The two directions of I/O, with the callback and the slot of each. *)
Inductive dir := Rd | Wr.

Definition slot (d : dir) (c : conn_data) : option nat :=
  match d with Rd => read_waker c | Wr => write_waker c end.

Definition with_slot (d : dir) (v : option nat) (c : conn_data) : conn_data :=
  match d with
  | Rd => mk_conn_data (fd c) v (write_waker c)
  | Wr => mk_conn_data (fd c) (read_waker c) v
  end.

Definition io_cb (d : dir) : Z -> nat -> Z -> M Z :=
  match d with Rd => read_cb | Wr => write_cb end.

Definition io_syscall (d : dir) : Z -> Z -> Syscall :=
  match d with Rd => SysRead | Wr => SysWrite end.

Definition EPOLL_of (d : dir) : Z :=
  match d with Rd => EPOLLIN | Wr => EPOLLOUT end.

(** The events a computation added to the trace. *)
Definition emitted {A} (m : M A) (w : World) : list Event :=
  drop (length (trace w)) (trace (m w).2).

(** [n] invocations of a callback in a row, as the engine makes them. *)
Fixpoint invoke (n : nat) (cb : M Z) : M (list Z) :=
  match n with
  | O => ret []
  | S k => z <- cb ;; zs <- invoke k cb ;; ret (z :: zs)
  end.

Definition is_waker_free (e : Event) : bool :=
  match e with EvHyper (HyWakerFree _) => true | _ => false end.

Definition count_frees (t : list Event) : nat := length (filter is_waker_free t).

(** The next [n] answers to the [read]/[write] of the callback are
    would-block failures and the one after them is a byte count. *)
Definition pending_run (n : nat) (w : World) : Prop :=
  (forall i, (i < n)%nat ->
     r_ret (oracle w (tick w + i)%nat) < 0 /\ r_errno (oracle w (tick w + i)%nat) = EAGAIN) /\
  0 <= r_ret (oracle w (tick w + n)%nat) <= SSIZE_MAX.

(** Record [p] holds waker [h] in its slot for direction [d]. *)
Definition holds (hp : gmap Z conn_data) (p : Z) (d : dir) (h : nat) : Prop :=
  exists c, hp !! p = Some c /\ slot d c = Some h.

(** The book-keeping invariant: the outstanding wakers are exactly the
    wakers held in slots, no waker is held in two slots, and identities
    and addresses are handed out in increasing order. *)
Record Inv_on (hp : gmap Z conn_data) (lv : gset nat) (nid : nat) (b : Z) : Prop := {
  inv_outstanding : forall h, h ∈ lv <-> exists p d, holds hp p d h;
  inv_unique : forall p d p' d' h, holds hp p d h -> holds hp p' d' h -> p = p' /\ d = d';
  inv_fresh : forall h, h ∈ lv -> (h < nid)%nat;
  inv_alloc : forall p, is_Some (hp !! p) -> 0 < p <= b;
  inv_brk : 0 <= b
}.

Definition Inv (w : World) : Prop := Inv_on (heap w) (live w) (next_id w) (brk w).

(** The operations on connection records. *)
Inductive operation :=
| OpCreate (epoll new_fd : Z)
| OpCallback (d : dir) (conn : Z) (ctx : nat) (buf_len : Z)
| OpReadiness (events conn : Z)
| OpDestroy (epoll conn : Z).

Definition perform (o : operation) : M unit :=
  match o with
  | OpCreate epoll new_fd => _ <- create_conn_data epoll new_fd ;; ret tt
  | OpCallback d conn ctx len => _ <- io_cb d conn ctx len ;; ret tt
  | OpReadiness events conn => main_transport events conn
  | OpDestroy epoll conn => free_conn_data epoll conn
  end.

(** The world after a sequence of operations, whatever their outcomes. *)
Definition perform_all (ops : list operation) (w : World) : World :=
  fold_left (fun w o => (perform o w).2) ops w.

(** The waker that an event with the bits [events] wakes in direction [d]
    of record [c], if any. *)
Definition fires (d : dir) (events : Z) (c : conn_data) : option nat :=
  if Z.land events (EPOLL_of d) =? 0 then None else slot d c.

Definition wake_of (o : option nat) : list Event :=
  match o with Some h => [EvHyper (HyWakerWake h)] | None => [] end.

Definition free_of (o : option nat) : list Event :=
  match o with Some h => [EvHyper (HyWakerFree h)] | None => [] end.

Definition without (o : option nat) (s : gset nat) : gset nat :=
  match o with Some h => s ∖ {[h]} | None => s end.

(** The wakers stored in a record are outstanding and are two wakers. *)
Definition wakers_ok (w : World) (c : conn_data) : Prop :=
  (forall d h, slot d c = Some h -> h ∈ live w) /\
  (forall h, read_waker c = Some h -> write_waker c <> Some h).

(** A relation between the world before and the world after holds for
    every run of a computation, whatever its outcome. *)
Definition preserves (R : World -> World -> Prop) {A} (m : M A) : Prop :=
  forall w, R w (m w).2.

(** The trace grew by events that all satisfy [Q]. *)
Definition extends (Q : Event -> Prop) (w w' : World) : Prop :=
  exists evs, trace w' = trace w ++ evs /\ Forall Q evs.

(** The book-keeping invariant carries over. *)
Definition keeps_Inv (w w' : World) : Prop := Inv w -> Inv w'.

(** An event that is neither an [epoll_wait] nor an [accept]. *)
Definition quiet (e : Event) : Prop :=
  match e with
  | EvSys (SysEpollWait _ _) _ => False
  | EvSys (SysAccept _) _ => False
  | _ => True
  end.

Definition not_wait (e : Event) : Prop :=
  match e with EvSys (SysEpollWait _ _) _ => False | _ => True end.

(** An [accept] that gave a descriptor, or any other event. *)
Definition accepted_or_other (e : Event) : Prop :=
  match e with EvSys (SysAccept _) ret_ => 0 <= ret_ | _ => True end.

Definition is_wait (e : Event) : Prop :=
  match e with EvSys (SysEpollWait _ _) _ => True | _ => False end.

(** Every [epoll_wait] in the trace comes right after a poll of the
    executor that gave no task and the line printed after it. *)
Definition waits_when_idle (t : list Event) : Prop :=
  forall pre e post, t = pre ++ e :: post -> is_wait e ->
    exists pre' exec,
      pre = pre' ++ [EvHyper (HyExecutorPoll exec None);
                     EvPrintf "Processed all tasks - polling for events" []].

(** Modelled from the spec: "for a run of n consecutive pending returns on
    the same callback, exactly n-1 handles have been freed by the time of
    the next successful syscall completion", for the run that starts in
    [w]. *)
Definition frees_one_less (d : dir) (conn : Z) (ctx : nat) (buf_len : Z) (n : nat)
    (w : World) : Prop :=
  pending_run n w ->
  count_frees (emitted (invoke (S n) (io_cb d conn ctx buf_len)) w) = (n - 1)%nat.

(** The world after a record was made for descriptor 5 and its read
    callback returned pending once and then 7 bytes; the two answers that
    follow are a would-block failure and 3 bytes. *)
Definition after_first_run : World :=
  perform_all [OpCreate 4 5; OpCallback Rd 1 7 100; OpCallback Rd 1 7 100]
    (init_world (script [answer 0; failure EAGAIN; answer 7; failure EAGAIN; answer 3])).

(** Modelled from the spec: "the accept drain loop calls accept repeatedly
    and terminates exactly when accept fails with the would-block
    condition", for the drain that starts in [w]: when the loop is left,
    [errno] is the would-block code. *)
Definition drain_ends_on_would_block (fuel : nat) (listen_fd epoll : Z) (opts exec : nat)
    (w : World) : Prop :=
  forall w', main_accept_loop fuel listen_fd epoll opts exec w = (Val tt, w') ->
    errno w' = EAGAIN.

(** [ECONNABORTED] of Linux, an error of [accept] that is not would-block. *)
Definition ECONNABORTED : Z := 103.

(** A world in which the next [accept] fails with [ECONNABORTED] and the
    one after it would give descriptor 9. *)
Definition aborted_accept : World :=
  init_world (script [failure ECONNABORTED; answer 9]).

(** [EBADF], [EMFILE], [ENOSPC] and [EADDRINUSE] of Linux. *)
Definition EBADF : Z := 9.
Definition EMFILE : Z := 24.
Definition ENOSPC : Z := 28.
Definition EADDRINUSE : Z := 98.

Definition an_address : addrinfo := mk_addrinfo 2 1 6 0.

(** The answers in a run in which set-up succeeds (socket 3, signal
    descriptor 5, epoll descriptor 4), one connection is accepted on
    descriptor 9, and then SIGINT arrives. *)
Definition session_until_SIGINT : list Response :=
  [resolved [an_address]; answer 3; answer 0; answer 0; answer 0; answer 0; answer 0;
   answer 5; answer 0; answer 4; answer 0; answer 0;
   polled [] None; ready [mk_epoll_event EPOLLIN KeyListen];
   answer 9; answer 0; answer 0; answer 0; answer 0; failure EAGAIN;
   polled [] None; ready [mk_epoll_event EPOLLIN KeySignal]; signalled SIGINT].

(** The answers in a run in which the listening socket is set up,
    [signalfd] fails, and every later call succeeds; the executor has no
    task and [epoll_wait] reports no event. *)
Definition session_signalfd_fails : list Response :=
  [resolved [an_address]; answer 3; answer 0; answer 0; answer 0; answer 0; answer 0;
   failure EMFILE; answer 4; answer 0; answer 0; polled [] None; ready []].

(** Every [return] statement that ends a run of [m] returns 1. *)
Definition returns_one {A} (m : M A) : Prop :=
  forall w z, (m w).1 = Return z -> z = 1.

(** No run of [m] comes to the end of [m]: the run leaves by a [return]
    or a jump, or it does not end. *)
Definition no_value {A} (m : M A) : Prop :=
  forall w a, (m w).1 <> Val a.

(** The step from [w] to [w'] keeps the property of the trace. *)
Definition keeps_idle (w w' : World) : Prop :=
  waits_when_idle (trace w) -> waits_when_idle (trace w').

(** The world after an external call that was recorded as [e]: one more
    answer of the oracle is consumed, and [errno] is set when the answer is
    a failure. *)
Definition answered (e : Event) (w : World) : World :=
  set_trace (fun t => t ++ [e])
    (set_errno (if r_ret (oracle w (tick w)) <? 0
                then r_errno (oracle w (tick w)) else errno w)
       (set_tick (S (tick w)) w)).

(** A world with one connection record, at address 1 on descriptor 5, with
    an empty read slot and waker 0 in its write slot. *)
Definition one_conn (o : nat -> Response) : World :=
  mk_World {[1 := mk_conn_data 5 None (Some 0%nat)]} 1 0 {[0%nat]} ∅ ∅ 1 0 o [].


(** ** Vocabulary of the further statements *)

(** The descriptors that [socket] gave, and the descriptors that were
    closed, in the order of the events. *)
Definition opened_sockets (t : list Event) : list Z :=
  omap (fun e => match e with
                 | EvSys (SysSocket _) s => if 0 <=? s then Some s else None
                 | _ => None
                 end) t.

Definition closed_sockets (t : list Event) : list Z :=
  omap (fun e => match e with EvSys (SysClose s) _ => Some s | _ => None end) t.

(** The events of the destruction of the record [c] at [conn], when the
    next two answers of the oracle in [w] are those to [epoll_ctl] and to
    [close]. *)
Definition destroyed (epoll conn : Z) (c : conn_data) (w : World) : list Event :=
  let dereg := r_ret (oracle w (tick w)) in
  let closed := r_ret (oracle w (S (tick w))) in
  EvSys (SysEpollCtl epoll EPOLL_CTL_DEL (fd c) None) dereg ::
  (if dereg <? 0 then [EvPerror "epoll_ctl (transport)"] else []) ++
  free_of (read_waker c) ++ free_of (write_waker c) ++
  [EvSys (SysClose (fd c)) closed; EvFree conn].

(** From [w] to [w'] the book-keeping invariant carries over, and every
    record of [w] is still allocated in [w'], with the descriptor it had. *)
Definition keeps_records (w w' : World) : Prop :=
  Inv w ->
  Inv w' /\
  forall p c, heap w !! p = Some c -> exists c', heap w' !! p = Some c' /\ fd c' = fd c.

(** No run of [m] from a world with the book-keeping invariant wakes or
    frees a waker that is not outstanding. *)
Definition never_dead_waker {A} (m : M A) : Prop :=
  forall w, Inv w -> (m w).1 <> Fault DeadWaker.

(** Invocations of a callback on a record, each one after what the list
    says: [None], nothing; [Some events], a readiness event with these bits
    for the record. *)
Fixpoint interleaved (d : dir) (conn : Z) (ctx : nat) (buf_len : Z)
    (gaps : list (option Z)) : M (list Z) :=
  match gaps with
  | [] => ret []
  | g :: rest =>
      match g with Some events => main_transport events conn | None => ret tt end ;;
      z <- io_cb d conn ctx buf_len ;;
      zs <- interleaved d conn ctx buf_len rest ;;
      ret (z :: zs)
  end.

(** The number of pending returns, among those of [interleaved], that find
    the slot of direction [d] populated, [populated] telling whether it is
    so at the start: a readiness event with the bit of [d] empties the slot
    and a pending return populates it. *)
Fixpoint populated_pendings (d : dir) (populated : bool) (gaps : list (option Z)) : nat :=
  match gaps with
  | [] => 0
  | g :: rest =>
      let cleared :=
        match g with
        | Some events => negb (Z.land events (EPOLL_of d) =? 0)
        | None => false
        end in
      ((if populated && negb cleared then 1 else 0) + populated_pendings d true rest)%nat
  end.

(** The next [n] answers of the oracle are would-block failures. *)
Definition would_block (n : nat) (w : World) : Prop :=
  forall i, (i < n)%nat ->
    r_ret (oracle w (tick w + i)%nat) < 0 /\ r_errno (oracle w (tick w + i)%nat) = EAGAIN.
(** * Proofs *)

(** ** Running a program step by step

    The world stays abstract: each statement is rewritten by the equation
    that gives its value and the world after it. *)

Ltac goal_simpl :=
  cbn [fst snd heap brk errno live ios tasks next_id tick oracle trace negb
       set_heap set_brk set_errno set_live set_ios set_tasks set_next_id set_tick set_trace
       answered fd read_waker write_waker slot with_slot io_cb io_syscall EPOLL_of
       wake_of free_of without app
       r_ret r_errno r_addrs r_events r_signo r_cbs r_task
       c_task c_type c_error_code c_error_len ev_events ev_data].

Lemma world_ext (w1 w2 : World) :
  heap w1 = heap w2 -> brk w1 = brk w2 -> errno w1 = errno w2 -> live w1 = live w2 ->
  ios w1 = ios w2 -> tasks w1 = tasks w2 -> next_id w1 = next_id w2 ->
  tick w1 = tick w2 -> oracle w1 = oracle w2 -> trace w1 = trace w2 -> w1 = w2.
Proof. destruct w1, w2; simpl; intros; by subst. Qed.

Ltac world_eq :=
  apply world_ext; goal_simpl; rewrite <- ?app_assoc; cbn [app]; try reflexivity.

Ltac same_world := first [reflexivity | (f_equal; world_eq)].

Lemma bind_val {A B} (m : M A) (k : A -> M B) (w : World) (a : A) (w' : World) :
  m w = (Val a, w') -> bind m k w = k a w'.
Proof. intros H. unfold bind. by rewrite H. Qed.

Lemma bind_assoc {A B C} (m : M A) (k : A -> M B) (k' : B -> M C) (w : World) :
  bind (bind m k) k' w = bind m (fun a => bind (k a) k') w.
Proof. unfold bind. destruct (m w) as [[] ?]; reflexivity. Qed.

Lemma ret_run {A} (a : A) (w : World) : ret a w = (Val a, w).
Proof. reflexivity. Qed.

Lemma emit_run (e : Event) (w : World) :
  emit e w = (Val tt, set_trace (fun t => t ++ [e]) w).
Proof. reflexivity. Qed.

Lemma syscall_r_run (c : Syscall) (w : World) :
  syscall_r c w =
    (Val (oracle w (tick w)), answered (EvSys c (r_ret (oracle w (tick w)))) w).
Proof.
  unfold syscall_r, answered, ask, emit, bind, ret. goal_simpl.
  destruct (r_ret (oracle w (tick w)) <? 0); f_equal; world_eq.
Qed.

Lemma syscall_run (c : Syscall) (w : World) :
  syscall c w =
    (Val (r_ret (oracle w (tick w))), answered (EvSys c (r_ret (oracle w (tick w)))) w).
Proof. unfold syscall. by rewrite (bind_val _ _ _ _ _ (syscall_r_run c w)). Qed.

Lemma deref_run (p : Z) (w : World) (c : conn_data) :
  p <> NULL -> heap w !! p = Some c -> deref p w = (Val c, w).
Proof.
  intros Hp Hc. unfold deref. apply Z.eqb_neq in Hp. by rewrite Hp, Hc.
Qed.

Lemma store_run (p : Z) (w : World) (c c' : conn_data) :
  p <> NULL -> heap w !! p = Some c ->
  store p c' w = (Val tt, set_heap (insert p c') w).
Proof.
  intros Hp Hc. unfold store. by rewrite (bind_val _ _ _ _ _ (deref_run p w c Hp Hc)).
Qed.

Lemma set_slot_run (d : dir) (p : Z) (v : option nat) (w : World) (c : conn_data) :
  p <> NULL -> heap w !! p = Some c ->
  match d with Rd => set_read_waker | Wr => set_write_waker end p v w =
    (Val tt, set_heap (insert p (with_slot d v c)) w).
Proof.
  intros Hp Hc.
  destruct d; unfold set_read_waker, set_write_waker;
    rewrite (bind_val _ _ _ _ _ (deref_run p w c Hp Hc));
    by rewrite (store_run p w c _ Hp Hc).
Qed.

Lemma set_fd_run (p v : Z) (w : World) (c : conn_data) :
  p <> NULL -> heap w !! p = Some c ->
  set_fd p v w =
    (Val tt, set_heap (insert p (mk_conn_data v (read_waker c) (write_waker c))) w).
Proof.
  intros Hp Hc. unfold set_fd.
  rewrite (bind_val _ _ _ _ _ (deref_run p w c Hp Hc)).
  by rewrite (store_run p w c _ Hp Hc).
Qed.

Lemma free_run (p : Z) (w : World) (c : conn_data) :
  p <> NULL -> heap w !! p = Some c ->
  free p w = (Val tt, set_trace (fun t => t ++ [EvFree p]) (set_heap (delete p) w)).
Proof.
  intros Hp Hc. unfold free. by rewrite (bind_val _ _ _ _ _ (deref_run p w c Hp Hc)).
Qed.

Lemma consume_run (h : nat) (w : World) :
  h ∈ live w -> consume_waker h w = (Val tt, set_live (fun s => s ∖ {[h]}) w).
Proof. intros H. unfold consume_waker. by rewrite decide_True. Qed.

Lemma hyper_waker_free_run (h : nat) (w : World) :
  h ∈ live w ->
  hyper_waker_free h w =
    (Val tt, set_trace (fun t => t ++ [EvHyper (HyWakerFree h)])
               (set_live (fun s => s ∖ {[h]}) w)).
Proof.
  intros H. unfold hyper_waker_free. by rewrite (bind_val _ _ _ _ _ (consume_run h w H)).
Qed.

Lemma hyper_waker_wake_run (h : nat) (w : World) :
  h ∈ live w ->
  hyper_waker_wake h w =
    (Val tt, set_trace (fun t => t ++ [EvHyper (HyWakerWake h)])
               (set_live (fun s => s ∖ {[h]}) w)).
Proof.
  intros H. unfold hyper_waker_wake. by rewrite (bind_val _ _ _ _ _ (consume_run h w H)).
Qed.

Lemma fresh_id_run (w : World) :
  fresh_id w = (Val (next_id w), set_next_id (S (next_id w)) w).
Proof. reflexivity. Qed.

Lemma hyper_context_waker_run (ctx : nat) (w : World) :
  hyper_context_waker ctx w =
    (Val (next_id w),
     set_trace (fun t => t ++ [EvHyper (HyContextWaker (next_id w))])
       (set_live (union {[next_id w]}) (set_next_id (S (next_id w)) w))).
Proof. reflexivity. Qed.

Lemma malloc_run (w : World) :
  malloc w =
    (Val (brk w + 1),
     set_trace (fun t => t ++ [EvMalloc (brk w + 1)])
       (set_brk (brk w + 1) (set_heap (insert (brk w + 1) (mk_conn_data 0 None None)) w))).
Proof. reflexivity. Qed.

Lemma get_errno_run (w : World) : get_errno w = (Val (errno w), w).
Proof. reflexivity. Qed.

Lemma io_userdata_run (io : nat) (w : World) :
  io_userdata io w = (Val (default NULL (ios w !! io)), w).
Proof. reflexivity. Qed.

Lemma hyper_task_userdata_run (task : nat) (w : World) :
  hyper_task_userdata task w = (Val (default NULL (tasks w !! task)), w).
Proof. reflexivity. Qed.

Lemma hyper_io_new_run (w : World) :
  hyper_io_new w =
    (Val (next_id w),
     set_trace (fun t => t ++ [EvHyper (HyIoNew (next_id w))])
       (set_next_id (S (next_id w)) w)).
Proof. reflexivity. Qed.

Lemma hyper_io_set_userdata_run (io : nat) (p : Z) (w : World) :
  hyper_io_set_userdata io p w =
    (Val tt, set_trace (fun t => t ++ [EvHyper (HyIoSetUserdata io p)])
               (set_ios (insert io p) w)).
Proof. reflexivity. Qed.

Lemma hyper_service_new_run (w : World) :
  hyper_service_new w =
    (Val (next_id w),
     set_trace (fun t => t ++ [EvHyper (HyServiceNew (next_id w))])
       (set_next_id (S (next_id w)) w)).
Proof. reflexivity. Qed.

Lemma hyper_serve_connection_run (opts io service : nat) (w : World) :
  hyper_serve_connection opts io service w =
    (Val (next_id w),
     set_trace (fun t => t ++ [EvHyper (HyServeConnection opts io service (next_id w))])
       (set_next_id (S (next_id w)) w)).
Proof. reflexivity. Qed.

Lemma hyper_task_set_userdata_run (task : nat) (p : Z) (w : World) :
  hyper_task_set_userdata task p w =
    (Val tt, set_trace (fun t => t ++ [EvHyper (HyTaskSetUserdata task p)])
               (set_tasks (insert task p) w)).
Proof. reflexivity. Qed.

Lemma hyper_task_free_run (task : nat) (w : World) :
  hyper_task_free task w =
    (Val tt, set_trace (fun t => t ++ [EvHyper (HyTaskFree task)])
               (set_tasks (delete task) w)).
Proof. reflexivity. Qed.

Lemma hyper_executor_new_run (w : World) :
  hyper_executor_new w =
    (Val (next_id w),
     set_trace (fun t => t ++ [EvHyper (HyExecutorNew (next_id w))])
       (set_next_id (S (next_id w)) w)).
Proof. reflexivity. Qed.

Lemma hyper_serverconn_options_new_run (exec : nat) (w : World) :
  hyper_serverconn_options_new exec w =
    (Val (next_id w),
     set_trace (fun t => t ++ [EvHyper (HyOptionsNew (next_id w))])
       (set_next_id (S (next_id w)) w)).
Proof. reflexivity. Qed.

Ltac side :=
  goal_simpl;
  first [ eassumption | reflexivity | apply lookup_insert_eq
        | (rewrite lookup_insert_eq; reflexivity) ].

Ltac run_prim :=
  lazymatch goal with
  | |- ret _ _ = _ => apply ret_run
  | |- emit _ _ = _ => apply emit_run
  | |- syscall _ _ = _ => apply syscall_run
  | |- syscall_r _ _ = _ => apply syscall_r_run
  | |- fresh_id _ = _ => apply fresh_id_run
  | |- malloc _ = _ => apply malloc_run
  | |- get_errno _ = _ => apply get_errno_run
  | |- io_userdata _ _ = _ => apply io_userdata_run
  | |- deref _ _ = _ => eapply deref_run; side
  | |- set_read_waker _ _ _ = _ => eapply (set_slot_run Rd); side
  | |- set_write_waker _ _ _ = _ => eapply (set_slot_run Wr); side
  | |- set_fd _ _ _ = _ => eapply set_fd_run; side
  | |- free _ _ = _ => eapply free_run; side
  | |- hyper_waker_free _ _ = _ => apply hyper_waker_free_run; side
  | |- hyper_waker_wake _ _ = _ => apply hyper_waker_wake_run; side
  | |- hyper_context_waker _ _ = _ => apply hyper_context_waker_run
  | |- hyper_task_userdata _ _ = _ => apply hyper_task_userdata_run
  | |- hyper_io_new _ = _ => apply hyper_io_new_run
  | |- hyper_io_set_userdata _ _ _ = _ => apply hyper_io_set_userdata_run
  | |- hyper_service_new _ = _ => apply hyper_service_new_run
  | |- hyper_serve_connection _ _ _ _ = _ => apply hyper_serve_connection_run
  | |- hyper_task_set_userdata _ _ _ = _ => apply hyper_task_set_userdata_run
  | |- hyper_task_free _ _ = _ => apply hyper_task_free_run
  | |- hyper_executor_new _ = _ => apply hyper_executor_new_run
  | |- hyper_serverconn_options_new _ _ = _ => apply hyper_serverconn_options_new_run
  end.

Ltac run_known := fail.

Ltac unfold_output :=
  unfold printf, perror, fprintf_stderr, hy, when,
    hyper_io_set_read, hyper_io_set_write, hyper_error_free,
    hyper_executor_push, hyper_executor_free, hyper_serverconn_options_free.

Ltac assoc :=
  repeat match goal with
         | |- context [bind (bind ?m ?k) ?k' ?w] => rewrite (bind_assoc m k k' w)
         end.

Ltac step :=
  goal_simpl; unfold_output; assoc;
  match goal with
  | |- context [bind ?m ?k ?w] =>
      erewrite (bind_val m k w) by first [run_prim | run_known]
  end; goal_simpl.

Ltac last_step :=
  goal_simpl; unfold_output; etransitivity; [first [run_prim | run_known] | ].

Ltac run := repeat step; last_step.

(** ** The events a computation emits *)

Lemma emitted_app {A} (m : M A) (w : World) (evs : list Event) :
  trace (m w).2 = trace w ++ evs -> emitted m w = evs.
Proof. intros H. unfold emitted. rewrite H. by rewrite drop_app_length. Qed.

Lemma emitted_run {A} (m : M A) (w w' : World) (a : Res A) (evs : list Event) :
  m w = (a, w') -> trace w' = trace w ++ evs -> emitted m w = evs.
Proof. intros Hm Ht. apply emitted_app. by rewrite Hm. Qed.

(** ** The I/O adapter *)

Lemma to_size_t_id (z : Z) : 0 <= z <= SSIZE_MAX -> to_size_t z = z.
Proof.
  intros Hz. unfold to_size_t. apply Z.mod_small.
  unfold SSIZE_MAX, SIZE_MAX in *. lia.
Qed.

Section Callback.
Variables (d : dir) (conn : Z) (ctx : nat) (buf_len : Z) (w : World) (c : conn_data).
Hypothesis conn_not_null : conn <> NULL.
Hypothesis conn_allocated : heap w !! conn = Some c.

Local Notation r := (oracle w (tick w)).
Local Notation sys := (EvSys (io_syscall d (fd c) buf_len) (r_ret r)).

Lemma io_cb_bytes_run :
  0 <= r_ret r ->
  io_cb d conn ctx buf_len w = (Val (to_size_t (r_ret r)), answered sys w).
Proof.
  intros Hr.
  assert (Hle : (0 <=? r_ret (oracle w (tick w))) = true) by (apply Z.leb_le; lia).
  destruct d; goal_simpl; unfold read_cb, write_cb;
    do 2 step; rewrite Hle; reflexivity.
Qed.

Lemma io_cb_error_run :
  r_ret r < 0 -> r_errno r <> EAGAIN ->
  io_cb d conn ctx buf_len w = (Val HYPER_IO_ERROR, answered sys w).
Proof.
  intros Hr He.
  assert (Hle : (0 <=? r_ret (oracle w (tick w))) = false) by (apply Z.leb_gt; lia).
  assert (Hlt : (r_ret (oracle w (tick w)) <? 0) = true) by (apply Z.ltb_lt; lia).
  apply Z.eqb_neq in He.
  destruct d; goal_simpl; unfold read_cb, write_cb;
    do 2 step; rewrite Hle; step; rewrite Hlt, He; reflexivity.
Qed.

Lemma io_cb_pending_run :
  r_ret r < 0 -> r_errno r = EAGAIN ->
  (forall old, slot d c = Some old -> old ∈ live w) ->
  let h := next_id w in
  io_cb d conn ctx buf_len w =
    (Val HYPER_IO_PENDING,
     set_heap (insert conn (with_slot d (Some h) c))
       (set_live (fun s => {[h]} ∪ without (slot d c) s)
          (set_next_id (S h)
             (set_trace (fun t => t ++ free_of (slot d c) ++ [EvHyper (HyContextWaker h)])
                (answered sys w))))).
Proof.
  intros Hr He Hlive h. subst h.
  assert (Hle : (0 <=? r_ret (oracle w (tick w))) = false) by (apply Z.leb_gt; lia).
  assert (Hlt : (r_ret (oracle w (tick w)) <? 0) = true) by (apply Z.ltb_lt; lia).
  destruct d; goal_simpl; unfold read_cb, write_cb;
    do 2 step; rewrite Hle; step; rewrite Hlt, He, Z.eqb_refl; goal_simpl; step.
  - destruct (read_waker c) as [old|] eqn:Hs.
    + pose proof (Hlive old Hs) as Hold. run. same_world.
    + run. same_world.
  - destruct (write_waker c) as [old|] eqn:Hs.
    + pose proof (Hlive old Hs) as Hold. run. same_world.
    + run. same_world.
Qed.
End Callback.

(** C1.  An invocation of the read callback, and likewise of the write
    callback, on an allocated connection record: a non-negative byte count of
    the system call is the value of the callback; on a would-block failure
    the callback takes a new waker from the context (after freeing the one
    the slot held, if any), stores it in the slot of its direction and
    returns the pending sentinel; on any other failure it returns the
    I/O-error sentinel and leaves the record alone. *)
Theorem io_callback_contract (d : dir) (conn : Z) (ctx : nat) (buf_len : Z)
    (w : World) (c : conn_data) :
  conn <> NULL -> heap w !! conn = Some c ->
  let r := oracle w (tick w) in
  let cb := match d with Rd => read_cb | Wr => write_cb end conn ctx buf_len in
  let sys := EvSys (io_syscall d (fd c) buf_len) (r_ret r) in
  let h := next_id w in
  (0 <= r_ret r <= SSIZE_MAX ->
     (cb w).1 = Val (r_ret r) /\ heap (cb w).2 = heap w /\ emitted cb w = [sys]) /\
  (r_ret r < 0 -> r_errno r = EAGAIN ->
   (forall old, slot d c = Some old -> old ∈ live w) ->
     (cb w).1 = Val HYPER_IO_PENDING /\
     heap (cb w).2 = <[conn := with_slot d (Some h) c]> (heap w) /\
     live (cb w).2 = {[h]} ∪ without (slot d c) (live w) /\
     emitted cb w = sys :: free_of (slot d c) ++ [EvHyper (HyContextWaker h)]) /\
  (r_ret r < 0 -> r_errno r <> EAGAIN ->
     (cb w).1 = Val HYPER_IO_ERROR /\ heap (cb w).2 = heap w /\ emitted cb w = [sys]).
Proof.
  intros Hp Hc r cb sys h.
  assert (Hcb : cb = io_cb d conn ctx buf_len) by (by destruct d).
  rewrite Hcb. clear Hcb cb. split; [|split].
  - intros Hr.
    pose proof (io_cb_bytes_run d conn ctx buf_len w c Hp Hc (proj1 Hr)) as Hrun.
    rewrite Hrun. goal_simpl. subst r. rewrite (to_size_t_id _ Hr).
    repeat split. by eapply emitted_run.
  - intros Hr He Hl.
    pose proof (io_cb_pending_run d conn ctx buf_len w c Hp Hc Hr He Hl) as Hrun.
    cbv zeta in Hrun. rewrite Hrun. repeat split.
    eapply emitted_run; [exact Hrun|]. goal_simpl. by rewrite <- app_assoc.
  - intros Hr He. pose proof (io_cb_error_run d conn ctx buf_len w c Hp Hc Hr He) as Hrun.
    rewrite Hrun. repeat split. by eapply emitted_run.
Qed.

Lemma io_callback_contract_witness :
  let w := one_conn (script [failure EAGAIN]) in
  (1 <> NULL /\ heap w !! 1 = Some (mk_conn_data 5 None (Some 0%nat))) /\
  (read_cb 1 7 100 w).1 = Val HYPER_IO_PENDING /\
  heap (read_cb 1 7 100 w).2 = <[1 := mk_conn_data 5 (Some 1%nat) (Some 0%nat)]> (heap w) /\
  emitted (read_cb 1 7 100) w =
    [EvSys (SysRead 5 100) (-1); EvHyper (HyContextWaker 1)].
Proof.
  intros w.
  assert (H1 : 1 <> NULL) by (unfold NULL; lia).
  assert (H2 : heap w !! 1 = Some (mk_conn_data 5 None (Some 0%nat))) by reflexivity.
  split; [done|].
  destruct (io_callback_contract Rd 1 7 100 w _ H1 H2) as (_ & Hpending & _).
  destruct Hpending as (Hv & Hh & _ & He).
  - simpl. lia.
  - reflexivity.
  - intros old Hold. discriminate Hold.
  - split; [exact Hv|]. split; [exact Hh|]. exact He.
Defined.

(** ** The readiness-to-waker bridge *)

Lemma second_waker_live (w : World) (c : conn_data) (hr hx : nat) :
  wakers_ok w c -> read_waker c = Some hr -> write_waker c = Some hx ->
  hx ∈ live w ∖ {[hr]}.
Proof.
  intros [Hlive Hdiff] Hr Hx. apply elem_of_difference. split.
  - by apply (Hlive Wr).
  - intros ->%elem_of_singleton. by apply (Hdiff hr).
Qed.

Lemma main_transport_run (events conn : Z) (w : World) (c : conn_data) :
  conn <> NULL -> heap w !! conn = Some c -> wakers_ok w c ->
  let rd := fires Rd events c in
  let wr := fires Wr events c in
  main_transport events conn w =
    (Val tt,
     set_trace (fun t => t ++ wake_of rd ++ wake_of wr)
       (set_live (fun s => without wr (without rd s))
          (set_heap (insert conn
             (mk_conn_data (fd c)
                (match rd with Some _ => None | None => read_waker c end)
                (match wr with Some _ => None | None => write_waker c end))) w))).
Proof.
  intros Hp Hc Hok rd wr. subst rd wr. unfold fires, main_transport.
  destruct c as [f r x]. goal_simpl.
  assert (Hid : <[conn := mk_conn_data f r x]> (heap w) = heap w) by (by apply insert_id).
  destruct (Z.land events EPOLLIN =? 0) eqn:Hin;
    destruct (Z.land events EPOLLOUT =? 0) eqn:Hout; goal_simpl.
  - run. same_world; [by rewrite Hid | by rewrite app_nil_r].
  - step. step. destruct x as [hx|].
    + destruct Hok as [Hlive _]. pose proof (Hlive Wr hx eq_refl) as Hx.
      run. same_world.
    + run. same_world; [by rewrite Hid | by rewrite app_nil_r].
  - step. destruct r as [hr|].
    + destruct Hok as [Hlive _]. pose proof (Hlive Rd hr eq_refl) as Hr.
      run. same_world.
    + run. same_world; [by rewrite Hid | by rewrite app_nil_r].
  - step. destruct r as [hr|]; destruct x as [hx|].
    + pose proof (second_waker_live w _ hr hx Hok eq_refl eq_refl) as Hx'.
      destruct Hok as [Hlive _]. pose proof (Hlive Rd hr eq_refl) as Hr.
      run. same_world. by rewrite insert_insert_eq.
    + destruct Hok as [Hlive _]. pose proof (Hlive Rd hr eq_refl) as Hr.
      run. same_world.
    + destruct Hok as [Hlive _]. pose proof (Hlive Wr hx eq_refl) as Hx.
      run. same_world.
    + run. same_world; [by rewrite Hid | by rewrite app_nil_r].
Qed.



(** ** Destruction of a connection record *)

Lemma drop_saved_wakers_run (conn : Z) (w : World) (c : conn_data) :
  conn <> NULL -> heap w !! conn = Some c -> wakers_ok w c ->
  drop_saved_wakers conn w =
    (Val tt,
     set_trace (fun t => t ++ free_of (read_waker c) ++ free_of (write_waker c))
       (set_live (fun s => without (write_waker c) (without (read_waker c) s))
          (set_heap (insert conn (mk_conn_data (fd c) None None)) w))).
Proof.
  intros Hp Hc Hok. unfold drop_saved_wakers.
  destruct c as [f r x]. goal_simpl.
  destruct r as [hr|]; destruct x as [hx|].
  - pose proof (second_waker_live w _ hr hx Hok eq_refl eq_refl) as Hx'.
    destruct Hok as [Hlive _]. pose proof (Hlive Rd hr eq_refl) as Hr.
    run. same_world. by rewrite insert_insert_eq.
  - destruct Hok as [Hlive _]. pose proof (Hlive Rd hr eq_refl) as Hr.
    run. same_world.
  - destruct Hok as [Hlive _]. pose proof (Hlive Wr hx eq_refl) as Hx.
    run. same_world.
  - run. same_world.
    + by rewrite insert_id.
    + by rewrite app_nil_r.
Qed.

Ltac run_known ::=
  lazymatch goal with
  | |- drop_saved_wakers _ _ = _ => eapply drop_saved_wakers_run; side
  end.

Lemma free_conn_data_run (epoll conn : Z) (w : World) (c : conn_data) :
  conn <> NULL -> heap w !! conn = Some c -> wakers_ok w c ->
  let dereg := r_ret (oracle w (tick w)) in
  let closed := r_ret (oracle w (S (tick w))) in
  free_conn_data epoll conn w =
    (Val tt,
     set_trace (fun t => t ++
         EvSys (SysEpollCtl epoll EPOLL_CTL_DEL (fd c) None) dereg ::
         (if dereg <? 0 then [EvPerror "epoll_ctl (transport)"] else []) ++
         free_of (read_waker c) ++ free_of (write_waker c) ++
         [EvSys (SysClose (fd c)) closed; EvFree conn])
       (set_live (fun s => without (write_waker c) (without (read_waker c) s))
          (set_heap (delete conn)
             (set_errno (if closed <? 0 then r_errno (oracle w (S (tick w)))
                         else if dereg <? 0 then r_errno (oracle w (tick w))
                         else errno w)
                (set_tick (S (S (tick w))) w))))).
Proof.
  intros Hp Hc Hok dereg closed. subst dereg closed.
  unfold free_conn_data.
  do 2 step.
  destruct (r_ret (oracle w (tick w)) <? 0) eqn:Hdereg;
    run; same_world; rewrite ?delete_insert_eq, ?Hdereg; reflexivity.
Qed.

(** C4.  The destruction of a connection record does, in this order:
    the removal of the descriptor from the epoll set; the release of the
    read waker and of the write waker when they are stored, each slot being
    set to empty; the closing of the descriptor; the release of the record.
    When the removal from the epoll set fails, a message is printed and the
    destruction goes on to its end. *)
Theorem free_conn_data_order (epoll conn : Z) (w : World) (c : conn_data) :
  conn <> NULL -> heap w !! conn = Some c -> wakers_ok w c ->
  let dereg := r_ret (oracle w (tick w)) in
  let closed := r_ret (oracle w (S (tick w))) in
  let out := free_conn_data epoll conn w in
  out.1 = Val tt /\
  emitted (free_conn_data epoll conn) w =
    EvSys (SysEpollCtl epoll EPOLL_CTL_DEL (fd c) None) dereg ::
    (if dereg <? 0 then [EvPerror "epoll_ctl (transport)"] else []) ++
    free_of (read_waker c) ++ free_of (write_waker c) ++
    [EvSys (SysClose (fd c)) closed; EvFree conn] /\
  heap out.2 = delete conn (heap w) /\
  live out.2 = without (write_waker c) (without (read_waker c) (live w)) /\
  heap (drop_saved_wakers conn w).2 !! conn = Some (mk_conn_data (fd c) None None).
Proof.
  intros Hp Hc Hok dereg closed out. subst dereg closed out.
  pose proof (free_conn_data_run epoll conn w c Hp Hc Hok) as Hrun.
  cbv zeta in Hrun.
  split; [by rewrite Hrun|]. split; [|split; [by rewrite Hrun|split; [by rewrite Hrun|]]].
  - eapply emitted_run; [exact Hrun|]. reflexivity.
  - rewrite (drop_saved_wakers_run conn w c Hp Hc Hok). goal_simpl.
    apply lookup_insert_eq.
Qed.

Lemma free_conn_data_order_witness :
  let w := one_conn (script [failure 2; answer 0]) in
  let c := mk_conn_data 5 None (Some 0%nat) in
  (1 <> NULL /\ heap w !! 1 = Some c /\ wakers_ok w c) /\
  (free_conn_data 4 1 w).1 = Val tt /\
  emitted (free_conn_data 4 1) w =
    [EvSys (SysEpollCtl 4 EPOLL_CTL_DEL 5 None) (-1); EvPerror "epoll_ctl (transport)";
     EvHyper (HyWakerFree 0); EvSys (SysClose 5) 0; EvFree 1] /\
  heap (free_conn_data 4 1 w).2 = delete 1 (heap w).
Proof.
  intros w c.
  assert (H1 : 1 <> NULL) by (unfold NULL; lia).
  assert (H2 : heap w !! 1 = Some c) by reflexivity.
  assert (H3 : wakers_ok w c).
  { split.
    - intros [] h Hs; simpl in Hs; [discriminate|].
      injection Hs as <-. simpl. by apply elem_of_singleton.
    - intros h Hs. discriminate Hs. }
  split; [done|].
  destruct (free_conn_data_order 4 1 w c H1 H2 H3) as (Hv & He & Hh & _).
  split; [exact Hv|]. split; [exact He|]. exact Hh.
Defined.

(** ** The book-keeping invariant *)

Lemma holds_insert (hp : gmap Z conn_data) (p q : Z) (c : conn_data) (d : dir) (h : nat) :
  holds (<[p := c]> hp) q d h <->
  (q = p /\ slot d c = Some h) \/ (q <> p /\ holds hp q d h).
Proof.
  unfold holds. split.
  - intros (c' & Hl & Hs). destruct (decide (q = p)) as [->|Hne].
    + rewrite lookup_insert_eq in Hl. injection Hl as <-. by left.
    + rewrite lookup_insert_ne in Hl by done. right. eauto.
  - intros [[-> Hs] | [Hne (c' & Hl & Hs)]].
    + exists c. by rewrite lookup_insert_eq.
    + exists c'. by rewrite lookup_insert_ne.
Qed.

Lemma holds_delete (hp : gmap Z conn_data) (p q : Z) (d : dir) (h : nat) :
  holds (delete p hp) q d h <-> q <> p /\ holds hp q d h.
Proof.
  unfold holds. split.
  - intros (c' & Hl & Hs). destruct (decide (q = p)) as [->|Hne].
    + by rewrite lookup_delete_eq in Hl.
    + rewrite lookup_delete_ne in Hl by done. eauto.
  - intros [Hne (c' & Hl & Hs)]. exists c'. by rewrite lookup_delete_ne.
Qed.

Lemma holds_here (hp : gmap Z conn_data) (p : Z) (c : conn_data) (d : dir) (h : nat) :
  hp !! p = Some c -> holds hp p d h <-> slot d c = Some h.
Proof.
  intros Hc. unfold holds. split.
  - intros (c' & Hl & Hs). by simplify_eq.
  - intros Hs. eauto.
Qed.

Section Invariant.
Variables (hp : gmap Z conn_data) (lv : gset nat) (nid : nat) (b : Z).
Hypothesis HI : Inv_on hp lv nid b.

Lemma Inv_stored_live (p : Z) (c : conn_data) (d : dir) (h : nat) :
  hp !! p = Some c -> slot d c = Some h -> h ∈ lv.
Proof. intros Hc Hs. apply (inv_outstanding _ _ _ _ HI). exists p, d, c. done. Qed.

Lemma Inv_two_wakers (p : Z) (c : conn_data) (h : nat) :
  hp !! p = Some c -> read_waker c = Some h -> write_waker c <> Some h.
Proof.
  intros Hc Hr Hw.
  assert (H1 : holds hp p Rd h) by (exists c; done).
  assert (H2 : holds hp p Wr h) by (exists c; done).
  by destruct (inv_unique _ _ _ _ HI _ _ _ _ _ H1 H2) as [_ ?].
Qed.

Lemma Inv_not_null (p : Z) (c : conn_data) : hp !! p = Some c -> p <> NULL.
Proof.
  intros Hc. assert (Hs : is_Some (hp !! p)) by eauto.
  apply (inv_alloc _ _ _ _ HI) in Hs. unfold NULL. lia.
Qed.

(** The record at [p] is replaced by [c']: its slots keep their waker,
    lose it, or receive one that was not outstanding. *)
Lemma Inv_update (p : Z) (c c' : conn_data) (lv' : gset nat) (nid' : nat) :
  hp !! p = Some c ->
  (nid <= nid')%nat ->
  (forall h, h ∈ lv' <->
     (read_waker c' = Some h \/ write_waker c' = Some h) \/
     (h ∈ lv /\ read_waker c <> Some h /\ write_waker c <> Some h)) ->
  (forall h, read_waker c' = Some h ->
     read_waker c = Some h \/ ((h ∉ lv) /\ (h < nid')%nat)) ->
  (forall h, write_waker c' = Some h ->
     write_waker c = Some h \/ ((h ∉ lv) /\ (h < nid')%nat)) ->
  (forall h, read_waker c' = Some h -> write_waker c' <> Some h) ->
  Inv_on (<[p := c']> hp) lv' nid' b.
Proof.
  intros Hc Hnid Hlv Hnewr Hneww Htwo.
  assert (Hnew : forall d h, slot d c' = Some h ->
                   slot d c = Some h \/ ((h ∉ lv) /\ (h < nid')%nat))
    by (intros []; simpl; auto).
  split.
  - intros h. rewrite Hlv. split.
    + intros [[Hs | Hs] | (Hin & Hnr & Hnw)].
      * exists p, Rd. apply holds_insert. by left.
      * exists p, Wr. apply holds_insert. by left.
      * apply (inv_outstanding _ _ _ _ HI) in Hin as (q & d & Hq).
        exists q, d. apply holds_insert. right. split; [|done].
        intros ->. apply (holds_here _ _ _ _ _ Hc) in Hq. by destruct d.
    + intros (q & d & Hq). apply holds_insert in Hq as [[-> Hs] | [Hne Hq]].
      * left. destruct d; auto.
      * right. split; [apply (inv_outstanding _ _ _ _ HI); eauto|].
        split; intros Hs0.
        -- assert (Hp : holds hp p Rd h) by (exists c; done).
           by destruct (inv_unique _ _ _ _ HI _ _ _ _ _ Hq Hp) as [? _].
        -- assert (Hp : holds hp p Wr h) by (exists c; done).
           by destruct (inv_unique _ _ _ _ HI _ _ _ _ _ Hq Hp) as [? _].
  - intros q d q' d' h Hq Hq'.
    apply holds_insert in Hq as [[-> Hs] | [Hne Hq]];
      apply holds_insert in Hq' as [[-> Hs'] | [Hne' Hq']].
    + split; [done|]. destruct d, d'; try done; simpl in *.
      * by destruct (Htwo h).
      * by destruct (Htwo h).
    + exfalso. destruct (Hnew _ _ Hs) as [Hold | [Hfresh _]].
      * assert (Hp : holds hp p d h) by (exists c; done).
        by destruct (inv_unique _ _ _ _ HI _ _ _ _ _ Hq' Hp) as [? _].
      * apply Hfresh. apply (inv_outstanding _ _ _ _ HI). eauto.
    + exfalso. destruct (Hnew _ _ Hs') as [Hold | [Hfresh _]].
      * assert (Hp : holds hp p d' h) by (exists c; done).
        by destruct (inv_unique _ _ _ _ HI _ _ _ _ _ Hq Hp) as [? _].
      * apply Hfresh. apply (inv_outstanding _ _ _ _ HI). eauto.
    + by apply (inv_unique _ _ _ _ HI _ _ _ _ h).
  - intros h Hh. apply Hlv in Hh as [[Hs | Hs] | [Hin _]].
    + destruct (Hnewr _ Hs) as [Hold | [_ Hlt]]; [|done].
      pose proof (Inv_stored_live _ _ Rd _ Hc Hold) as Hin.
      apply (inv_fresh _ _ _ _ HI) in Hin. lia.
    + destruct (Hneww _ Hs) as [Hold | [_ Hlt]]; [|done].
      pose proof (Inv_stored_live _ _ Wr _ Hc Hold) as Hin.
      apply (inv_fresh _ _ _ _ HI) in Hin. lia.
    + apply (inv_fresh _ _ _ _ HI) in Hin. lia.
  - intros q [cq Hq]. destruct (decide (q = p)) as [->|Hne].
    + apply (inv_alloc _ _ _ _ HI). eauto.
    + rewrite lookup_insert_ne in Hq by done. apply (inv_alloc _ _ _ _ HI). eauto.
  - apply (inv_brk _ _ _ _ HI).
Qed.

(** What the invariant says about one record. *)
Lemma Inv_record (p : Z) (f : Z) (r x : option nat) :
  hp !! p = Some (mk_conn_data f r x) ->
  (forall h, r = Some h -> h ∈ lv) /\ (forall h, x = Some h -> h ∈ lv) /\
  (forall h, r = Some h -> x <> Some h) /\ nid ∉ lv.
Proof.
  intros Hc. repeat split.
  - intros h Hr. by apply (Inv_stored_live _ _ Rd _ Hc).
  - intros h Hx. by apply (Inv_stored_live _ _ Wr _ Hc).
  - intros h Hr. by apply (Inv_two_wakers _ _ _ Hc).
  - intros Hin%(inv_fresh _ _ _ _ HI). lia.
Qed.

Lemma Inv_delete (p : Z) (c : conn_data) :
  hp !! p = Some c -> read_waker c = None -> write_waker c = None ->
  Inv_on (delete p hp) lv nid b.
Proof.
  intros Hc Hr Hw. split.
  - intros h. rewrite (inv_outstanding _ _ _ _ HI). split.
    + intros (q & d & Hq). exists q, d. apply holds_delete. split; [|done].
      intros ->. apply (holds_here _ _ _ _ _ Hc) in Hq. destruct d; simpl in Hq; congruence.
    + intros (q & d & [_ Hq]%holds_delete). eauto.
  - intros q d q' d' h [_ Hq]%holds_delete [_ Hq']%holds_delete.
    by apply (inv_unique _ _ _ _ HI _ _ _ _ h).
  - apply (inv_fresh _ _ _ _ HI).
  - intros q [cq Hq]. apply (inv_alloc _ _ _ _ HI).
    destruct (decide (q = p)) as [->|Hne].
    + by rewrite lookup_delete_eq in Hq.
    + rewrite lookup_delete_ne in Hq by done. eauto.
  - apply (inv_brk _ _ _ _ HI).
Qed.

Lemma Inv_unallocated (p : Z) : b < p -> hp !! p = None.
Proof.
  intros Hp. destruct (hp !! p) as [c|] eqn:Hc; [|done].
  assert (Hs : is_Some (hp !! p)) by eauto.
  apply (inv_alloc _ _ _ _ HI) in Hs. lia.
Qed.

Lemma Inv_alloc (v : Z) :
  Inv_on (<[b + 1 := mk_conn_data v None None]> hp) lv nid (b + 1).
Proof.
  pose proof (inv_brk _ _ _ _ HI) as Hb.
  assert (Hnone : hp !! (b + 1) = None) by (apply Inv_unallocated; lia).
  assert (Hh : forall q d h,
             holds (<[b + 1 := mk_conn_data v None None]> hp) q d h <-> holds hp q d h).
  { intros q d h. rewrite holds_insert. split.
    - intros [[_ Hs] | [_ Hq]]; [|done]. destruct d; discriminate Hs.
    - intros Hq. right. split; [|done]. intros ->.
      destruct Hq as (c & Hc & _). congruence. }
  split.
  - intros h. rewrite (inv_outstanding _ _ _ _ HI).
    split; intros (q & d & Hq); exists q, d; by apply Hh.
  - intros q d q' d' h Hq%Hh Hq'%Hh. by apply (inv_unique _ _ _ _ HI _ _ _ _ h).
  - apply (inv_fresh _ _ _ _ HI).
  - intros q [cq Hq]. destruct (decide (q = b + 1)) as [->|Hne]; [lia|].
    rewrite lookup_insert_ne in Hq by done.
    assert (Hs : is_Some (hp !! q)) by eauto.
    apply (inv_alloc _ _ _ _ HI) in Hs. lia.
  - lia.
Qed.

Lemma Inv_weaken (nid' : nat) (b' : Z) :
  (nid <= nid')%nat -> b <= b' -> Inv_on hp lv nid' b'.
Proof.
  intros Hn Hb. split.
  - apply (inv_outstanding _ _ _ _ HI).
  - apply (inv_unique _ _ _ _ HI).
  - intros h Hh%(inv_fresh _ _ _ _ HI). lia.
  - intros q Hq%(inv_alloc _ _ _ _ HI). lia.
  - pose proof (inv_brk _ _ _ _ HI). lia.
Qed.
End Invariant.

Lemma Inv_wakers_ok (w : World) (p : Z) (c : conn_data) :
  Inv w -> heap w !! p = Some c -> wakers_ok w c.
Proof.
  intros HI Hc. split.
  - intros d h Hs. by eapply Inv_stored_live.
  - intros h. by eapply Inv_two_wakers.
Qed.

Lemma Inv_init (o : nat -> Response) : Inv (init_world o).
Proof.
  split; simpl.
  - intros h. split; [set_solver|]. intros (p & d & c & Hc & _). by rewrite lookup_empty in Hc.
  - intros p d p' d' h (c & Hc & _). by rewrite lookup_empty in Hc.
  - set_solver.
  - intros p [c Hc]. by rewrite lookup_empty in Hc.
  - lia.
Qed.

(** ** Creation of a connection record *)

Lemma create_conn_data_run_fail (epoll new_fd : Z) (w : World) :
  0 <= brk w -> r_ret (oracle w (tick w)) < 0 ->
  let p := brk w + 1 in
  let rc := r_ret (oracle w (tick w)) in
  create_conn_data epoll new_fd w =
    (Val NULL,
     set_trace (fun t => t ++
         [EvMalloc p;
          EvSys (SysEpollCtl epoll EPOLL_CTL_ADD new_fd (Some (KeyConn p))) rc;
          EvPerror "epoll_ctl (transport)"; EvFree p])
       (set_heap (fun hp => delete p (<[p := mk_conn_data 0 None None]> hp))
          (set_brk p (set_errno (r_errno (oracle w (tick w))) (set_tick (S (tick w)) w))))).
Proof.
  intros Hb Hrc p rc. subst p rc.
  assert (Hp : brk w + 1 <> NULL) by (unfold NULL; lia).
  assert (Hlt : (r_ret (oracle w (tick w)) <? 0) = true) by (apply Z.ltb_lt; lia).
  unfold create_conn_data. do 2 step. rewrite Hlt. run. same_world.
  by rewrite Hlt.
Qed.

Lemma create_conn_data_run_ok (epoll new_fd : Z) (w : World) :
  0 <= brk w -> 0 <= r_ret (oracle w (tick w)) ->
  let p := brk w + 1 in
  let rc := r_ret (oracle w (tick w)) in
  create_conn_data epoll new_fd w =
    (Val p,
     set_trace (fun t => t ++
         [EvMalloc p;
          EvSys (SysEpollCtl epoll EPOLL_CTL_ADD new_fd (Some (KeyConn p))) rc])
       (set_heap (insert p (mk_conn_data new_fd None None))
          (set_brk p (set_tick (S (tick w)) w)))).
Proof.
  intros Hb Hrc p rc. subst p rc.
  assert (Hp : brk w + 1 <> NULL) by (unfold NULL; lia).
  assert (Hlt : (r_ret (oracle w (tick w)) <? 0) = false) by (apply Z.ltb_ge; lia).
  unfold create_conn_data. do 2 step. rewrite Hlt. run. same_world.
  - by rewrite !insert_insert_eq.
  - by rewrite Hlt.
Qed.

(** ** Every operation on a record keeps the invariant *)

Lemma bind_fault {A B} (m : M A) (k : A -> M B) (w : World) (f : fault) (w' : World) :
  m w = (Fault f, w') -> bind m k w = (Fault f, w').
Proof. intros H. unfold bind. by rewrite H. Qed.

Lemma deref_fails (p : Z) (w : World) :
  p = NULL \/ heap w !! p = None -> exists f, deref p w = (Fault f, w).
Proof.
  intros Hbad. unfold deref. destruct (Z.eqb_spec p NULL) as [|Hp]; [by eexists|].
  destruct Hbad as [|Hnone]; [done|]. rewrite Hnone. by eexists.
Qed.

Lemma allocated_or_not (p : Z) (w : World) :
  (exists c, p <> NULL /\ heap w !! p = Some c) \/ (p = NULL \/ heap w !! p = None).
Proof.
  destruct (decide (p = NULL)) as [|Hp]; [by right; left|].
  destruct (heap w !! p) as [c|] eqn:Hc; [left; eauto | by right; right].
Qed.

Ltac split_equalities :=
  repeat match goal with
         | a : nat, b : nat |- _ =>
             lazymatch goal with
             | _ : a <> b |- _ => fail
             | _ : b <> a |- _ => fail
             | _ => destruct (decide (a = b)) as [?|?]; [subst|]
             end
         end.

Ltac slots_solver :=
  rewrite ?elem_of_union, ?elem_of_difference, ?elem_of_singleton;
  split_equalities; naive_solver lia.

Ltac record_facts HI Hc :=
  let Hr := fresh "Hr" in let Hx := fresh "Hx" in
  let Hrx := fresh "Hrx" in let Hn := fresh "Hn" in
  destruct (Inv_record _ _ _ _ HI _ _ _ _ Hc) as (Hr & Hx & Hrx & Hn).

Lemma callback_keeps (d : dir) (conn : Z) (ctx : nat) (buf_len : Z) :
  preserves keeps_Inv (io_cb d conn ctx buf_len).
Proof.
  intros w HI.
  destruct (allocated_or_not conn w) as [(c & Hp & Hc) | Hbad].
  - destruct (Z.le_gt_cases 0 (r_ret (oracle w (tick w)))) as [Hr|Hr].
    + by rewrite (io_cb_bytes_run d conn ctx buf_len w c Hp Hc Hr).
    + destruct (decide (r_errno (oracle w (tick w)) = EAGAIN)) as [He|He].
      * assert (Hlive : forall old, slot d c = Some old -> old ∈ live w)
          by (intros old Hs; by eapply Inv_stored_live).
        assert (Hr' : r_ret (oracle w (tick w)) < 0) by lia.
        rewrite (io_cb_pending_run d conn ctx buf_len w c Hp Hc Hr' He Hlive).
        unfold Inv. goal_simpl. clear Hlive. clear ctx.
        destruct c as [f r x]. record_facts HI Hc.
        eapply (Inv_update _ _ _ _ HI conn _ _ _ _ Hc); [lia | ..];
          destruct d, r as [hr|], x as [hx|]; simpl; intros h;
          try specialize (Hr0 _ eq_refl); try specialize (Hx _ eq_refl);
          try specialize (Hrx _ eq_refl); slots_solver.
      * assert (Hr' : r_ret (oracle w (tick w)) < 0) by lia.
        by rewrite (io_cb_error_run d conn ctx buf_len w c Hp Hc Hr' He).
  - destruct (deref_fails conn w Hbad) as [f Hf].
    destruct d; goal_simpl; unfold read_cb, write_cb;
      by rewrite (bind_fault _ _ _ _ _ Hf).
Qed.

Lemma transport_keeps (events conn : Z) :
  preserves keeps_Inv (main_transport events conn).
Proof.
  intros w HI.
  destruct (allocated_or_not conn w) as [(c & Hp & Hc) | Hbad].
  - rewrite (main_transport_run events conn w c Hp Hc (Inv_wakers_ok w conn c HI Hc)).
    unfold Inv, fires. goal_simpl.
    destruct c as [f r x]. record_facts HI Hc.
    eapply (Inv_update _ _ _ _ HI conn _ _ _ _ Hc); [lia | ..];
      destruct (Z.land events EPOLLIN =? 0), (Z.land events EPOLLOUT =? 0),
        r as [hr|], x as [hx|]; simpl; intros h;
      try specialize (Hr _ eq_refl); try specialize (Hx _ eq_refl);
      try specialize (Hrx _ eq_refl); slots_solver.
  - destruct (deref_fails conn w Hbad) as [f Hf]. unfold main_transport.
    destruct (Z.land events EPOLLIN =? 0), (Z.land events EPOLLOUT =? 0); goal_simpl.
    + done.
    + rewrite (bind_val _ _ _ _ _ (ret_run tt w)). by rewrite (bind_fault _ _ _ _ _ Hf).
    + rewrite bind_assoc. by rewrite (bind_fault _ _ _ _ _ Hf).
    + rewrite bind_assoc. by rewrite (bind_fault _ _ _ _ _ Hf).
Qed.

Lemma destroy_keeps (epoll conn : Z) :
  preserves keeps_Inv (free_conn_data epoll conn).
Proof.
  intros w HI.
  destruct (allocated_or_not conn w) as [(c & Hp & Hc) | Hbad].
  - rewrite (free_conn_data_run epoll conn w c Hp Hc (Inv_wakers_ok w conn c HI Hc)).
    unfold Inv. goal_simpl.
    rewrite <- (delete_insert_eq (heap w) conn (mk_conn_data (fd c) None None)).
    eapply Inv_delete; [|apply lookup_insert_eq|done|done].
    destruct c as [f r x]. record_facts HI Hc.
    eapply (Inv_update _ _ _ _ HI conn _ _ _ _ Hc); [lia | ..];
      destruct r as [hr|], x as [hx|]; simpl; intros h;
      try specialize (Hr _ eq_refl); try specialize (Hx _ eq_refl);
      try specialize (Hrx _ eq_refl); slots_solver.
  - destruct (deref_fails conn w Hbad) as [f Hf]. unfold free_conn_data.
    by rewrite (bind_fault _ _ _ _ _ Hf).
Qed.

Lemma create_keeps (epoll new_fd : Z) :
  preserves keeps_Inv (create_conn_data epoll new_fd).
Proof.
  intros w HI. pose proof (inv_brk _ _ _ _ HI) as Hb.
  destruct (Z.le_gt_cases 0 (r_ret (oracle w (tick w)))) as [Hr|Hr].
  - rewrite (create_conn_data_run_ok epoll new_fd w Hb Hr).
    unfold Inv. goal_simpl. by apply Inv_alloc.
  - assert (Hr' : r_ret (oracle w (tick w)) < 0) by lia.
    rewrite (create_conn_data_run_fail epoll new_fd w Hb Hr').
    unfold Inv. goal_simpl.
    rewrite delete_insert_id by (eapply Inv_unallocated; [exact HI | lia]).
    eapply Inv_weaken; [exact HI | lia | lia].
Qed.

(** ** Composing preserved relations *)

Section Preserves.
Variable R : World -> World -> Prop.
Context `{!PreOrder R}.

Lemma preserves_ret {A} (a : A) : preserves R (ret a).
Proof. intros w. reflexivity. Qed.

Lemma preserves_bind {A B} (m : M A) (k : A -> M B) :
  preserves R m -> (forall a, preserves R (k a)) -> preserves R (bind m k).
Proof.
  intros Hm Hk w. unfold bind. specialize (Hm w).
  destruct (m w) as [[a| | | |] w1]; simpl in *; try done.
  etransitivity; [exact Hm | apply Hk].
Qed.

Lemma preserves_call (m : M Z) : preserves R m -> preserves R (call m).
Proof.
  intros Hm w. unfold call. specialize (Hm w).
  by destruct (m w) as [[a| | | |] w1].
Qed.

Lemma preserves_at_EXIT {A} (body : M unit) (handler : M A) :
  preserves R body -> preserves R handler -> preserves R (at_EXIT body handler).
Proof.
  intros Hb Hh w. unfold at_EXIT. specialize (Hb w).
  destruct (body w) as [[a| | | |] w1]; simpl in *; try done;
    (etransitivity; [exact Hb | apply Hh]).
Qed.

Lemma preserves_when (b : bool) (m : M unit) : preserves R m -> preserves R (when b m).
Proof. intros Hm. destruct b; [done | apply preserves_ret]. Qed.

Lemma preserves_return {A} (z : Z) : preserves R (@return_ A z).
Proof. intros w. reflexivity. Qed.

Lemma preserves_goto {A} : preserves R (@goto_EXIT A).
Proof. intros w. reflexivity. Qed.

Lemma preserves_out_of_fuel {A} : preserves R (@out_of_fuel A).
Proof. intros w. reflexivity. Qed.

Lemma preserves_get_errno : preserves R get_errno.
Proof. intros w. reflexivity. Qed.

Lemma preserves_io_userdata (io : nat) : preserves R (io_userdata io).
Proof. intros w. reflexivity. Qed.

Lemma preserves_task_userdata (task : nat) : preserves R (hyper_task_userdata task).
Proof. intros w. reflexivity. Qed.

(** A step that changes the world by a function that [R] admits. *)
Lemma preserves_update (f : World -> World) :
  (forall w, R w (f w)) -> preserves R (fun w => (Val tt, f w)).
Proof. intros Hf w. apply Hf. Qed.
End Preserves.

Global Instance keeps_Inv_preorder : PreOrder keeps_Inv.
Proof. split; unfold keeps_Inv; [intros w; tauto | intros w1 w2 w3; tauto]. Qed.

Global Instance extends_preorder (Q : Event -> Prop) : PreOrder (extends Q).
Proof.
  split.
  - intros w. exists []. by rewrite app_nil_r.
  - intros w1 w2 w3 (e1 & H1 & F1) (e2 & H2 & F2). exists (e1 ++ e2). split.
    + by rewrite H2, H1, app_assoc.
    + by apply Forall_app.
Qed.

Create HintDb preserves discriminated.

Ltac preserves_step :=
  lazymatch goal with
  | |- PreOrder _ => apply _
  | |- preserves _ (bind _ _) => apply preserves_bind; [| | intros ?]
  | |- preserves _ (ret _) => apply preserves_ret
  | |- preserves _ (return_ _) => apply preserves_return
  | |- preserves _ goto_EXIT => apply preserves_goto
  | |- preserves _ out_of_fuel => apply preserves_out_of_fuel
  | |- preserves _ (when _ _) => apply preserves_when
  | |- preserves _ (call _) => apply preserves_call
  | |- preserves _ (at_EXIT _ _) => apply preserves_at_EXIT
  | |- preserves _ get_errno => apply preserves_get_errno
  | |- preserves _ (io_userdata _) => apply preserves_io_userdata
  | |- preserves _ (hyper_task_userdata _) => apply preserves_task_userdata
  | |- preserves _ (if ?b then _ else _) => destruct b
  | |- preserves _ (match ?x with _ => _ end) => destruct x
  | |- preserves _ (printf _ _) => unfold printf
  | |- preserves _ (perror _) => unfold perror
  | |- preserves _ (fprintf_stderr _) => unfold fprintf_stderr
  | |- preserves _ (hy _) => unfold hy
  | |- preserves _ (syscall _) => unfold syscall
  | |- preserves _ (fun w => (Val tt, @?f w)) =>
      apply (preserves_update _ f); intros ?; solve [eauto with preserves]
  | _ => solve [eauto with preserves]
  end.

Ltac preserves_tac := repeat preserves_step.

#[export] Hint Extern 1 (keeps_Inv _ _) => (let H := fresh in intros H; exact H) : preserves.

(** *** The invariant through the rest of the program *)

Lemma emit_keeps (e : Event) : preserves keeps_Inv (emit e).
Proof. intros w HI. exact HI. Qed.

Lemma ask_keeps : preserves keeps_Inv ask.
Proof. intros w HI. exact HI. Qed.

Lemma syscall_r_keeps (c : Syscall) : preserves keeps_Inv (syscall_r c).
Proof. intros w HI. rewrite syscall_r_run. exact HI. Qed.

Lemma fresh_id_keeps : preserves keeps_Inv fresh_id.
Proof. intros w HI. unfold Inv. simpl. eapply Inv_weaken; [exact HI | lia | lia]. Qed.

Lemma set_ios_keeps (f : gmap nat Z -> gmap nat Z) :
  preserves keeps_Inv (fun w => (Val tt, set_ios f w)).
Proof. intros w HI. exact HI. Qed.

Lemma set_tasks_keeps (f : gmap nat Z -> gmap nat Z) :
  preserves keeps_Inv (fun w => (Val tt, set_tasks f w)).
Proof. intros w HI. exact HI. Qed.

Lemma read_cb_keeps (conn : Z) (ctx : nat) (buf_len : Z) :
  preserves keeps_Inv (read_cb conn ctx buf_len).
Proof. exact (callback_keeps Rd conn ctx buf_len). Qed.

Lemma write_cb_keeps (conn : Z) (ctx : nat) (buf_len : Z) :
  preserves keeps_Inv (write_cb conn ctx buf_len).
Proof. exact (callback_keeps Wr conn ctx buf_len). Qed.

#[export] Hint Resolve emit_keeps ask_keeps syscall_r_keeps fresh_id_keeps
  set_ios_keeps set_tasks_keeps read_cb_keeps write_cb_keeps
  transport_keeps destroy_keeps create_keeps : preserves.

Lemma epoll_wait_keeps (epoll maxevents : Z) : preserves keeps_Inv (epoll_wait epoll maxevents).
Proof.
  intros w HI. unfold epoll_wait, bind, ask, emit, ret. goal_simpl.
  by destruct (r_ret (oracle w (tick w)) <? 0).
Qed.

Lemma run_callbacks_keeps (cbs : list callback) : preserves keeps_Inv (run_callbacks cbs).
Proof.
  induction cbs as [|cb cbs IH]; simpl; [preserves_tac|].
  apply preserves_bind; [apply _ | | intros _; exact IH].
  unfold run_callback. preserves_tac.
Qed.

#[export] Hint Resolve epoll_wait_keeps run_callbacks_keeps : preserves.

Lemma listen_on_loop_keeps (addrs : list addrinfo) (sock : Z) :
  preserves keeps_Inv (listen_on_loop sock addrs).
Proof.
  revert sock. induction addrs as [|a addrs IH]; intros sock; simpl; preserves_tac.
Qed.

#[export] Hint Resolve listen_on_loop_keeps : preserves.

Lemma main_pump_keeps (fuel : nat) (epoll : Z) (exec : nat) :
  preserves keeps_Inv (main_pump fuel epoll exec).
Proof.
  induction fuel as [|n IH]; simpl; [preserves_tac|].
  unfold hyper_executor_poll, main_task_error, main_task_empty, hyper_error_free,
    hyper_task_free.
  preserves_tac.
Qed.

Lemma main_accept_loop_keeps (fuel : nat) (listen_fd epoll : Z) (opts exec : nat) :
  preserves keeps_Inv (main_accept_loop fuel listen_fd epoll opts exec).
Proof.
  induction fuel as [|n IH]; simpl; [preserves_tac|].
  unfold main_accepted, create_io, hyper_io_new, hyper_io_set_userdata, hyper_io_set_read,
    hyper_io_set_write, hyper_service_new, hyper_serve_connection,
    hyper_task_set_userdata, hyper_executor_push.
  preserves_tac.
Qed.

#[export] Hint Resolve main_pump_keeps main_accept_loop_keeps : preserves.

Lemma main_events_keeps (fuel : nat) (listen_fd signal_fd epoll : Z) (opts exec : nat)
    (evs : list epoll_event) :
  preserves keeps_Inv (main_events fuel listen_fd signal_fd epoll opts exec evs).
Proof.
  induction evs as [|ev evs IH]; simpl; [preserves_tac|].
  apply preserves_bind; [apply _ | | intros _; exact IH].
  unfold main_event, main_listen, main_signal. preserves_tac.
Qed.

#[export] Hint Resolve main_events_keeps : preserves.

Lemma main_loop_keeps (fuel : nat) (listen_fd signal_fd epoll : Z) (opts exec : nat) :
  preserves keeps_Inv (main_loop fuel listen_fd signal_fd epoll opts exec).
Proof.
  induction fuel as [|n IH]; [preserves_tac|].
  cbn [main_loop]. preserves_tac.
Qed.

#[export] Hint Resolve main_loop_keeps : preserves.

Lemma main_keeps (fuel : nat) (argv : list string) : preserves keeps_Inv (main fuel argv).
Proof.
  unfold main, main_serve, main_EXIT, listen_on, register_signal_handler,
    hyper_executor_new, hyper_serverconn_options_new, hyper_serverconn_options_free,
    hyper_executor_free.
  preserves_tac.
Qed.

Lemma perform_keeps (o : operation) : preserves keeps_Inv (perform o).
Proof.
  destruct o as [epoll new_fd | d conn ctx len | events conn | epoll conn]; simpl.
  - preserves_tac.
  - apply preserves_bind; [apply _ | apply callback_keeps | intros; preserves_tac].
  - apply transport_keeps.
  - apply destroy_keeps.
Qed.

Lemma perform_all_keeps (ops : list operation) (w : World) :
  Inv w -> Inv (perform_all ops w).
Proof.
  revert w. induction ops as [|o ops IH]; intros w HI; simpl; [done|].
  apply IH. by apply (perform_keeps o).
Qed.

(** ** What the parts of the program add to the trace *)

Lemma extends_mono (Q Q' : Event -> Prop) {A} (m : M A) :
  (forall e, Q e -> Q' e) -> preserves (extends Q) m -> preserves (extends Q') m.
Proof.
  intros HQ Hm w. destruct (Hm w) as (evs & Ht & HF).
  exists evs. split; [done|]. by eapply Forall_impl.
Qed.

Lemma extends_same (Q : Event -> Prop) (w w' : World) :
  trace w' = trace w -> extends Q w w'.
Proof. intros Ht. exists []. by rewrite app_nil_r. Qed.

Lemma extends_one (Q : Event -> Prop) (w w' : World) (e : Event) :
  trace w' = trace w ++ [e] -> Q e -> extends Q w w'.
Proof. intros Ht He. exists [e]. split; [done|]. by constructor. Qed.

Section Emits.
Variable Q : Event -> Prop.
Hypothesis Q_quiet : forall e, quiet e -> Q e.

Lemma emit_extends (e : Event) : quiet e -> preserves (extends Q) (emit e).
Proof. intros He w. eapply extends_one; [done | by apply Q_quiet]. Qed.

Lemma ask_extends : preserves (extends Q) ask.
Proof. intros w. by apply extends_same. Qed.

Lemma syscall_r_extends (c : Syscall) :
  (forall r, quiet (EvSys c r)) -> preserves (extends Q) (syscall_r c).
Proof.
  intros Hc w. rewrite syscall_r_run.
  eapply extends_one; [done | apply Q_quiet, Hc].
Qed.

Lemma fresh_id_extends : preserves (extends Q) fresh_id.
Proof. intros w. by apply extends_same. Qed.

Lemma update_extends (f : World -> World) :
  (forall w, trace (f w) = trace w) -> preserves (extends Q) (fun w => (Val tt, f w)).
Proof. intros Hf w. apply extends_same. simpl. apply Hf. Qed.

Lemma deref_extends (p : Z) : preserves (extends Q) (deref p).
Proof.
  intros w. apply extends_same. unfold deref.
  destruct (p =? NULL); [done|]. by destruct (heap w !! p).
Qed.

Lemma consume_extends (h : nat) : preserves (extends Q) (consume_waker h).
Proof.
  intros w. apply extends_same. unfold consume_waker. by destruct (decide (h ∈ live w)).
Qed.

Lemma malloc_extends : preserves (extends Q) malloc.
Proof. intros w. eapply extends_one; [done | apply Q_quiet; exact I]. Qed.

Hint Resolve emit_extends ask_extends syscall_r_extends fresh_id_extends
  deref_extends consume_extends malloc_extends : preserves.
Hint Extern 1 (quiet _) => exact I : preserves.
Hint Extern 1 (forall _, quiet _) => intros; exact I : preserves.
Hint Extern 1 (extends _ _ _) => (apply extends_same; reflexivity) : preserves.

Lemma store_extends (p : Z) (c : conn_data) : preserves (extends Q) (store p c).
Proof. unfold store. preserves_tac. Qed.

Lemma free_extends (p : Z) : preserves (extends Q) (free p).
Proof.
  unfold free. apply preserves_bind; [apply _ | apply deref_extends | intros _].
  intros w. eapply extends_one; [done | apply Q_quiet; exact I].
Qed.

Hint Resolve store_extends free_extends : preserves.

Lemma read_cb_extends (conn : Z) (ctx : nat) (len : Z) :
  preserves (extends Q) (read_cb conn ctx len).
Proof.
  unfold read_cb, set_read_waker, hyper_waker_free, hyper_context_waker. preserves_tac.
Qed.

Lemma write_cb_extends (conn : Z) (ctx : nat) (len : Z) :
  preserves (extends Q) (write_cb conn ctx len).
Proof.
  unfold write_cb, set_write_waker, hyper_waker_free, hyper_context_waker. preserves_tac.
Qed.

Lemma create_conn_data_extends (epoll new_fd : Z) :
  preserves (extends Q) (create_conn_data epoll new_fd).
Proof.
  unfold create_conn_data, set_fd, set_read_waker, set_write_waker. preserves_tac.
Qed.

Lemma free_conn_data_extends (epoll conn : Z) :
  preserves (extends Q) (free_conn_data epoll conn).
Proof.
  unfold free_conn_data, drop_saved_wakers, set_read_waker, set_write_waker,
    hyper_waker_free.
  preserves_tac.
Qed.

Lemma main_transport_extends (events conn : Z) :
  preserves (extends Q) (main_transport events conn).
Proof.
  unfold main_transport, set_read_waker, set_write_waker, hyper_waker_wake.
  preserves_tac.
Qed.

Hint Resolve read_cb_extends write_cb_extends create_conn_data_extends
  free_conn_data_extends main_transport_extends : preserves.

Lemma run_callbacks_extends (cbs : list callback) :
  preserves (extends Q) (run_callbacks cbs).
Proof.
  induction cbs as [|cb cbs IH]; simpl; [preserves_tac|].
  apply preserves_bind; [apply _ | | intros _; exact IH].
  unfold run_callback. preserves_tac.
Qed.

Hint Resolve run_callbacks_extends : preserves.

Lemma hyper_executor_poll_extends (exec : nat) :
  preserves (extends Q) (hyper_executor_poll exec).
Proof. unfold hyper_executor_poll. preserves_tac. Qed.

Lemma main_task_error_extends (epoll : Z) (t : completed) :
  preserves (extends Q) (main_task_error epoll t).
Proof.
  unfold main_task_error, hyper_error_free, hyper_task_free. preserves_tac.
Qed.

Lemma main_task_empty_extends (epoll : Z) (t : completed) :
  preserves (extends Q) (main_task_empty epoll t).
Proof. unfold main_task_empty, hyper_task_free. preserves_tac. Qed.

Hint Resolve hyper_executor_poll_extends main_task_error_extends
  main_task_empty_extends : preserves.

Lemma main_pump_extends (fuel : nat) (epoll : Z) (exec : nat) :
  preserves (extends Q) (main_pump fuel epoll exec).
Proof. induction fuel as [|n IH]; simpl; preserves_tac. Qed.

Lemma main_accepted_extends (epoll : Z) (opts exec : nat) (new_fd : Z) :
  preserves (extends Q) (main_accepted epoll opts exec new_fd).
Proof.
  unfold main_accepted, create_io, hyper_io_new, hyper_io_set_userdata, hyper_io_set_read,
    hyper_io_set_write, hyper_service_new, hyper_serve_connection,
    hyper_task_set_userdata, hyper_executor_push.
  preserves_tac.
Qed.

Lemma main_signal_extends (signal_fd : Z) : preserves (extends Q) (main_signal signal_fd).
Proof. unfold main_signal. preserves_tac. Qed.

Lemma listen_on_loop_extends (sock : Z) (addrs : list addrinfo) :
  preserves (extends Q) (listen_on_loop sock addrs).
Proof. revert sock. induction addrs as [|a addrs IH]; intros sock; simpl; preserves_tac. Qed.

Hint Resolve listen_on_loop_extends : preserves.

Lemma listen_on_extends (host port : string) : preserves (extends Q) (listen_on host port).
Proof. unfold listen_on. preserves_tac. Qed.

Lemma register_signal_handler_extends : preserves (extends Q) register_signal_handler.
Proof. unfold register_signal_handler. preserves_tac. Qed.

Lemma main_EXIT_extends (opts exec : nat) : preserves (extends Q) (main_EXIT opts exec).
Proof.
  unfold main_EXIT, hyper_serverconn_options_free, hyper_executor_free. preserves_tac.
Qed.
End Emits.

(** ** The executor is pumped dry before every wait *)

Lemma quiet_not_wait (e : Event) : quiet e -> not_wait e.
Proof. destruct e as [| | |c r| | |]; try done. by destruct c. Qed.

Lemma not_wait_is_wait (e : Event) : not_wait e -> is_wait e -> False.
Proof. destruct e as [| | |c r| | |]; try done. by destruct c. Qed.

Lemma bind_inv_val {A B} (m : M A) (k : A -> M B) (w : World) (b : B) (w' : World) :
  bind m k w = (Val b, w') -> exists a w1, m w = (Val a, w1) /\ k a w1 = (Val b, w').
Proof.
  unfold bind. destruct (m w) as [[a| | | |] w1]; intros H; try discriminate H. eauto.
Qed.

Lemma waits_when_idle_nil : waits_when_idle [].
Proof. intros pre e post H. by destruct pre. Qed.

Lemma waits_when_idle_app (t evs : list Event) :
  waits_when_idle t -> Forall not_wait evs -> waits_when_idle (t ++ evs).
Proof.
  intros Ht Hevs pre e post Heq Hw.
  apply app_eq_app in Heq as [l [[-> Hpost] | [-> Hevs']]].
  - destruct l as [|e' l].
    + rewrite app_nil_l in Hpost. subst evs.
      apply Forall_cons in Hevs as [He _]. destruct (not_wait_is_wait e He Hw).
    + injection Hpost as -> ->. by apply (Ht pre e' l).
  - subst evs. apply Forall_app in Hevs as [_ Hevs].
    apply Forall_cons in Hevs as [He _]. destruct (not_wait_is_wait e He Hw).
Qed.

Lemma waits_when_idle_wait (t : list Event) (exec : nat) (e : Event) :
  waits_when_idle t ->
  waits_when_idle
    ((t ++ [EvHyper (HyExecutorPoll exec None);
            EvPrintf "Processed all tasks - polling for events" []]) ++ [e]).
Proof.
  intros Ht pre e' post Heq Hw.
  assert (Hidle : waits_when_idle
            (t ++ [EvHyper (HyExecutorPoll exec None);
                   EvPrintf "Processed all tasks - polling for events" []])).
  { apply waits_when_idle_app; [done|]. by repeat constructor. }
  apply app_eq_app in Heq as [l [[Hpre Hpost] | [Hpre Hl]]].
  - destruct l as [|e'' l].
    + exists t, exec. by rewrite app_nil_r in Hpre.
    + injection Hpost as -> _. by apply (Hidle pre e'' l).
  - destruct l as [|e'' l].
    + exists t, exec. by rewrite app_nil_r in Hpre.
    + injection Hl as _ Hl. by destruct l.
Qed.

Lemma hyper_executor_poll_val (exec : nat) (w : World) (t : option completed) (w1 : World) :
  hyper_executor_poll exec w = (Val t, w1) ->
  t = r_task (oracle w (tick w)) /\
  exists evs,
    trace w1 = trace w ++ evs ++ [EvHyper (HyExecutorPoll exec (c_task <$> t))] /\
    Forall quiet evs.
Proof.
  unfold hyper_executor_poll. intros H.
  apply bind_inv_val in H as (r & w0 & Hask & H). injection Hask as <- <-.
  apply bind_inv_val in H as ([] & w2 & Hcbs & H).
  apply bind_inv_val in H as ([] & w3 & Hhy & H).
  injection Hhy as <-. injection H as <- <-. split; [done|].
  destruct (run_callbacks_extends quiet (fun e He => He)
              (r_cbs (oracle w (tick w))) (set_tick (S (tick w)) w)) as (evs & Ht & HF).
  rewrite Hcbs in Ht. simpl in Ht. exists evs. split; [|done].
  simpl. by rewrite Ht, <- app_assoc.
Qed.

Lemma main_pump_idle (fuel : nat) (epoll : Z) (exec : nat) (w w' : World) :
  main_pump fuel epoll exec w = (Val tt, w') ->
  exists evs,
    trace w' = trace w ++ evs ++ [EvHyper (HyExecutorPoll exec None)] /\ Forall quiet evs.
Proof.
  revert w. induction fuel as [|n IH]; intros w H; [discriminate H|].
  simpl in H. apply bind_inv_val in H as (t & w1 & Hpoll & H).
  apply hyper_executor_poll_val in Hpoll as (_ & evs & Ht1 & HF1).
  destruct t as [t|].
  - apply bind_inv_val in H as ([] & w2 & Hbody & H).
    apply IH in H as (evs3 & Ht3 & HF3).
    assert (Hb : extends quiet w1 w2).
    { destruct (c_type t).
      - pose proof (main_task_empty_extends quiet (fun e He => He) epoll t w1) as He.
        by rewrite Hbody in He.
      - pose proof (main_task_error_extends quiet (fun e He => He) epoll t w1) as He.
        by rewrite Hbody in He.
      - injection Hbody as <-. by apply extends_same. }
    destruct Hb as (evs2 & Ht2 & HF2).
    exists (evs ++ [EvHyper (HyExecutorPoll exec (c_task <$> Some t))] ++ evs2 ++ evs3).
    split.
    + rewrite Ht3, Ht2, Ht1. by rewrite <- !app_assoc.
    + repeat (apply Forall_app; split); try done. by repeat constructor.
  - injection H as <-. eauto.
Qed.

Lemma epoll_wait_val (epoll maxevents : Z) (w : World) :
  exists r e,
    epoll_wait epoll maxevents w = (Val r, (epoll_wait epoll maxevents w).2) /\
    trace (epoll_wait epoll maxevents w).2 = trace w ++ [e] /\ is_wait e.
Proof.
  unfold epoll_wait, bind, ask, emit, ret. goal_simpl.
  destruct (r_ret (oracle w (tick w)) <? 0); simpl; by eexists _, _.
Qed.

Lemma main_accept_loop_extends (fuel : nat) (listen_fd epoll : Z) (opts exec : nat) :
  preserves (extends not_wait) (main_accept_loop fuel listen_fd epoll opts exec).
Proof.
  induction fuel as [|n IH]; simpl; [preserves_tac|].
  apply preserves_bind; [apply _ | | intros new_fd].
  - intros w. rewrite syscall_run. by eapply extends_one.
  - destruct (0 <=? new_fd); [|preserves_tac].
    apply preserves_bind; [apply _ | | intros _; exact IH].
    apply main_accepted_extends, quiet_not_wait.
Qed.

Lemma main_events_extends (fuel : nat) (listen_fd signal_fd epoll : Z) (opts exec : nat)
    (evs : list epoll_event) :
  preserves (extends not_wait) (main_events fuel listen_fd signal_fd epoll opts exec evs).
Proof.
  induction evs as [|ev evs IH]; simpl; [preserves_tac|].
  apply preserves_bind; [apply _ | | intros _; exact IH].
  unfold main_event. destruct (ev_data ev).
  - unfold main_listen. apply preserves_bind; [apply _ | | intros _].
    + apply main_accept_loop_extends.
    + apply preserves_bind; [apply _ | apply preserves_get_errno, _ | intros e].
      apply preserves_when; [apply _|]. apply emit_extends; [apply quiet_not_wait | exact I].
  - apply main_signal_extends, quiet_not_wait.
  - apply main_transport_extends, quiet_not_wait.
Qed.

Lemma main_loop_idle (fuel : nat) (listen_fd signal_fd epoll : Z) (opts exec : nat) :
  preserves keeps_idle (main_loop fuel listen_fd signal_fd epoll opts exec).
Proof.
  induction fuel as [|n IH]; intros w Hw; [done|].
  cbn [main_loop]. unfold bind at 1.
  destruct (main_pump (S n) epoll exec w) as [[[]| | | |] w1] eqn:Hpump;
    try (pose proof (main_pump_extends quiet (fun e He => He) (S n) epoll exec w)
           as (evs & Ht & HF);
         rewrite Hpump in Ht; simpl in *; rewrite Ht;
         apply waits_when_idle_app; [done|];
         eapply Forall_impl; [exact HF | apply quiet_not_wait]).
  apply main_pump_idle in Hpump as (evs & Ht1 & HF1).
  unfold printf at 1. rewrite (bind_val _ _ _ _ _ (emit_run _ w1)).
  set (w2 := set_trace _ w1).
  destruct (epoll_wait_val epoll MAX_EVENTS w2) as (r & e & Hrun & Ht3 & He).
  rewrite (bind_val _ _ _ _ _ Hrun).
  set (w3 := (epoll_wait epoll MAX_EVENTS w2).2) in *.
  assert (Hw3 : waits_when_idle (trace w3)).
  { rewrite Ht3. subst w2. simpl. rewrite Ht1.
    rewrite (app_assoc (trace w)), <- (app_assoc (trace w ++ evs)). simpl.
    apply waits_when_idle_wait. apply waits_when_idle_app; [done|].
    eapply Forall_impl; [exact HF1 | apply quiet_not_wait]. }
  clearbody w3. clear Hrun Ht3 He w2 Ht1 HF1 evs Hw.
  destruct (fst r <? 0).
  - assert (Hq : preserves (extends not_wait)
                   (perror "epoll" ;; @return_ unit 1)).
    { unfold perror. apply preserves_bind; [apply _ | | intros _; apply preserves_return, _].
      apply emit_extends; [apply quiet_not_wait | exact I]. }
    destruct (Hq w3) as (evs & Ht & HF). rewrite Ht. by apply waits_when_idle_app.
  - unfold printf at 1. rewrite (bind_val _ _ _ _ _ (emit_run _ w3)).
    set (w4 := set_trace _ w3).
    assert (Hw4 : waits_when_idle (trace w4)).
    { subst w4. simpl. apply waits_when_idle_app; [done|]. by repeat constructor. }
    clearbody w4. unfold bind at 1.
    pose proof (main_events_extends (S n) listen_fd signal_fd epoll opts exec (snd r) w4)
      as (evs & Ht & HF).
    destruct (main_events (S n) listen_fd signal_fd epoll opts exec (snd r) w4)
      as [[[]| | | |] w5]; simpl in *;
      try (rewrite Ht; by apply waits_when_idle_app).
    apply IH. rewrite Ht. by apply waits_when_idle_app.
Qed.

Global Instance keeps_idle_preorder : PreOrder keeps_idle.
Proof.
  split; [intros w H; exact H | intros w1 w2 w3 H12 H23 H; exact (H23 (H12 H))].
Qed.

Lemma idle_of_extends {A} (m : M A) :
  preserves (extends not_wait) m -> preserves keeps_idle m.
Proof.
  intros Hm w Hw. destruct (Hm w) as (evs & Ht & HF).
  rewrite Ht. by apply waits_when_idle_app.
Qed.

Lemma emit_idle (e : Event) : quiet e -> preserves keeps_idle (emit e).
Proof. intros He. by apply idle_of_extends, emit_extends; [apply quiet_not_wait|]. Qed.

Lemma syscall_r_idle (c : Syscall) :
  (forall r, quiet (EvSys c r)) -> preserves keeps_idle (syscall_r c).
Proof. intros Hc. by apply idle_of_extends, syscall_r_extends; [apply quiet_not_wait|]. Qed.

Lemma fresh_id_idle : preserves keeps_idle fresh_id.
Proof. apply idle_of_extends, fresh_id_extends. Qed.

Lemma listen_on_idle (host port : string) : preserves keeps_idle (listen_on host port).
Proof. apply idle_of_extends, listen_on_extends, quiet_not_wait. Qed.

Lemma register_signal_handler_idle : preserves keeps_idle register_signal_handler.
Proof. apply idle_of_extends, register_signal_handler_extends, quiet_not_wait. Qed.

Lemma main_EXIT_idle (opts exec : nat) : preserves keeps_idle (main_EXIT opts exec).
Proof. apply idle_of_extends, main_EXIT_extends, quiet_not_wait. Qed.

#[export] Hint Resolve emit_idle syscall_r_idle fresh_id_idle listen_on_idle
  register_signal_handler_idle main_EXIT_idle main_loop_idle : preserves.
#[export] Hint Extern 1 (quiet _) => exact I : preserves.
#[export] Hint Extern 1 (forall _, quiet _) => intros; exact I : preserves.

Lemma main_idle (fuel : nat) (argv : list string) : preserves keeps_idle (main fuel argv).
Proof.
  unfold main, main_serve, hyper_executor_new, hyper_serverconn_options_new.
  preserves_tac.
Qed.

(** C3.  In every run of [main], whatever the environment answers and
    however long the run, each [epoll_wait] in the trace comes directly
    after a poll of the executor that returned no task (and the line
    printed after the pump): the loop never blocks while the executor still
    hands out completed tasks.  The pump itself, whenever it returns,
    has just seen such a poll. *)
Theorem wait_only_after_empty_poll (o : nat -> Response) (fuel : nat) (argv : list string) :
  waits_when_idle (trace (main fuel argv (init_world o)).2) /\
  forall (epoll : Z) (exec : nat) (w : World),
    match main_pump fuel epoll exec w with
    | (Val _, w') =>
        exists evs, trace w' = trace w ++ evs ++ [EvHyper (HyExecutorPoll exec None)] /\
                    Forall quiet evs
    | _ => True
    end.
Proof.
  split.
  - apply main_idle. apply waits_when_idle_nil.
  - intros epoll exec w.
    destruct (main_pump fuel epoll exec w) as [[[]| | | |] w'] eqn:Hpump; try done.
    by apply main_pump_idle in Hpump.
Qed.

(** ** At most one waker per slot *)

(** C6.  At every point that a run of [main] reaches, and after any further
    sequence of operations on connection records (creation, callbacks with
    any outcome, readiness events, destruction): the outstanding wakers are
    exactly the wakers stored in slots of records, a waker is stored in one
    slot only, and a slot stores one waker at most.  So every record has at
    most one outstanding read waker and at most one outstanding write
    waker. *)
Theorem one_waker_per_slot (o : nat -> Response) (fuel : nat) (argv : list string)
    (ops : list operation) :
  let w := perform_all ops (main fuel argv (init_world o)).2 in
  Inv w /\
  (forall h, h ∈ live w <-> exists p d, holds (heap w) p d h) /\
  (forall p d p' d' h,
     holds (heap w) p d h -> holds (heap w) p' d' h -> p = p' /\ d = d') /\
  (forall p d h h', holds (heap w) p d h -> holds (heap w) p d h' -> h = h').
Proof.
  intros w.
  assert (HI : Inv w).
  { apply perform_all_keeps, main_keeps, Inv_init. }
  split; [exact HI|]. split; [apply HI|]. split; [apply HI|].
  intros p d h h' (c & Hc & Hs) (c' & Hc' & Hs'). congruence.
Qed.

(** ** Runs of pending returns *)

Lemma count_frees_app (t1 t2 : list Event) :
  count_frees (t1 ++ t2) = (count_frees t1 + count_frees t2)%nat.
Proof. unfold count_frees. by rewrite filter_app, length_app. Qed.

Lemma count_frees_free_of (o : option nat) :
  count_frees (free_of o) = match o with Some _ => 1%nat | None => 0%nat end.
Proof. by destruct o. Qed.

Lemma slot_with_slot (d : dir) (o : option nat) (c : conn_data) :
  slot d (with_slot d o c) = o.
Proof. by destruct d. Qed.

Lemma with_slot_with_slot (d : dir) (o o' : option nat) (c : conn_data) :
  with_slot d o (with_slot d o' c) = with_slot d o c.
Proof. by destruct d. Qed.

Lemma fd_with_slot (d : dir) (o : option nat) (c : conn_data) :
  fd (with_slot d o c) = fd c.
Proof. by destruct d. Qed.

Lemma pending_run_next (n : nat) (w w' : World) :
  oracle w' = oracle w -> tick w' = S (tick w) ->
  pending_run (S n) w -> pending_run n w'.
Proof.
  intros Ho Ht [Hpend Hlast]. split.
  - intros i Hi. rewrite Ho, Ht.
    replace (S (tick w) + i)%nat with (tick w + S i)%nat by lia.
    apply Hpend. lia.
  - rewrite Ho, Ht. by replace (S (tick w) + n)%nat with (tick w + S n)%nat by lia.
Qed.

(** What a run of [n] pending returns and the completion after it do. *)
Lemma pending_run_invoke (d : dir) (conn : Z) (ctx : nat) (buf_len : Z) (n : nat) :
  forall (w : World) (c : conn_data),
    Inv w -> heap w !! conn = Some c -> pending_run n w ->
    exists w' evs,
      invoke (S n) (io_cb d conn ctx buf_len) w =
        (Val (replicate n HYPER_IO_PENDING ++ [r_ret (oracle w (tick w + n)%nat)]), w') /\
      trace w' = trace w ++ evs /\
      count_frees evs = match slot d c with Some _ => n | None => Nat.pred n end /\
      Inv w' /\
      heap w' !! conn =
        Some (match n with
              | O => c
              | S k => with_slot d (Some (next_id w + k)%nat) c
              end).
Proof.
  induction n as [|n IH]; intros w c HI Hc Hrun.
  - destruct Hrun as [_ Hlast]. rewrite Nat.add_0_r in Hlast.
    assert (Hp : conn <> NULL) by (by eapply Inv_not_null).
    pose proof (io_cb_bytes_run d conn ctx buf_len w c Hp Hc (proj1 Hlast)) as Hcb.
    rewrite (to_size_t_id _ Hlast) in Hcb.
    eexists _, _. split; [|split; [|split; [|split]]].
    + cbn [invoke]. rewrite (bind_val _ _ _ _ _ Hcb). rewrite Nat.add_0_r. reflexivity.
    + reflexivity.
    + by destruct (slot d c).
    + pose proof (callback_keeps d conn ctx buf_len w HI) as HI'. by rewrite Hcb in HI'.
    + exact Hc.
  - assert (Hp : conn <> NULL) by (by eapply Inv_not_null).
    destruct Hrun as [Hpend Hlast].
    destruct (Hpend 0%nat) as [Hr He]; [lia|]. rewrite Nat.add_0_r in Hr, He.
    assert (Hlive : forall old, slot d c = Some old -> old ∈ live w)
      by (intros old Hs; by eapply Inv_stored_live).
    pose proof (io_cb_pending_run d conn ctx buf_len w c Hp Hc Hr He Hlive) as Hcb.
    cbv zeta in Hcb.
    match type of Hcb with _ = (_, ?x) => set (w1 := x) in * end.
    pose proof (callback_keeps d conn ctx buf_len w HI) as HI1. rewrite Hcb in HI1.
    change (Inv w1) in HI1.
    assert (Hc1 : heap w1 !! conn = Some (with_slot d (Some (next_id w)) c))
      by (subst w1; simpl; by rewrite lookup_insert_eq).
    assert (Hrun1 : pending_run n w1)
      by (by apply (pending_run_next n w w1); [| |split]).
    destruct (IH w1 _ HI1 Hc1 Hrun1) as (w' & evs & Hinv & Ht & Hcount & HI' & Hc').
    eexists w', _. split; [|split; [|split; [|split]]].
    + change (invoke (S (S n)) ?cb) with
        (z <- cb ;; zs <- invoke (S n) cb ;; ret (z :: zs)).
      rewrite (bind_val _ _ _ _ _ Hcb). rewrite (bind_val _ _ _ _ _ Hinv).
      unfold ret. subst w1. simpl. by rewrite Nat.add_succ_r.
    + rewrite Ht. subst w1. simpl. rewrite <- !app_assoc. reflexivity.
    + rewrite !count_frees_app, count_frees_free_of, Hcount, slot_with_slot.
      simpl. destruct (slot d c); simpl; lia.
    + exact HI'.
    + rewrite Hc'. f_equal. destruct n as [|k].
      * by rewrite Nat.add_0_r.
      * rewrite with_slot_with_slot. subst w1. simpl. do 3 f_equal. lia.
Qed.

Lemma land_EPOLL_other (d d' : dir) :
  d <> d' -> Z.land (EPOLL_of d) (EPOLL_of d') = 0.
Proof. by destruct d, d'. Qed.

Lemma readiness_wakes_newest (d : dir) (conn : Z) (w : World) (h : nat) :
  Inv w -> holds (heap w) conn d h ->
  emitted (main_transport (EPOLL_of d) conn) w = [EvHyper (HyWakerWake h)].
Proof.
  intros HI (c & Hc & Hs).
  assert (Hp : conn <> NULL) by (by eapply Inv_not_null).
  eapply emitted_run.
  - apply (main_transport_run _ conn w c Hp Hc (Inv_wakers_ok w conn c HI Hc)).
  - simpl. f_equal. unfold fires. destruct d; simpl in *; by rewrite Hs.
Qed.

Lemma count_frees_wake_of (o : option nat) : count_frees (wake_of o) = 0%nat.
Proof. by destruct o. Qed.

Lemma would_block_next (n : nat) (w w' : World) :
  oracle w' = oracle w -> tick w' = S (tick w) ->
  would_block (S n) w -> would_block n w'.
Proof.
  intros Ho Ht Hb i Hi. rewrite Ho, Ht.
  replace (S (tick w) + i)%nat with (tick w + S i)%nat by lia.
  apply Hb. lia.
Qed.

(** Pending returns with readiness events between them. *)
Lemma interleaved_run (d : dir) (conn : Z) (ctx : nat) (buf_len : Z)
    (gaps : list (option Z)) :
  forall (w : World) (c : conn_data),
    Inv w -> heap w !! conn = Some c -> would_block (length gaps) w ->
    exists w' evs,
      interleaved d conn ctx buf_len gaps w =
        (Val (replicate (length gaps) HYPER_IO_PENDING), w') /\
      trace w' = trace w ++ evs /\
      count_frees evs =
        populated_pendings d (bool_decide (is_Some (slot d c))) gaps.
Proof.
  induction gaps as [|g gaps IH]; intros w c HI Hc Hblock.
  - exists w, []. by rewrite app_nil_r.
  - assert (Hp : conn <> NULL) by (by eapply Inv_not_null).
    set (cleared := match g with
                    | Some events => negb (Z.land events (EPOLL_of d) =? 0)
                    | None => false
                    end).
    assert (Hgap : exists w1 c1 evs1,
              match g with Some events => main_transport events conn | None => ret tt end w
              = (Val tt, w1) /\
              Inv w1 /\ heap w1 !! conn = Some c1 /\
              oracle w1 = oracle w /\ tick w1 = tick w /\ next_id w1 = next_id w /\
              trace w1 = trace w ++ evs1 /\ count_frees evs1 = 0%nat /\
              bool_decide (is_Some (slot d c1)) =
                bool_decide (is_Some (slot d c)) && negb cleared).
    { subst cleared. destruct g as [events|].
      - pose proof (main_transport_run events conn w c Hp Hc (Inv_wakers_ok w conn c HI Hc))
          as Hrun. cbv zeta in Hrun.
        pose proof (transport_keeps events conn w HI) as HI1. rewrite Hrun in HI1.
        eexists _, _, _. split; [exact Hrun|]. split; [exact HI1|].
        split; [apply lookup_insert_eq|]. do 4 (split; [reflexivity|]).
        split; [by rewrite count_frees_app, !count_frees_wake_of|].
        unfold fires. destruct c as [f r x].
        destruct d; simpl;
          destruct (Z.land events EPOLLIN =? 0), (Z.land events EPOLLOUT =? 0),
            r as [hr|], x as [hx|]; reflexivity.
      - exists w, c, []. split; [reflexivity|]. split; [exact HI|]. split; [exact Hc|].
        do 3 (split; [reflexivity|]). split; [by rewrite app_nil_r|]. split; [done|].
        by rewrite andb_true_r. }
    destruct Hgap as (w1 & c1 & evs1 & Hrun1 & HI1 & Hc1 & Ho1 & Ht1 & Hn1 & Htr1 & Hcnt1 & Hpop).
    destruct (Hblock 0%nat) as [Hr He]; [simpl; lia|].
    rewrite Nat.add_0_r, <- Ho1, <- Ht1 in Hr, He.
    assert (Hlive : forall old, slot d c1 = Some old -> old ∈ live w1)
      by (intros old Hs; by eapply Inv_stored_live).
    pose proof (io_cb_pending_run d conn ctx buf_len w1 c1 Hp Hc1 Hr He Hlive) as Hcb.
    cbv zeta in Hcb.
    match type of Hcb with _ = (_, ?x) => set (w2 := x) in * end.
    pose proof (callback_keeps d conn ctx buf_len w1 HI1) as HI2. rewrite Hcb in HI2.
    change (Inv w2) in HI2.
    assert (Hc2 : heap w2 !! conn = Some (with_slot d (Some (next_id w1)) c1))
      by (subst w2; simpl; by rewrite lookup_insert_eq).
    assert (Hblock2 : would_block (length gaps) w2).
    { apply (would_block_next _ w w2); [by rewrite <- Ho1 | by rewrite <- Ht1 | exact Hblock]. }
    destruct (IH w2 _ HI2 Hc2 Hblock2) as (w' & evs & Hrest & Ht & Hcount).
    exists w', (evs1 ++ (EvSys (io_syscall d (fd c1) buf_len) (r_ret (oracle w1 (tick w1))) ::
                         free_of (slot d c1) ++ [EvHyper (HyContextWaker (next_id w1))])
                     ++ evs).
    split; [|split].
    + cbn [interleaved]. rewrite (bind_val _ _ _ _ _ Hrun1), (bind_val _ _ _ _ _ Hcb).
      by rewrite (bind_val _ _ _ _ _ Hrest).
    + rewrite Ht. subst w2. simpl. rewrite Htr1. by rewrite <- !app_assoc.
    + rewrite !count_frees_app, Hcnt1, Hcount, slot_with_slot.
      change (count_frees (?e :: ?l)) with (count_frees ([e] ++ l)).
      rewrite !count_frees_app, count_frees_free_of. cbn [populated_pendings]. fold cleared.
      rewrite <- Hpop. simpl. by destruct (slot d c1).
Qed.

(** C5, amended.  A pending return on a populated slot frees the waker the
    slot held before it takes and stores the new one.  In [n] invocations
    of one callback on one record, one after the other with nothing
    between them, that all return pending, followed by a completion, the
    number of wakers freed is [n] when the slot was populated at the start
    and [n - 1] when it was empty; after them the slot holds the waker
    taken last, and a readiness event for that direction wakes that waker
    and no other.  With readiness events between the invocations, a pending
    return frees a waker exactly when the slot is populated at that moment:
    a readiness event for the direction empties the slot, a pending return
    populates it, and a completion leaves it as it is. *)
Theorem pending_run_frees (d : dir) (conn : Z) (ctx : nat) (buf_len : Z) (n : nat)
    (w : World) (c : conn_data) :
  Inv w -> heap w !! conn = Some c -> pending_run n w ->
  let run := invoke (S n) (io_cb d conn ctx buf_len) in
  (run w).1 = Val (replicate n HYPER_IO_PENDING ++ [r_ret (oracle w (tick w + n)%nat)]) /\
  count_frees (emitted run w) = match slot d c with Some _ => n | None => Nat.pred n end /\
  (forall old, slot d c = Some old -> (0 < n)%nat ->
     emitted (io_cb d conn ctx buf_len) w =
       [EvSys (io_syscall d (fd c) buf_len) (r_ret (oracle w (tick w)));
        EvHyper (HyWakerFree old); EvHyper (HyContextWaker (next_id w))]) /\
  (forall k, n = S k ->
     holds (heap (run w).2) conn d (next_id w + k)%nat /\
     emitted (main_transport (EPOLL_of d) conn) (run w).2 =
       [EvHyper (HyWakerWake (next_id w + k)%nat)]) /\
  (forall gaps, length gaps = n ->
     (interleaved d conn ctx buf_len gaps w).1 = Val (replicate n HYPER_IO_PENDING) /\
     count_frees (emitted (interleaved d conn ctx buf_len gaps) w) =
       populated_pendings d (bool_decide (is_Some (slot d c))) gaps).
Proof.
  intros HI Hc Hrun run.
  destruct (pending_run_invoke d conn ctx buf_len n w c HI Hc Hrun)
    as (w' & evs & Hinv & Ht & Hcount & HI' & Hc').
  fold run in Hinv. split; [by rewrite Hinv|]. split; [|split; [|split]].
  - by rewrite (emitted_run run w w' _ evs Hinv Ht).
  - intros old Hs Hn.
    assert (Hp : conn <> NULL) by (by eapply Inv_not_null).
    destruct Hrun as [Hpend _]. destruct (Hpend 0%nat Hn) as [Hr He].
    rewrite Nat.add_0_r in Hr, He.
    assert (Hlive : forall old, slot d c = Some old -> old ∈ live w)
      by (intros o Ho; by eapply Inv_stored_live).
    pose proof (io_cb_pending_run d conn ctx buf_len w c Hp Hc Hr He Hlive) as Hcb.
    cbv zeta in Hcb. eapply emitted_run; [exact Hcb|].
    simpl. rewrite Hs. by rewrite <- app_assoc.
  - intros k ->. rewrite Hinv. simpl.
    assert (Hh : holds (heap w') conn d (next_id w + k)%nat).
    { eexists. split; [exact Hc'|]. apply slot_with_slot. }
    split; [exact Hh|]. by apply readiness_wakes_newest.
  - intros gaps Hlen.
    assert (Hblock : would_block (length gaps) w) by (rewrite Hlen; exact (proj1 Hrun)).
    destruct (interleaved_run d conn ctx buf_len gaps w c HI Hc Hblock)
      as (wi & evsi & Hi & Hti & Hcounti).
    rewrite Hlen in Hi. split; [by rewrite Hi|].
    by rewrite (emitted_run _ w wi _ evsi Hi Hti).
Qed.

Lemma pending_run_frees_witness :
  let w := perform_all [OpCreate 4 5]
             (init_world (script [answer 0; failure EAGAIN; failure EAGAIN;
                                  failure EAGAIN; answer 3])) in
  (invoke 4 (read_cb 1 7 100) w).1 =
    Val [HYPER_IO_PENDING; HYPER_IO_PENDING; HYPER_IO_PENDING; 3] /\
  count_frees (emitted (invoke 4 (read_cb 1 7 100)) w) = 2%nat /\
  emitted (main_transport EPOLLIN 1) (invoke 4 (read_cb 1 7 100) w).2 =
    [EvHyper (HyWakerWake 2)] /\
  count_frees (emitted (interleaved Rd 1 7 100 [None; Some EPOLLIN; None]) w) = 1%nat /\
  count_frees (emitted (interleaved Rd 1 7 100 [None; Some EPOLLIN; Some EPOLLIN]) w) = 0%nat.
Proof.
  intros w.
  assert (HI : Inv w) by apply perform_all_keeps, Inv_init.
  assert (Hc : heap w !! 1 = Some (mk_conn_data 5 None None)) by reflexivity.
  assert (Hrun : pending_run 3 w).
  { split.
    - intros i Hi. destruct i as [|[|[|i]]]; [by vm_compute.. | lia].
    - by vm_compute. }
  destruct (pending_run_frees Rd 1 7 100 3 w _ HI Hc Hrun)
    as (Hv & Hcount & _ & Hnew & Hgaps).
  split; [exact Hv|]. split; [exact Hcount|].
  split; [exact (proj2 (Hnew 2%nat eq_refl))|]. split.
  - exact (proj2 (Hgaps [None; Some EPOLLIN; None] eq_refl)).
  - exact (proj2 (Hgaps [None; Some EPOLLIN; Some EPOLLIN] eq_refl)).
Defined.

(** C5 as worded does not hold of a run that starts with a populated slot:
    a completion does not clear the slot, so the first pending return of
    the next run frees the waker left by the run before. *)
Lemma pending_count_stale_slot :
  Inv after_first_run /\
  heap after_first_run !! 1 = Some (mk_conn_data 5 (Some 0%nat) None) /\
  pending_run 1 after_first_run /\
  count_frees (emitted (invoke 2 (read_cb 1 7 100)) after_first_run) = 1%nat /\
  ~ frees_one_less Rd 1 7 100 1 after_first_run.
Proof.
  assert (Hrun : pending_run 1 after_first_run).
  { split.
    - intros i Hi. destruct i as [|i]; [by vm_compute | lia].
    - by vm_compute. }
  split; [apply perform_all_keeps, Inv_init|].
  split; [reflexivity|]. split; [exact Hrun|]. split; [by vm_compute|].
  intros H. specialize (H Hrun). vm_compute in H. discriminate H.
Qed.

(** ** The accept drain *)

Lemma main_accept_loop_fail (fuel : nat) (listen_fd epoll : Z) (opts exec : nat) (w : World) :
  r_ret (oracle w (tick w)) < 0 ->
  main_accept_loop (S fuel) listen_fd epoll opts exec w =
    (Val tt, answered (EvSys (SysAccept listen_fd) (r_ret (oracle w (tick w)))) w).
Proof.
  intros Hr. cbn [main_accept_loop].
  rewrite (bind_val _ _ _ _ _ (syscall_run _ w)).
  apply Z.leb_gt in Hr. by rewrite Hr.
Qed.

Lemma main_accept_loop_ok (fuel : nat) (listen_fd epoll : Z) (opts exec : nat) (w : World) :
  0 <= r_ret (oracle w (tick w)) ->
  main_accept_loop (S fuel) listen_fd epoll opts exec w =
    (main_accepted epoll opts exec (r_ret (oracle w (tick w))) ;;
     main_accept_loop fuel listen_fd epoll opts exec)
      (answered (EvSys (SysAccept listen_fd) (r_ret (oracle w (tick w)))) w).
Proof.
  intros Hr. cbn [main_accept_loop].
  rewrite (bind_val _ _ _ _ _ (syscall_run _ w)).
  apply Z.leb_le in Hr. by rewrite Hr.
Qed.

Lemma main_listen_fail (fuel : nat) (listen_fd epoll : Z) (opts exec : nat) (w : World) :
  r_ret (oracle w (tick w)) < 0 ->
  let r := oracle w (tick w) in
  main_listen (S fuel) listen_fd epoll opts exec w =
    (Val tt,
     set_trace (fun t => t ++ if r_errno r =? EAGAIN then [] else [EvPerror "accept"])
       (answered (EvSys (SysAccept listen_fd) (r_ret r)) w)).
Proof.
  intros Hr r. subst r. unfold main_listen.
  rewrite (bind_val _ _ _ _ _ (main_accept_loop_fail fuel listen_fd epoll opts exec w Hr)).
  rewrite (bind_val _ _ _ _ _ (get_errno_run _)). goal_simpl.
  apply Z.ltb_lt in Hr. rewrite Hr.
  destruct (r_errno (oracle w (tick w)) =? EAGAIN); simpl; f_equal; world_eq.
Qed.

(** C8, amended.  An event on the listening socket makes the loop call
    [accept]; after an [accept] that gives a descriptor the connection is
    set up and [accept] is called again; the first [accept] that fails ends
    the drain, whatever its [errno].  A failure other than would-block is
    logged, a would-block failure is not; in both cases the events that
    were reported after this one are processed next, so the failure neither
    ends the program nor leaves the main loop. *)
Theorem accept_drain_ends_on_failure (fuel : nat) (listen_fd signal_fd epoll : Z)
    (opts exec : nat) (ev : epoll_event) (rest : list epoll_event) (w : World) :
  ev_data ev = KeyListen ->
  let r := oracle w (tick w) in
  let w1 := answered (EvSys (SysAccept listen_fd) (r_ret r)) w in
  (0 <= r_ret r ->
     main_accept_loop (S fuel) listen_fd epoll opts exec w =
       (main_accepted epoll opts exec (r_ret r) ;;
        main_accept_loop fuel listen_fd epoll opts exec) w1) /\
  (r_ret r < 0 ->
     let w2 := set_trace
                 (fun t => t ++ if r_errno r =? EAGAIN then [] else [EvPerror "accept"]) w1 in
     main_accept_loop (S fuel) listen_fd epoll opts exec w = (Val tt, w1) /\
     errno w1 = r_errno r /\
     main_event (S fuel) listen_fd signal_fd epoll opts exec ev w = (Val tt, w2) /\
     main_events (S fuel) listen_fd signal_fd epoll opts exec (ev :: rest) w =
       main_events (S fuel) listen_fd signal_fd epoll opts exec rest w2).
Proof.
  intros Hev r w1. split.
  - intros Hr. by apply main_accept_loop_ok.
  - intros Hr w2.
    assert (Hevent : main_event (S fuel) listen_fd signal_fd epoll opts exec ev w
                     = (Val tt, w2)).
    { unfold main_event. rewrite Hev. by apply main_listen_fail. }
    split; [by apply main_accept_loop_fail|]. split.
    + subst w1 r. simpl. apply Z.ltb_lt in Hr. by rewrite Hr.
    + split; [exact Hevent|]. cbn [main_events]. by rewrite (bind_val _ _ _ _ _ Hevent).
Qed.

Lemma accept_drain_ends_on_failure_witness :
  let ev := mk_epoll_event EPOLLIN KeyListen in
  let w := init_world (script [failure ECONNABORTED; signalled SIGINT]) in
  main_accept_loop 1 3 4 0 1 w =
    (Val tt, answered (EvSys (SysAccept 3) (-1)) w) /\
  emitted (main_event 1 3 5 4 0 1 ev) w = [EvSys (SysAccept 3) (-1); EvPerror "accept"] /\
  (main_events 1 3 5 4 0 1 [ev; mk_epoll_event EPOLLIN KeySignal] w).1 = GotoEXIT.
Proof.
  intros ev w.
  destruct (accept_drain_ends_on_failure 0 3 5 4 0 1 ev
              [mk_epoll_event EPOLLIN KeySignal] w eq_refl) as [_ Hfail].
  destruct Hfail as (Hloop & _ & Hevent & Hrest).
  - simpl. lia.
  - split; [exact Hloop|]. split.
    + eapply emitted_run; [exact Hevent|]. reflexivity.
    + rewrite Hrest. reflexivity.
Defined.

(** C8 as worded does not hold: the drain is left after an [accept] that
    failed with [ECONNABORTED], while a connection still waits. *)
Lemma drain_ends_on_other_errno :
  main_accept_loop 2 3 4 0 1 aborted_accept =
    (Val tt, answered (EvSys (SysAccept 3) (-1)) aborted_accept) /\
  errno (main_accept_loop 2 3 4 0 1 aborted_accept).2 = ECONNABORTED /\
  ECONNABORTED <> EAGAIN /\
  r_ret (oracle aborted_accept 1%nat) = 9 /\
  ~ drain_ends_on_would_block 2 3 4 0 1 aborted_accept.
Proof.
  assert (Hrun : main_accept_loop 2 3 4 0 1 aborted_accept =
                 (Val tt, answered (EvSys (SysAccept 3) (-1)) aborted_accept))
    by reflexivity.
  split; [exact Hrun|]. split; [by rewrite Hrun|]. split; [done|]. split; [done|].
  intros H. specialize (H _ Hrun). discriminate H.
Qed.

(** ** Signals and teardown *)






(** A whole run of the program: set-up, one accepted connection, SIGINT. *)
Example session_shutdown :
  let w' := (main 3 [] (init_world (script session_until_SIGINT))).2 in
  (main 3 [] (init_world (script session_until_SIGINT))).1 = Val 1 /\
  heap w' !! 1 = Some (mk_conn_data 9 None None) /\
  drop 41 (trace w') =
    [EvSys (SysRead 5 128) 128; EvPrintf "Caught SIGINT... exiting" [];
     EvHyper (HyOptionsFree 1); EvHyper (HyExecutorFree 0)].
Proof. by vm_compute. Qed.

(** ** A record that could not be registered *)

Lemma run_callback_null (io : nat) (buf_len : Z) (w : World) :
  ios w !! io = Some NULL ->
  run_callback (CbRead io buf_len) w = (Fault NullDeref, w) /\
  run_callback (CbWrite io buf_len) w = (Fault NullDeref, w).
Proof.
  intros Hio. unfold run_callback.
  rewrite !(bind_val _ _ _ _ _ (io_userdata_run io w)), Hio. by split.
Qed.

Lemma main_accepted_null (epoll : Z) (opts exec : nat) (new_fd : Z) (w : World) :
  0 <= brk w ->
  r_ret (oracle w (S (tick w))) = 0 ->
  r_ret (oracle w (S (S (tick w)))) = 0 ->
  r_ret (oracle w (S (S (S (tick w))))) < 0 ->
  let p := brk w + 1 in
  let io := next_id w in
  let task := S (S io) in
  let rc := r_ret (oracle w (tick w)) in
  exists w',
    main_accepted epoll opts exec new_fd w = (Val tt, w') /\
    ios w' !! io = Some NULL /\
    tasks w' !! task = Some NULL /\
    heap w' !! p = None /\
    trace w' = trace w ++
      EvSys SysGetnameinfo rc ::
      (if rc <? 0
       then [EvPerror "getnameinfo"; EvPrintf "New incoming connection from (unknown)" []]
       else [EvPrintf "New incoming connection from (%s:%s)" []]) ++
      [EvSys (SysFcntl new_fd F_SETFL O_NONBLOCK) 0;
       EvSys (SysFcntl new_fd F_SETFD FD_CLOEXEC) 0;
       EvMalloc p;
       EvSys (SysEpollCtl epoll EPOLL_CTL_ADD new_fd (Some (KeyConn p)))
         (r_ret (oracle w (S (S (S (tick w))))));
       EvPerror "epoll_ctl (transport)"; EvFree p;
       EvHyper (HyIoNew io); EvHyper (HyIoSetUserdata io NULL);
       EvHyper (HyIoSetRead io); EvHyper (HyIoSetWrite io);
       EvHyper (HyServiceNew (S io)); EvHyper (HyServeConnection opts io (S io) task);
       EvHyper (HyTaskSetUserdata task NULL); EvHyper (HyExecutorPush exec task)].
Proof.
  intros Hb H1 H2 H3 p io task rc. subst p io task rc. unfold main_accepted, create_io.
  step.
  destruct (r_ret (oracle w (tick w)) <? 0) eqn:Hr0.
  - do 3 step. rewrite H1. cbn [Z.eqb negb]. step. rewrite H2. cbn [Z.eqb negb].
    erewrite bind_val
      by (apply create_conn_data_run_fail; goal_simpl; rewrite ?Hr0; goal_simpl; assumption).
    repeat step. eexists. split; [last_step; reflexivity|].
    goal_simpl. rewrite ?Hr0. goal_simpl.
    split; [apply lookup_insert_eq|]. split; [apply lookup_insert_eq|].
    split; [apply lookup_delete_eq|]. by rewrite <- !app_assoc.
  - do 2 step. rewrite H1. cbn [Z.eqb negb]. step. rewrite H2. cbn [Z.eqb negb].
    erewrite bind_val
      by (apply create_conn_data_run_fail; goal_simpl; rewrite ?Hr0; goal_simpl; assumption).
    repeat step. eexists. split; [last_step; reflexivity|].
    goal_simpl. rewrite ?Hr0. goal_simpl.
    split; [apply lookup_insert_eq|]. split; [apply lookup_insert_eq|].
    split; [apply lookup_delete_eq|]. by rewrite <- !app_assoc.
Qed.

Lemma poll_null_record (exec io : nat) (cb : callback) (rest : list callback) (w : World) :
  ios w !! io = Some NULL ->
  r_cbs (oracle w (tick w)) = cb :: rest ->
  (exists len, cb = CbRead io len \/ cb = CbWrite io len) ->
  (hyper_executor_poll exec w).1 = Fault NullDeref.
Proof.
  intros Hio Hcbs (len & Hcb). unfold hyper_executor_poll, ask.
  unfold bind at 1. cbn [fst snd]. rewrite Hcbs. cbn [run_callbacks].
  set (w1 := set_tick (S (tick w)) w).
  assert (Hf : run_callback cb w1 = (Fault NullDeref, w1))
    by (destruct Hcb as [-> | ->]; by apply run_callback_null).
  by rewrite (bind_fault _ _ _ _ _ (bind_fault _ _ _ _ _ Hf)).
Qed.

(** C10.  When the registration of the accepted descriptor with epoll
    fails, [create_conn_data] frees the record it allocated and returns the
    null pointer.  The accept path does not test the result: it makes the
    I/O binding and the task with the null pointer as their user-data and
    hands the task to the executor.  The read callback and the write
    callback of that binding, whenever the engine calls them afterwards,
    dereference the null pointer. *)
Theorem null_record_reaches_callbacks (epoll : Z) (opts exec : nat) (new_fd : Z)
    (w : World) :
  0 <= brk w ->
  r_ret (oracle w (S (tick w))) = 0 ->
  r_ret (oracle w (S (S (tick w)))) = 0 ->
  r_ret (oracle w (S (S (S (tick w))))) < 0 ->
  let io := next_id w in
  let task := S (S io) in
  let w' := (main_accepted epoll opts exec new_fd w).2 in
  (forall w0, 0 <= brk w0 -> r_ret (oracle w0 (tick w0)) < 0 ->
     let p := brk w0 + 1 in
     (create_conn_data epoll new_fd w0).1 = Val NULL /\
     heap (create_conn_data epoll new_fd w0).2 !! p = None /\
     emitted (create_conn_data epoll new_fd) w0 =
       [EvMalloc p;
        EvSys (SysEpollCtl epoll EPOLL_CTL_ADD new_fd (Some (KeyConn p)))
          (r_ret (oracle w0 (tick w0)));
        EvPerror "epoll_ctl (transport)"; EvFree p]) /\
  (main_accepted epoll opts exec new_fd w).1 = Val tt /\
  ios w' !! io = Some NULL /\
  tasks w' !! task = Some NULL /\
  In (EvHyper (HyIoSetUserdata io NULL)) (trace w') /\
  In (EvHyper (HyExecutorPush exec task)) (trace w') /\
  (forall len w'', ios w'' !! io = Some NULL ->
     run_callback (CbRead io len) w'' = (Fault NullDeref, w'') /\
     run_callback (CbWrite io len) w'' = (Fault NullDeref, w'')) /\
  (forall cb rest,
     r_cbs (oracle w' (tick w')) = cb :: rest ->
     (exists len, cb = CbRead io len \/ cb = CbWrite io len) ->
     (hyper_executor_poll exec w').1 = Fault NullDeref).
Proof.
  intros Hb H1 H2 H3 io task w'.
  destruct (main_accepted_null epoll opts exec new_fd w Hb H1 H2 H3)
    as (w1 & Hrun & Hio & Htask & _ & Ht).
  cbv zeta in Hio, Htask, Ht. fold io in Hio, Ht. fold task in Htask, Ht.
  assert (Hw' : w' = w1) by (subst w'; by rewrite Hrun). rewrite Hw'. clear Hw' w'.
  split; [|split; [by rewrite Hrun|]].
  - intros w0 Hb0 Hr0 p.
    pose proof (create_conn_data_run_fail epoll new_fd w0 Hb0 Hr0) as Hc. cbv zeta in Hc.
    fold p in Hc. rewrite Hc. split; [done|]. split; [apply lookup_delete_eq|].
    by eapply emitted_run.
  - split; [exact Hio|]. split; [exact Htask|]. split; [|split; [|split]].
    + rewrite Ht. apply in_or_app. right. right. apply in_or_app. right.
      simpl. tauto.
    + rewrite Ht. apply in_or_app. right. right. apply in_or_app. right.
      simpl. tauto.
    + intros len w'' Hio''. by apply run_callback_null.
    + intros cb rest Hcbs Hcb. by eapply poll_null_record.
Qed.

Lemma null_record_reaches_callbacks_witness :
  let w := set_next_id 2%nat
             (init_world (script [answer 0; answer 0; answer 0; failure ENOSPC;
                                  polled [CbRead 2 100] None])) in
  let w' := (main_accepted 4 1 0 9 w).2 in
  (main_accepted 4 1 0 9 w).1 = Val tt /\
  ios w' !! 2%nat = Some NULL /\
  heap w' = ∅ /\
  (hyper_executor_poll 0 w').1 = Fault NullDeref.
Proof.
  intros w w'.
  assert (Hb : 0 <= brk w) by (simpl; lia).
  assert (H3 : r_ret (oracle w (S (S (S (tick w))))) < 0) by (simpl; lia).
  destruct (null_record_reaches_callbacks 4 1 0 9 w Hb eq_refl eq_refl H3)
    as (_ & Hv & Hio & _ & _ & _ & _ & Hpoll).
  split; [exact Hv|]. split; [exact Hio|]. split; [reflexivity|].
  apply (Hpoll (CbRead 2 100) []); [reflexivity|]. exists 100. by left.
Defined.

(** ** The exit status *)

Lemma returns_bind {A B} (m : M A) (k : A -> M B) :
  returns_one m -> (forall a, returns_one (k a)) -> returns_one (bind m k).
Proof.
  intros Hm Hk w z. unfold bind. specialize (Hm w).
  destruct (m w) as [[a| z'| | |] w1]; simpl in *; try done.
  - apply Hk.
  - intros [= <-]. by apply Hm.
Qed.

Lemma returns_call (m : M Z) : returns_one (call m).
Proof. intros w z. unfold call. by destruct (m w) as [[a| z'| | |] w1]. Qed.

Lemma returns_at_EXIT {A} (body : M unit) (handler : M A) :
  returns_one body -> returns_one handler -> returns_one (at_EXIT body handler).
Proof.
  intros Hb Hh w z. unfold at_EXIT. specialize (Hb w).
  destruct (body w) as [[a| z'| | |] w1]; simpl in *; try done; try apply Hh.
  intros [= <-]. by apply Hb.
Qed.

Lemma returns_ret {A} (a : A) : returns_one (ret a).
Proof. by intros w z. Qed.

Lemma returns_return_1 {A} : returns_one (@return_ A 1).
Proof. intros w z [= <-]. reflexivity. Qed.

Lemma returns_update {A} (a : A) (f : World -> World) :
  returns_one (fun w => (Val a, f w)).
Proof. by intros w z. Qed.

Lemma returns_deref (p : Z) : returns_one (deref p).
Proof.
  intros w z. unfold deref. destruct (p =? NULL); [done|]. by destruct (heap w !! p).
Qed.

Lemma returns_consume (h : nat) : returns_one (consume_waker h).
Proof. intros w z. unfold consume_waker. by destruct (decide (h ∈ live w)). Qed.

Create HintDb returns discriminated.

#[export] Hint Resolve returns_ret returns_return_1 returns_deref returns_consume
  returns_call : returns.

Ltac returns_step :=
  lazymatch goal with
  | |- returns_one (bind _ _) => apply returns_bind; [| intros ?]
  | |- returns_one (call _) => apply returns_call
  | |- returns_one (at_EXIT _ _) => apply returns_at_EXIT
  | |- returns_one (if ?b then _ else _) => destruct b
  | |- returns_one (match ?x with _ => _ end) => destruct x
  | |- returns_one (let _ := _ in _) => cbv zeta
  | |- returns_one (when ?b _) => unfold when
  | |- returns_one (printf _ _) => unfold printf
  | |- returns_one (perror _) => unfold perror
  | |- returns_one (fprintf_stderr _) => unfold fprintf_stderr
  | |- returns_one (hy _) => unfold hy
  | |- returns_one (syscall _) => unfold syscall
  | |- returns_one (syscall_r _) => unfold syscall_r
  | |- returns_one (store _ _) => unfold store
  | |- returns_one (free _) => unfold free
  | |- returns_one (set_fd _ _) => unfold set_fd
  | |- returns_one (set_read_waker _ _) => unfold set_read_waker
  | |- returns_one (set_write_waker _ _) => unfold set_write_waker
  | |- returns_one (fun w => (Val _, _)) => apply returns_update
  | |- returns_one (@out_of_fuel _) => by intros ? ?
  | |- returns_one (@goto_EXIT _) => by intros ? ?
  | |- returns_one (@undefined _ _) => by intros ? ?
  | |- returns_one ask => by intros ? ?
  | |- returns_one get_errno => by intros ? ?
  | |- returns_one fresh_id => by intros ? ?
  | |- returns_one malloc => by intros ? ?
  | |- returns_one (emit _) => by intros ? ?
  | |- returns_one (io_userdata _) => by intros ? ?
  | |- returns_one (hyper_task_userdata _) => by intros ? ?
  | _ => solve [eauto with returns]
  end.

Ltac returns_tac := repeat returns_step.

Lemma returns_io_cb (d : dir) (conn : Z) (ctx : nat) (len : Z) :
  returns_one (io_cb d conn ctx len).
Proof.
  destruct d; unfold io_cb, read_cb, write_cb, hyper_waker_free, hyper_context_waker;
    returns_tac.
Qed.

Lemma returns_run_callbacks (cbs : list callback) : returns_one (run_callbacks cbs).
Proof.
  induction cbs as [|cb cbs IH]; simpl; [returns_tac|].
  apply returns_bind; [|intros _; exact IH].
  destruct cb as [io len | io len]; unfold run_callback.
  - apply returns_bind; [returns_tac | intros p].
    apply returns_bind; [apply (returns_io_cb Rd) | intros; returns_tac].
  - apply returns_bind; [returns_tac | intros p].
    apply returns_bind; [apply (returns_io_cb Wr) | intros; returns_tac].
Qed.

Lemma returns_free_conn_data (epoll conn : Z) : returns_one (free_conn_data epoll conn).
Proof.
  unfold free_conn_data, drop_saved_wakers, hyper_waker_free. returns_tac.
Qed.

#[export] Hint Resolve returns_run_callbacks returns_free_conn_data : returns.

Lemma returns_main_pump (fuel : nat) (epoll : Z) (exec : nat) :
  returns_one (main_pump fuel epoll exec).
Proof.
  induction fuel as [|n IH]; simpl; [returns_tac|].
  unfold hyper_executor_poll, main_task_error, main_task_empty, hyper_error_free,
    hyper_task_free.
  returns_tac.
Qed.

Lemma returns_main_accept_loop (fuel : nat) (listen_fd epoll : Z) (opts exec : nat) :
  returns_one (main_accept_loop fuel listen_fd epoll opts exec).
Proof.
  induction fuel as [|n IH]; simpl; [returns_tac|].
  unfold main_accepted, create_conn_data, create_io, hyper_io_new, hyper_io_set_userdata,
    hyper_io_set_read, hyper_io_set_write, hyper_service_new, hyper_serve_connection,
    hyper_task_set_userdata, hyper_executor_push.
  returns_tac.
Qed.

#[export] Hint Resolve returns_main_pump returns_main_accept_loop : returns.

Lemma returns_main_events (fuel : nat) (listen_fd signal_fd epoll : Z) (opts exec : nat)
    (evs : list epoll_event) :
  returns_one (main_events fuel listen_fd signal_fd epoll opts exec evs).
Proof.
  induction evs as [|ev evs IH]; simpl; [returns_tac|].
  unfold main_event, main_listen, main_signal, main_transport, hyper_waker_wake.
  returns_tac.
Qed.

#[export] Hint Resolve returns_main_events : returns.

Lemma returns_main_loop (fuel : nat) (listen_fd signal_fd epoll : Z) (opts exec : nat) :
  returns_one (main_loop fuel listen_fd signal_fd epoll opts exec).
Proof.
  induction fuel as [|n IH]; [by intros ? ?|].
  cbn -[main_pump main_events]. unfold epoll_wait. returns_tac.
Qed.

Lemma no_value_bind {A B} (m : M A) (k : A -> M B) :
  (forall a, no_value (k a)) -> no_value (bind m k).
Proof.
  intros Hk w b. unfold bind. destruct (m w) as [[a| z'| | |] w1]; simpl; try done.
  apply Hk.
Qed.

Lemma no_value_return {A} (z : Z) : no_value (@return_ A z).
Proof. by intros w a. Qed.

Lemma no_value_at_EXIT {A} (body : M unit) (handler : M A) :
  no_value handler -> no_value (at_EXIT body handler).
Proof.
  intros Hh w a. unfold at_EXIT.
  destruct (body w) as [[u| z'| | |] w1]; simpl; try done; apply Hh.
Qed.

Ltac no_value_tac :=
  repeat lazymatch goal with
         | |- no_value (bind _ _) => apply no_value_bind; intros ?
         | |- no_value (return_ _) => apply no_value_return
         | |- no_value (at_EXIT _ _) => apply no_value_at_EXIT
         | |- no_value (if ?b then _ else _) => destruct b
         end.

(** [main] exits with status 1 whenever it exits. *)
Lemma main_exit_status (fuel : nat) (argv : list string) (w : World) (z : Z) :
  (main fuel argv w).1 = Val z -> z = 1.
Proof.
  unfold main.
  match goal with |- (call ?b w).1 = _ -> _ => set (body := b) end.
  assert (Hret : returns_one body).
  { subst body. unfold main_serve, main_EXIT, hyper_executor_new,
      hyper_serverconn_options_new, hyper_serverconn_options_free, hyper_executor_free.
    pose proof returns_main_loop. returns_tac. }
  assert (Hval : no_value body).
  { subst body. unfold main_serve, main_EXIT. no_value_tac. }
  unfold call. specialize (Hret w). specialize (Hval w).
  destruct (body w) as [[a| z'| | |] w1]; simpl in *; try done.
  - by destruct (Hval a).
  - intros [= <-]. by apply Hret.
Qed.

(** ** Failures during set-up *)

Lemma register_signal_handler_fail (w : World) :
  r_ret (oracle w (tick w)) < 0 ->
  register_signal_handler w =
    (Val 1, set_trace (fun t => t ++ [EvPerror "signalfd"])
              (answered (EvSys SysSignalfd (r_ret (oracle w (tick w)))) w)).
Proof.
  intros Hr. unfold register_signal_handler, call.
  rewrite (bind_val _ _ _ _ _ (syscall_run _ w)).
  apply Z.ltb_lt in Hr. rewrite Hr. reflexivity.
Qed.

(** The loop never leaves when the executor has no task and no event is
    ever reported. *)
Lemma idle_loop (fuel : nat) (listen_fd signal_fd epoll : Z) (opts exec : nat) (w : World) :
  (forall k, (tick w <= k)%nat -> oracle w k = answer 0) ->
  (main_loop fuel listen_fd signal_fd epoll opts exec w).1 = OutOfFuel.
Proof.
  revert w. induction fuel as [|n IH]; intros w Hw; [reflexivity|].
  cbn -[main_events].
  unfold hyper_executor_poll, epoll_wait, ask, printf, hy, emit, bind, ret. cbn [fst snd].
  rewrite (Hw (tick w)) by lia. cbn -[main_loop].
  rewrite (Hw (S (tick w))) by lia. cbn -[main_loop].
  rewrite take_nil. cbn -[main_loop].
  apply IH. intros k Hk. cbn in *. apply Hw. lia.
Qed.

Lemma run_value {A} (m : M A) (w : World) (a : A) :
  (m w).1 = Val a -> m w = (Val a, (m w).2).
Proof. destruct (m w) as [r w']. simpl. by intros ->. Qed.

(** C7, at the input on which the code departs from it.  When [signalfd]
    fails, [register_signal_handler] prints the diagnostic and returns 1;
    [main] tests the result for being negative, so it goes on: it registers
    descriptor 1 with epoll as the signal descriptor, starts the engine and
    enters the event loop, where it waits.  It does not exit, however long
    it runs. *)
Theorem signalfd_failure_unnoticed :
  let w := init_world (script session_signalfd_fails) in
  (register_signal_handler (init_world (script [failure EMFILE]))).1 = Val 1 /\
  (forall fuel, (main fuel [] w).1 = OutOfFuel) /\
  drop 9 (trace (main 2 [] w).2) =
    [EvSys SysSignalfd (-1); EvPerror "signalfd";
     EvSys (SysEpollCreate1 EPOLL_CLOEXEC) 4;
     EvSys (SysEpollCtl 4 EPOLL_CTL_ADD 3 (Some KeyListen)) 0;
     EvSys (SysEpollCtl 4 EPOLL_CTL_ADD 1 (Some KeySignal)) 0;
     EvPrintf "http handshake (hyper v%s) ..." [];
     EvHyper (HyExecutorNew 0); EvHyper (HyOptionsNew 1);
     EvHyper (HyExecutorPoll 0 None);
     EvPrintf "Processed all tasks - polling for events" [];
     EvSys (SysEpollWait 4 MAX_EVENTS) 0; EvPrintf "Poll reported %d events" [0];
     EvHyper (HyExecutorPoll 0 None);
     EvPrintf "Processed all tasks - polling for events" [];
     EvSys (SysEpollWait 4 MAX_EVENTS) 0; EvPrintf "Poll reported %d events" [0]].
Proof.
  intros w. split; [|split].
  - by rewrite register_signal_handler_fail.
  - intros fuel. unfold main, main_serve, call.
    repeat (erewrite bind_val by (apply run_value; lazy; reflexivity);
            cbn [Z.ltb Z.compare]).
    match goal with |- context [at_EXIT _ _ ?x] => set (w9 := x) end.
    assert (Hidle : forall k, (tick w9 <= k)%nat -> oracle w9 k = answer 0).
    { intros k. change (tick w9) with 11%nat.
      change (oracle w9) with (script session_signalfd_fails). intros Hk.
      do 11 (destruct k as [|k]; [lia|]).
      do 2 (destruct k as [|k]; [reflexivity|]). by destruct k. }
    pose proof (idle_loop fuel 3 1 4 1 0 w9 Hidle) as Hloop.
    unfold at_EXIT. destruct (main_loop fuel 3 1 4 1 0 w9) as [res w']. simpl in Hloop.
    by rewrite Hloop.
  - by vm_compute.
Qed.

(** Two more set-up failures.  When [bind] fails for every address, [main]
    exits with status 1 and nothing is written to the standard error. *)
Example bind_failure_is_silent :
  let run := main 1 [] (init_world (script [resolved [an_address]; answer 3; answer 0;
                                            failure EADDRINUSE])) in
  run.1 = Val 1 /\
  trace run.2 =
    [EvPrintf "listening on port %s on %s..." [];
     EvSys (SysGetaddrinfo "127.0.0.1" "1234") 0;
     EvSys (SysSocket an_address) 3; EvSys (SysSetsockopt 3) 0;
     EvSys (SysBind 3 an_address) (-1); EvSys (SysClose 3) 0; EvSys SysFreeaddrinfo 0].
Proof. by vm_compute. Qed.

(** When [fcntl(FD_CLOEXEC)] fails on the listening socket, [listen_on]
    returns 1, which [main] takes for the listening descriptor. *)
Example cloexec_failure_returns_1 :
  let w := init_world (script [resolved [an_address]; answer 3; answer 0; answer 0;
                               answer 0; failure EBADF; answer 5; answer 0; answer 4]) in
  (listen_on "127.0.0.1" "1234" w).1 = Val 1 /\
  In (EvSys (SysEpollCtl 4 EPOLL_CTL_ADD 1 (Some KeyListen)) 0)
     (trace (main 1 [] w).2).
Proof. split; [by vm_compute|]. vm_compute. tauto. Qed.

(** * Further properties of the program *)

(** ** The listening socket *)

Lemma opened_sockets_app (t1 t2 : list Event) :
  opened_sockets (t1 ++ t2) = opened_sockets t1 ++ opened_sockets t2.
Proof. apply omap_app. Qed.

Lemma closed_sockets_app (t1 t2 : list Event) :
  closed_sockets (t1 ++ t2) = closed_sockets t1 ++ closed_sockets t2.
Proof. apply omap_app. Qed.

Lemma listen_on_loop_run (addrs : list addrinfo) :
  forall (sock : Z) (w : World),
    sock < 0 ->
    exists z w' evs,
      listen_on_loop sock addrs w = (Val z, w') /\
      trace w' = trace w ++ evs /\
      opened_sockets evs = closed_sockets evs ++ (if 0 <=? z then [z] else []) /\
      (0 <= z -> exists pre a, evs = pre ++ [EvSys (SysBind z a) 0] /\ a ∈ addrs) /\
      (forall a, EvSys (SysBind z a) 0 ∈ evs -> 0 <= z).
Proof.
  induction addrs as [|a addrs IH]; intros sock w Hsock.
  - exists sock, w, []. simpl. rewrite app_nil_r.
    assert (Hn : (0 <=? sock) = false) by (apply Z.leb_gt; lia). rewrite Hn.
    repeat split; try done.
    + lia.
    + intros a Ha. by apply elem_of_nil in Ha.
  - cbn [listen_on_loop]. step.
    set (s := r_ret (oracle w (tick w))).
    destruct (s <? 0) eqn:Hs.
    + step. apply Z.ltb_lt in Hs.
      match goal with |- context [listen_on_loop s addrs ?x] => set (w1 := x) end.
      destruct (IH s w1 Hs) as (z & w' & evs & Hrun & Ht & Hacc & Hlast & Hpos).
      exists z, w', ([EvSys (SysSocket a) s; EvPerror "socket"] ++ evs).
      split; [exact Hrun|]. split; [|split; [|split]].
      * rewrite Ht. subst w1. simpl. by rewrite <- !app_assoc.
      * rewrite opened_sockets_app, closed_sockets_app, Hacc. simpl.
        assert (Hn : (0 <=? s) = false) by (apply Z.leb_gt; lia). by rewrite Hn.
      * intros Hz. destruct (Hlast Hz) as (pre & a' & -> & Ha').
        exists ([EvSys (SysSocket a) s; EvPerror "socket"] ++ pre), a'.
        split; [by rewrite <- !app_assoc|]. by apply elem_of_cons; right.
      * intros a' Ha'. apply elem_of_app in Ha' as [Ha'|Ha']; [|by eapply Hpos].
        apply elem_of_cons in Ha' as [Ha'|Ha']; [done|].
        apply elem_of_cons in Ha' as [Ha'|Ha']; [done|]. by apply elem_of_nil in Ha'.
    + apply Z.ltb_ge in Hs. step.
      set (so := r_ret (oracle w (S (tick w)))).
      set (said := if so <? 0 then [EvPerror "setsockopt"] else []).
      assert (Hwhen : forall (k : M Z) w0,
                bind (when (so <? 0) (perror "setsockopt")) (fun _ => k) w0 =
                k (set_trace (fun t => t ++ said) w0)).
      { intros k w0. subst said.
        destruct (so <? 0); unfold when, perror, emit, ret, bind; cbn [fst snd];
          [reflexivity|].
        f_equal. world_eq. by rewrite app_nil_r. }
      unfold when in Hwhen. unfold perror in Hwhen. rewrite Hwhen. clear Hwhen.
      step. set (b := r_ret (oracle w (S (S (tick w))))).
      assert (Hsaid_o : opened_sockets said = []) by (subst said; by destruct (so <? 0)).
      assert (Hsaid_c : closed_sockets said = []) by (subst said; by destruct (so <? 0)).
      assert (Hle : (0 <=? s) = true) by (apply Z.leb_le; lia).
      destruct (b =? 0) eqn:Hb.
      * apply Z.eqb_eq in Hb.
        eexists s, _, ([EvSys (SysSocket a) s; EvSys (SysSetsockopt s) so] ++ said ++
                       [EvSys (SysBind s a) b]).
        split; [reflexivity|]. split; [|split; [|split]].
        -- simpl. by rewrite <- !app_assoc.
        -- rewrite !opened_sockets_app, !closed_sockets_app, Hsaid_o, Hsaid_c. simpl.
           by rewrite Hle.
        -- intros _. eexists _, a. rewrite Hb. split; [by rewrite !app_assoc|].
           by apply elem_of_cons; left.
        -- intros _ _. lia.
      * step.
        match goal with |- context [listen_on_loop (-1) addrs ?x] => set (w1 := x) end.
        destruct (IH (-1) w1) as (z & w' & evs & Hrun & Ht & Hacc & Hlast & Hpos); [lia|].
        exists z, w',
          ([EvSys (SysSocket a) s; EvSys (SysSetsockopt s) so] ++ said ++
           [EvSys (SysBind s a) b; EvSys (SysClose s) (r_ret (oracle w (S (S (S (tick w))))))]
           ++ evs).
        split; [exact Hrun|]. split; [|split; [|split]].
        -- rewrite Ht. subst w1. simpl. by rewrite <- !app_assoc.
        -- rewrite !opened_sockets_app, !closed_sockets_app, Hsaid_o, Hsaid_c, Hacc. simpl.
           by rewrite Hle.
        -- intros Hz. destruct (Hlast Hz) as (pre & a' & -> & Ha').
           eexists _, a'. split; [by rewrite !app_assoc|]. by apply elem_of_cons; right.
        -- intros a' Ha'. apply Z.eqb_neq in Hb.
           rewrite !elem_of_app in Ha'. destruct Ha' as [Ha'|[Ha'|[Ha'|Ha']]].
           ++ apply elem_of_cons in Ha' as [Ha'|Ha']; [done|].
              apply elem_of_cons in Ha' as [Ha'|Ha']; [done|]. by apply elem_of_nil in Ha'.
           ++ subst said. destruct (so <? 0); [|by apply elem_of_nil in Ha'].
              apply elem_of_cons in Ha' as [Ha'|Ha']; [done|]. by apply elem_of_nil in Ha'.
           ++ apply elem_of_cons in Ha' as [Ha'|Ha'].
              ** injection Ha' as -> _ Hb0. by destruct Hb.
              ** apply elem_of_cons in Ha' as [Ha'|Ha']; [done|]. by apply elem_of_nil in Ha'.
           ++ by eapply Hpos.
Qed.

(** X1.  The loop over the resolved addresses, entered with no socket:
    every socket it created is closed again, except the one it returns; it
    returns a descriptor exactly when its last action was a [bind] of that
    descriptor, to one of the addresses, that succeeded; for an empty list
    of addresses it does nothing. *)
Theorem listen_on_loop_leaks_no_socket (addrs : list addrinfo) (sock : Z) (w : World) :
  sock < 0 ->
  exists z,
    (listen_on_loop sock addrs w).1 = Val z /\
    let evs := emitted (listen_on_loop sock addrs) w in
    opened_sockets evs = closed_sockets evs ++ (if 0 <=? z then [z] else []) /\
    (0 <= z <-> exists a, a ∈ addrs /\ last evs = Some (EvSys (SysBind z a) 0)) /\
    (addrs = [] -> z = sock /\ evs = []).
Proof.
  intros Hsock.
  destruct (listen_on_loop_run addrs sock w Hsock)
    as (z & w' & evs & Hrun & Ht & Hacc & Hlast & Hpos).
  exists z. split; [by rewrite Hrun|]. cbv zeta.
  rewrite (emitted_run _ _ _ _ _ Hrun Ht). split; [exact Hacc|]. split; [split|].
  - intros Hz. destruct (Hlast Hz) as (pre & a & -> & Ha). exists a. split; [done|].
    apply last_snoc.
  - intros (a & _ & Hl). apply (Hpos a). apply last_Some in Hl as [pre ->].
    apply elem_of_app. right. apply elem_of_cons. by left.
  - intros ->. simpl in Hrun. injection Hrun as <- <-. split; [done|].
    apply (inj (app (trace w))). by rewrite <- Ht, app_nil_r.
Qed.

Lemma listen_on_loop_leaks_no_socket_witness :
  let w := init_world (script [answer 3; answer 0; failure EADDRINUSE; answer 0;
                               failure EMFILE; answer 4; failure EBADF; answer 0]) in
  let addrs := [an_address; mk_addrinfo 10 1 6 0; mk_addrinfo 10 1 6 1] in
  (listen_on_loop (-1) addrs w).1 = Val 4 /\
  opened_sockets (emitted (listen_on_loop (-1) addrs) w) = [3; 4] /\
  closed_sockets (emitted (listen_on_loop (-1) addrs) w) = [3].
Proof.
  intros w addrs.
  assert (Hsock : -1 < 0) by lia.
  destruct (listen_on_loop_leaks_no_socket addrs (-1) w Hsock) as (z & Hz & Hacc & _).
  assert (Hv : (listen_on_loop (-1) addrs w).1 = Val 4) by reflexivity.
  split; [exact Hv|]. split; reflexivity.
Defined.

Lemma ask_run (w : World) : ask w = (Val (oracle w (tick w)), set_tick (S (tick w)) w).
Proof. reflexivity. Qed.

Lemma call_return (m : M Z) (w w' : World) (z : Z) :
  m w = (Return z, w') -> call m w = (Val z, w').
Proof. intros H. unfold call. by rewrite H. Qed.

Lemma bind_return {A B} (m : M A) (k : A -> M B) (w w' : World) (z : Z) :
  m w = (Return z, w') -> bind m k w = (Return z, w').
Proof. intros H. unfold bind. by rewrite H. Qed.

Lemma listen_on_run (host port : string) (w : World) :
  exists z w' evs,
    listen_on host port w = (Val z, w') /\
    trace w' = trace w ++ evs /\
    (r_ret (oracle w (tick w)) <> 0 ->
       z = -1 /\
       evs = [EvSys (SysGetaddrinfo host port) (r_ret (oracle w (tick w)));
              EvStderr "getaddrinfo: %s"]) /\
    (z = -1 \/
     (z = 1 /\ last evs = Some (EvPerror "fcntl(FD_CLOEXEC) (listening)")) \/
     (0 <= z /\
      exists pre a r,
        evs = pre ++ [EvSys (SysBind z a) 0; EvSys SysFreeaddrinfo 0;
                      EvSys (SysFcntl z F_SETFL O_NONBLOCK) 0;
                      EvSys (SysFcntl z F_SETFD FD_CLOEXEC) 0;
                      EvSys (SysListen z 32) r] /\
        0 <= r)).
Proof.
  unfold listen_on.
  set (g := r_ret (oracle w (tick w))).
  destruct (g =? 0) eqn:Hg.
  - assert (Hg0 : g = 0) by (by apply Z.eqb_eq).
    set (w1 := set_trace (fun t => t ++ [EvSys (SysGetaddrinfo host port) g])
                 (set_tick (S (tick w)) w)).
    destruct (listen_on_loop_run (r_addrs (oracle w (tick w))) (-1) w1)
      as (s & w2 & evs & Hloop & Ht & _ & Hlast & _); [lia|].
    set (w3 := set_trace (fun t => t ++ [EvSys SysFreeaddrinfo 0]) w2).
    set (f1 := r_ret (oracle w3 (tick w3))).
    set (f2 := r_ret (oracle w3 (S (tick w3)))).
    set (l := r_ret (oracle w3 (S (S (tick w3))))).
    assert (Ht3 : trace w3 = trace w ++ EvSys (SysGetaddrinfo host port) g :: evs ++
                                        [EvSys SysFreeaddrinfo 0]).
    { subst w3. simpl. rewrite Ht. subst w1. simpl. by rewrite <- !app_assoc. }
    assert (Hbody : forall (k : Z -> M Z),
              (r <- ask ;; emit (EvSys (SysGetaddrinfo host port) (r_ret r)) ;;
               if negb (r_ret r =? 0) then fprintf_stderr "getaddrinfo: %s" ;; return_ (-1)
               else sock <- listen_on_loop (-1) (r_addrs r) ;;
                    emit (EvSys SysFreeaddrinfo 0) ;; k sock) w = k s w3).
    { intros k. rewrite (bind_val _ _ _ _ _ (ask_run w)).
      rewrite (bind_val _ _ _ _ _ (emit_run _ _)). fold g. rewrite Hg. cbn [negb].
      fold w1. rewrite (bind_val _ _ _ _ _ Hloop).
      by rewrite (bind_val _ _ _ _ _ (emit_run _ _)). }
    destruct (s <? 0) eqn:Hs.
    { exists (-1), w3, (EvSys (SysGetaddrinfo host port) g :: evs ++ [EvSys SysFreeaddrinfo 0]).
      split; [|split; [exact Ht3|split; [intros Hne; by destruct (Hne Hg0)|by left]]].
      apply call_return. rewrite Hbody. by rewrite Hs. }
    apply Z.ltb_ge in Hs. destruct (Hlast Hs) as (pre & a & -> & _).
    destruct (f1 =? 0) eqn:Hf1.
    2:{ eexists (-1), _, _. split; [|split; [|split; [intros Hne; by destruct (Hne Hg0)|by left]]].
        - apply call_return. rewrite Hbody. apply Z.ltb_ge in Hs. rewrite Hs.
          rewrite (bind_val _ _ _ _ _ (syscall_run _ _)). fold f1. rewrite Hf1. cbn [Z.eqb negb].
          unfold perror. rewrite (bind_val _ _ _ _ _ (emit_run _ _)). reflexivity.
        - goal_simpl. rewrite Ht3. by rewrite <- !app_assoc. }
    apply Z.eqb_eq in Hf1.
    destruct (f2 =? 0) eqn:Hf2.
    2:{ eexists 1, _, _. split; [|split; [|split; [intros Hne; by destruct (Hne Hg0)|]]].
        - apply call_return. rewrite Hbody. apply Z.ltb_ge in Hs. rewrite Hs.
          rewrite (bind_val _ _ _ _ _ (syscall_run _ _)). fold f1. rewrite Hf1. cbn [Z.eqb negb].
          rewrite (bind_val _ _ _ _ _ (syscall_run _ _)). goal_simpl.
          fold f2. rewrite Hf2. cbn [Z.eqb negb].
          unfold perror. rewrite (bind_val _ _ _ _ _ (emit_run _ _)). reflexivity.
        - goal_simpl. rewrite Ht3. by rewrite <- !app_assoc.
        - right. left. split; [done|]. rewrite !app_comm_cons, !app_assoc. apply last_snoc. }
    apply Z.eqb_eq in Hf2.
    assert (Hrun3 : forall k : Z -> M Z,
              (rc <- syscall (SysFcntl s F_SETFL O_NONBLOCK) ;;
               if negb (rc =? 0) then perror "fcntl(O_NONBLOCK) (listening)" ;; return_ (-1)
               else rc <- syscall (SysFcntl s F_SETFD FD_CLOEXEC) ;;
                    if negb (rc =? 0)
                    then perror "fcntl(FD_CLOEXEC) (listening)" ;; return_ 1
                    else rc <- syscall (SysListen s 32) ;; k rc) w3 =
              k l (answered (EvSys (SysListen s 32) l)
                     (answered (EvSys (SysFcntl s F_SETFD FD_CLOEXEC) 0)
                        (answered (EvSys (SysFcntl s F_SETFL O_NONBLOCK) 0) w3)))).
    { intros k. rewrite (bind_val _ _ _ _ _ (syscall_run _ _)). fold f1. rewrite Hf1. cbn [Z.eqb negb].
      rewrite (bind_val _ _ _ _ _ (syscall_run _ _)). goal_simpl.
      fold f2. rewrite Hf2. cbn [Z.eqb negb].
      rewrite (bind_val _ _ _ _ _ (syscall_run _ _)). reflexivity. }
    apply Z.ltb_ge in Hs.
    destruct (l <? 0) eqn:Hl.
    + eexists (-1), _, _. split; [|split; [|split; [intros Hne; by destruct (Hne Hg0)|by left]]].
      * apply call_return. rewrite Hbody, Hs, Hrun3, Hl.
        unfold perror. rewrite (bind_val _ _ _ _ _ (emit_run _ _)). reflexivity.
      * goal_simpl. rewrite Ht3. by rewrite <- !app_assoc.
    + eexists s, _, _. split; [|split; [|split; [intros Hne; by destruct (Hne Hg0)|]]].
      * apply call_return. rewrite Hbody, Hs, Hrun3, Hl. reflexivity.
      * goal_simpl. rewrite Ht3. by rewrite <- !app_assoc.
      * right. right. apply Z.ltb_ge in Hs, Hl. split; [exact Hs|].
        exists (EvSys (SysGetaddrinfo host port) g :: pre), a, l. split; [|exact Hl].
        simpl. by rewrite <- !app_assoc.
  - apply Z.eqb_neq in Hg.
    eexists (-1), _, _. split; [|split; [|split; [|by left]]].
    + apply call_return. rewrite (bind_val _ _ _ _ _ (ask_run w)).
      rewrite (bind_val _ _ _ _ _ (emit_run _ _)). fold g.
      apply Z.eqb_neq in Hg. rewrite Hg. simpl. unfold fprintf_stderr.
      rewrite (bind_val _ _ _ _ _ (emit_run _ _)). reflexivity.
    + simpl. by rewrite <- !app_assoc.
    + intros _. done.
Qed.

(** X2.  [listen_on] always returns.  It returns -1; or 1, after
    [fcntl(FD_CLOEXEC)] failed; or a descriptor on which, as its last five
    calls, [bind] succeeded, the list of addresses was freed, both [fcntl]
    succeeded and [listen] succeeded.  When the resolver fails it returns
    -1 after one line on the standard error, without creating a socket. *)
Theorem listen_on_result (host port : string) (w : World) :
  exists z,
    (listen_on host port w).1 = Val z /\
    let evs := emitted (listen_on host port) w in
    (r_ret (oracle w (tick w)) <> 0 ->
       z = -1 /\
       evs = [EvSys (SysGetaddrinfo host port) (r_ret (oracle w (tick w)));
              EvStderr "getaddrinfo: %s"]) /\
    (z = -1 \/
     (z = 1 /\ last evs = Some (EvPerror "fcntl(FD_CLOEXEC) (listening)")) \/
     (0 <= z /\
      exists pre a r,
        evs = pre ++ [EvSys (SysBind z a) 0; EvSys SysFreeaddrinfo 0;
                      EvSys (SysFcntl z F_SETFL O_NONBLOCK) 0;
                      EvSys (SysFcntl z F_SETFD FD_CLOEXEC) 0;
                      EvSys (SysListen z 32) r] /\
        0 <= r)).
Proof.
  destruct (listen_on_run host port w) as (z & w' & evs & Hrun & Ht & Hgai & Hres).
  exists z. split; [by rewrite Hrun|]. cbv zeta.
  by rewrite (emitted_run _ _ _ _ _ Hrun Ht).
Qed.

(** ** The signal descriptor *)

(** X3.  [register_signal_handler] never returns a negative number: it
    returns 1 when [signalfd] or [sigprocmask] fails, and the descriptor
    that [signalfd] gave otherwise.  So the test [signal_fd < 0] in [main]
    never holds. *)
Theorem register_signal_handler_never_negative (w : World) :
  exists z,
    (register_signal_handler w).1 = Val z /\
    0 <= z /\
    let s := r_ret (oracle w (tick w)) in
    let m := r_ret (oracle w (S (tick w))) in
    emitted register_signal_handler w =
      (if s <? 0 then [EvSys SysSignalfd s; EvPerror "signalfd"]
       else if m <? 0
            then [EvSys SysSignalfd s; EvSys SysSigprocmask m; EvPerror "sigprocmask"]
            else [EvSys SysSignalfd s; EvSys SysSigprocmask m]) /\
    z = (if s <? 0 then 1 else if m <? 0 then 1 else s).
Proof.
  cbv zeta. unfold register_signal_handler.
  set (s := r_ret (oracle w (tick w))). set (m := r_ret (oracle w (S (tick w)))).
  destruct (s <? 0) eqn:Hs; [|destruct (m <? 0) eqn:Hm].
  - assert (Hrun : call (signal_fd <- syscall SysSignalfd ;;
                         if signal_fd <? 0 then perror "signalfd" ;; return_ 1
                         else rc <- syscall SysSigprocmask ;;
                              if rc <? 0 then perror "sigprocmask" ;; return_ 1
                              else return_ signal_fd) w =
                   (Val 1, set_trace (fun t => t ++ [EvPerror "signalfd"])
                             (answered (EvSys SysSignalfd s) w))).
    { apply call_return. rewrite (bind_val _ _ _ _ _ (syscall_run _ w)). fold s.
      rewrite Hs. unfold perror. by rewrite (bind_val _ _ _ _ _ (emit_run _ _)). }
    exists 1. rewrite Hrun. split; [done|]. split; [lia|]. split; [|done].
    eapply emitted_run; [exact Hrun|]. goal_simpl. by rewrite <- app_assoc.
  - assert (Hrun : call (signal_fd <- syscall SysSignalfd ;;
                         if signal_fd <? 0 then perror "signalfd" ;; return_ 1
                         else rc <- syscall SysSigprocmask ;;
                              if rc <? 0 then perror "sigprocmask" ;; return_ 1
                              else return_ signal_fd) w =
                   (Val 1, set_trace (fun t => t ++ [EvPerror "sigprocmask"])
                             (answered (EvSys SysSigprocmask m)
                                (answered (EvSys SysSignalfd s) w)))).
    { apply call_return. rewrite (bind_val _ _ _ _ _ (syscall_run _ w)). fold s.
      rewrite Hs. rewrite (bind_val _ _ _ _ _ (syscall_run _ _)). goal_simpl. fold m.
      rewrite Hm. unfold perror. by rewrite (bind_val _ _ _ _ _ (emit_run _ _)). }
    exists 1. rewrite Hrun. split; [done|]. split; [lia|]. split; [|done].
    eapply emitted_run; [exact Hrun|]. goal_simpl. by rewrite <- !app_assoc.
  - assert (Hrun : call (signal_fd <- syscall SysSignalfd ;;
                         if signal_fd <? 0 then perror "signalfd" ;; return_ 1
                         else rc <- syscall SysSigprocmask ;;
                              if rc <? 0 then perror "sigprocmask" ;; return_ 1
                              else return_ signal_fd) w =
                   (Val s, answered (EvSys SysSigprocmask m)
                             (answered (EvSys SysSignalfd s) w))).
    { apply call_return. rewrite (bind_val _ _ _ _ _ (syscall_run _ w)). fold s.
      rewrite Hs. rewrite (bind_val _ _ _ _ _ (syscall_run _ _)). goal_simpl. fold m.
      by rewrite Hm. }
    exists s. rewrite Hrun. split; [done|]. apply Z.ltb_ge in Hs. split; [lia|].
    split; [|done].
    eapply emitted_run; [exact Hrun|]. goal_simpl. by rewrite <- !app_assoc.
Qed.

(** ** The life of a connection record *)

Lemma malloc_gives (w : World) (p : Z) : (malloc w).1 = Val p -> p = brk w + 1.
Proof. rewrite malloc_run. by intros [= <-]. Qed.

Lemma create_conn_data_run_alloc (epoll new_fd : Z) (w : World) :
  brk w + 1 <> NULL -> 0 <= r_ret (oracle w (tick w)) ->
  let p := brk w + 1 in
  let rc := r_ret (oracle w (tick w)) in
  create_conn_data epoll new_fd w =
    (Val p,
     set_trace (fun t => t ++
         [EvMalloc p;
          EvSys (SysEpollCtl epoll EPOLL_CTL_ADD new_fd (Some (KeyConn p))) rc])
       (set_heap (insert p (mk_conn_data new_fd None None))
          (set_brk p (set_tick (S (tick w)) w)))).
Proof.
  intros Hp Hrc p rc. subst p rc.
  assert (Hlt : (r_ret (oracle w (tick w)) <? 0) = false) by (apply Z.ltb_ge; lia).
  unfold create_conn_data. do 2 step. rewrite Hlt. run. same_world.
  - by rewrite !insert_insert_eq.
  - by rewrite Hlt.
Qed.

Lemma create_conn_data_run_null (epoll new_fd : Z) (w : World) :
  brk w + 1 = NULL -> 0 <= r_ret (oracle w (tick w)) ->
  exists w',
    create_conn_data epoll new_fd w = (Fault NullDeref, w') /\
    ios w' = ios w /\ tasks w' = tasks w /\
    trace w' = trace w ++
      [EvMalloc NULL;
       EvSys (SysEpollCtl epoll EPOLL_CTL_ADD new_fd (Some (KeyConn NULL)))
         (r_ret (oracle w (tick w)))].
Proof.
  intros Hp Hrc.
  assert (Hlt : (r_ret (oracle w (tick w)) <? 0) = false) by (apply Z.ltb_ge; lia).
  unfold create_conn_data. do 2 step. rewrite Hlt, Hp.
  eexists. split.
  { apply bind_fault. unfold set_fd. apply bind_fault. reflexivity. }
  goal_simpl. rewrite ?Hlt. goal_simpl.
  split; [reflexivity|]. split; [reflexivity|]. by rewrite <- app_assoc.
Qed.



Lemma main_accepted_ok (epoll : Z) (opts exec : nat) (new_fd : Z) (w : World) :
  brk w + 1 <> NULL ->
  r_ret (oracle w (S (tick w))) = 0 ->
  r_ret (oracle w (S (S (tick w)))) = 0 ->
  0 <= r_ret (oracle w (S (S (S (tick w))))) ->
  let p := brk w + 1 in
  let io := next_id w in
  let task := S (S io) in
  let rc := r_ret (oracle w (tick w)) in
  exists w',
    main_accepted epoll opts exec new_fd w = (Val tt, w') /\
    heap w' = <[p := mk_conn_data new_fd None None]> (heap w) /\
    ios w' = <[io := p]> (ios w) /\
    tasks w' = <[task := p]> (tasks w) /\
    trace w' = trace w ++
      EvSys SysGetnameinfo rc ::
      (if rc <? 0
       then [EvPerror "getnameinfo"; EvPrintf "New incoming connection from (unknown)" []]
       else [EvPrintf "New incoming connection from (%s:%s)" []]) ++
      [EvSys (SysFcntl new_fd F_SETFL O_NONBLOCK) 0;
       EvSys (SysFcntl new_fd F_SETFD FD_CLOEXEC) 0;
       EvMalloc p;
       EvSys (SysEpollCtl epoll EPOLL_CTL_ADD new_fd (Some (KeyConn p)))
         (r_ret (oracle w (S (S (S (tick w))))));
       EvHyper (HyIoNew io); EvHyper (HyIoSetUserdata io p);
       EvHyper (HyIoSetRead io); EvHyper (HyIoSetWrite io);
       EvHyper (HyServiceNew (S io)); EvHyper (HyServeConnection opts io (S io) task);
       EvHyper (HyTaskSetUserdata task p); EvHyper (HyExecutorPush exec task)].
Proof.
  intros Hb H1 H2 H3 p io task rc. subst p io task rc. unfold main_accepted, create_io.
  step.
  destruct (r_ret (oracle w (tick w)) <? 0) eqn:Hr0.
  - do 3 step. rewrite H1. cbn [Z.eqb negb]. step. rewrite H2. cbn [Z.eqb negb].
    erewrite bind_val
      by (apply create_conn_data_run_alloc; goal_simpl; rewrite ?Hr0; goal_simpl; assumption).
    repeat step. eexists. split; [last_step; reflexivity|].
    goal_simpl. rewrite ?Hr0. goal_simpl.
    repeat split. by rewrite <- !app_assoc.
  - do 2 step. rewrite H1. cbn [Z.eqb negb]. step. rewrite H2. cbn [Z.eqb negb].
    erewrite bind_val
      by (apply create_conn_data_run_alloc; goal_simpl; rewrite ?Hr0; goal_simpl; assumption).
    repeat step. eexists. split; [last_step; reflexivity|].
    goal_simpl. rewrite ?Hr0. goal_simpl.
    repeat split. by rewrite <- !app_assoc.
Qed.

Lemma main_accepted_malloc_null (epoll : Z) (opts exec : nat) (new_fd : Z) (w : World) :
  brk w + 1 = NULL ->
  r_ret (oracle w (S (tick w))) = 0 ->
  r_ret (oracle w (S (S (tick w)))) = 0 ->
  0 <= r_ret (oracle w (S (S (S (tick w))))) ->
  exists w',
    main_accepted epoll opts exec new_fd w = (Fault NullDeref, w') /\
    ios w' = ios w /\ tasks w' = tasks w /\
    last (trace w') =
      Some (EvSys (SysEpollCtl epoll EPOLL_CTL_ADD new_fd (Some (KeyConn NULL)))
              (r_ret (oracle w (S (S (S (tick w))))))).
Proof.
  intros Hb H1 H2 H3. unfold main_accepted.
  step.
  destruct (r_ret (oracle w (tick w)) <? 0) eqn:Hr0.
  - do 3 step. rewrite H1. cbn [Z.eqb negb]. step. rewrite H2. cbn [Z.eqb negb].
    match goal with
    | |- context [bind (create_conn_data epoll new_fd) ?k ?x] =>
        destruct (create_conn_data_run_null epoll new_fd x) as (w4 & Hrun & Hi & Hk & Ht);
          [goal_simpl; rewrite ?Hr0; goal_simpl; assumption ..|];
          rewrite (bind_fault _ _ _ _ _ Hrun)
    end.
    exists w4. split; [reflexivity|]. revert Hi Hk Ht.
    goal_simpl. rewrite ?Hr0. goal_simpl. intros Hi Hk Ht.
    split; [done|]. split; [done|]. rewrite Ht.
    match goal with
    | |- last (?t ++ [?a; ?e]) = _ => change (t ++ [a; e]) with (t ++ [a] ++ [e])
    end.
    rewrite app_assoc. apply last_snoc.
  - do 2 step. rewrite H1. cbn [Z.eqb negb]. step. rewrite H2. cbn [Z.eqb negb].
    match goal with
    | |- context [bind (create_conn_data epoll new_fd) ?k ?x] =>
        destruct (create_conn_data_run_null epoll new_fd x) as (w4 & Hrun & Hi & Hk & Ht);
          [goal_simpl; rewrite ?Hr0; goal_simpl; assumption ..|];
          rewrite (bind_fault _ _ _ _ _ Hrun)
    end.
    exists w4. split; [reflexivity|]. revert Hi Hk Ht.
    goal_simpl. rewrite ?Hr0. goal_simpl. intros Hi Hk Ht.
    split; [done|]. split; [done|]. rewrite Ht.
    match goal with
    | |- last (?t ++ [?a; ?e]) = _ => change (t ++ [a; e]) with (t ++ [a] ++ [e])
    end.
    rewrite app_assoc. apply last_snoc.
Qed.

Lemma main_accepted_keeps (epoll : Z) (opts exec : nat) (new_fd : Z) :
  preserves keeps_Inv (main_accepted epoll opts exec new_fd).
Proof.
  unfold main_accepted, create_io, hyper_io_new, hyper_io_set_userdata,
    hyper_io_set_read, hyper_io_set_write, hyper_service_new, hyper_serve_connection,
    hyper_task_set_userdata, hyper_executor_push.
  preserves_tac.
Qed.

(** X5.  The accept path when both [fcntl] and the registration with epoll
    succeed.  If the pointer that [malloc] gave is not null, a record for
    the new descriptor is made there, and that pointer is set as the
    user-data of the I/O binding, before the callbacks are installed, and as
    the user-data of the task, which is pushed to the executor last.  If
    [malloc] gave the null pointer, the program dereferences it before any
    call to the engine. *)
Theorem accepted_connection_is_wired (epoll : Z) (opts exec : nat) (new_fd : Z)
    (w : World) (p : Z) :
  (malloc w).1 = Val p ->
  r_ret (oracle w (S (tick w))) = 0 ->
  r_ret (oracle w (S (S (tick w)))) = 0 ->
  0 <= r_ret (oracle w (S (S (S (tick w))))) ->
  let io := next_id w in
  let task := S (S io) in
  let out := main_accepted epoll opts exec new_fd w in
  (p <> NULL ->
     out.1 = Val tt /\
     heap out.2 = <[p := mk_conn_data new_fd None None]> (heap w) /\
     ios out.2 = <[io := p]> (ios w) /\
     tasks out.2 = <[task := p]> (tasks w) /\
     (exists pre,
        trace out.2 = pre ++
          [EvMalloc p;
           EvSys (SysEpollCtl epoll EPOLL_CTL_ADD new_fd (Some (KeyConn p)))
             (r_ret (oracle w (S (S (S (tick w))))));
           EvHyper (HyIoNew io); EvHyper (HyIoSetUserdata io p);
           EvHyper (HyIoSetRead io); EvHyper (HyIoSetWrite io);
           EvHyper (HyServiceNew (S io)); EvHyper (HyServeConnection opts io (S io) task);
           EvHyper (HyTaskSetUserdata task p); EvHyper (HyExecutorPush exec task)]) /\
     (Inv w -> heap w !! p = None /\ Inv out.2)) /\
  (p = NULL ->
     out.1 = Fault NullDeref /\ ios out.2 = ios w /\ tasks out.2 = tasks w /\
     last (trace out.2) =
       Some (EvSys (SysEpollCtl epoll EPOLL_CTL_ADD new_fd (Some (KeyConn NULL)))
               (r_ret (oracle w (S (S (S (tick w)))))))).
Proof.
  intros Hm H1 H2 H3 io task out. subst io task out. apply malloc_gives in Hm. subst p.
  split.
  - intros Hp.
    destruct (main_accepted_ok epoll opts exec new_fd w Hp H1 H2 H3)
      as (w' & Hrun & Hh & Hio & Htask & Htr).
    rewrite Hrun. split; [done|]. split; [done|]. split; [done|]. split; [done|]. split.
    + eexists. cbn [snd]. rewrite Htr.
      match goal with
      | |- ?t ++ ?a :: ?said ++ ?f1 :: ?f2 :: ?rest = _ =>
          change (t ++ a :: said ++ f1 :: f2 :: rest)
            with (t ++ (a :: said ++ [f1; f2] ++ rest))
      end.
      rewrite (app_comm_cons _ _ (EvSys SysGetnameinfo _)), !app_assoc. reflexivity.
    + intros HI. pose proof (inv_brk _ _ _ _ HI) as Hb.
      split; [apply (Inv_unallocated _ _ _ _ HI); lia|].
      pose proof (main_accepted_keeps epoll opts exec new_fd w HI) as HK.
      by rewrite Hrun in HK.
  - intros Hp.
    destruct (main_accepted_malloc_null epoll opts exec new_fd w Hp H1 H2 H3)
      as (w' & Hrun & Hio & Htask & Htr).
    by rewrite Hrun.
Qed.

Lemma accepted_connection_is_wired_witness :
  let w := init_world (script [answer 0; answer 0; answer 0; answer 0]) in
  let out := main_accepted 4 1 0 9 w in
  out.1 = Val tt /\
  heap out.2 = {[1 := mk_conn_data 9 None None]} /\
  ios out.2 !! 0%nat = Some 1 /\
  tasks out.2 !! 2%nat = Some 1 /\
  (main_accepted 4 1 0 9 (set_brk (-1) w)).1 = Fault NullDeref.
Proof.
  intros w out.
  assert (H3 : 0 <= r_ret (oracle w (S (S (S (tick w)))))) by (simpl; lia).
  destruct (accepted_connection_is_wired 4 1 0 9 w 1 eq_refl eq_refl eq_refl H3)
    as [Hok _].
  destruct Hok as (Hv & Hh & Hio & Htask & _); [done|].
  destruct (accepted_connection_is_wired 4 1 0 9 (set_brk (-1) w) NULL
              eq_refl eq_refl eq_refl H3) as [_ Hnull].
  split; [exact Hv|]. split; [exact Hh|].
  split; [subst out; rewrite Hio; reflexivity|].
  split; [subst out; rewrite Htask; reflexivity|].
  by apply Hnull.
Defined.

Lemma destroyed_run (epoll conn : Z) (w : World) (c : conn_data) :
  Inv w -> heap w !! conn = Some c ->
  exists w',
    free_conn_data epoll conn w = (Val tt, w') /\
    heap w' = delete conn (heap w) /\
    live w' = without (write_waker c) (without (read_waker c) (live w)) /\
    tasks w' = tasks w /\
    trace w' = trace w ++ destroyed epoll conn c w.
Proof.
  intros HI Hc.
  assert (Hp : conn <> NULL) by (by eapply Inv_not_null).
  pose proof (free_conn_data_run epoll conn w c Hp Hc (Inv_wakers_ok w conn c HI Hc)) as Hrun.
  cbv zeta in Hrun. eexists. split; [exact Hrun|]. by repeat split.
Qed.

Lemma destroyed_same (epoll conn : Z) (c : conn_data) (w w0 : World) :
  oracle w0 = oracle w -> tick w0 = tick w ->
  destroyed epoll conn c w0 = destroyed epoll conn c w.
Proof. intros Ho Ht. unfold destroyed. by rewrite Ho, Ht. Qed.

(** X6.  A completed task of the empty type.  When its user-data is a
    connection record, one line is printed, the record is destroyed (its
    descriptor deregistered and closed, its wakers freed, its memory
    released) and then the task is freed.  When its user-data is null,
    which is the case of the engine's own tasks, another line is printed
    and the task is freed; no record is touched. *)
Theorem completed_task_empty (epoll : Z) (t : completed) (w : World) :
  Inv w ->
  let conn := default NULL (tasks w !! c_task t) in
  let out := main_task_empty epoll t w in
  (forall c, heap w !! conn = Some c ->
     out.1 = Val tt /\
     heap out.2 = delete conn (heap w) /\
     live out.2 = without (write_waker c) (without (read_waker c) (live w)) /\
     tasks out.2 = delete (c_task t) (tasks w) /\
     emitted (main_task_empty epoll t) w =
       EvPrintf "server connection complete" [] ::
       destroyed epoll conn c w ++ [EvHyper (HyTaskFree (c_task t))]) /\
  (conn = NULL ->
     out =
       (Val tt,
        set_trace (fun tr => tr ++ [EvPrintf "internal hyper task complete" [];
                                    EvHyper (HyTaskFree (c_task t))])
          (set_tasks (delete (c_task t)) w))).
Proof.
  intros HI conn out. subst out. split.
  - intros c Hc.
    assert (Hp : conn <> NULL) by (by eapply Inv_not_null).
    set (w1 := set_trace (fun tr => tr ++ [EvPrintf "server connection complete" []]) w).
    destruct (destroyed_run epoll conn w1 c HI Hc) as (w2 & Hrun & Hh & Hl & Hts & Ht).
    assert (Hout : main_task_empty epoll t w =
                   (Val tt, set_trace (fun tr => tr ++ [EvHyper (HyTaskFree (c_task t))])
                              (set_tasks (delete (c_task t)) w2))).
    { unfold main_task_empty.
      rewrite (bind_val _ _ _ _ _ (hyper_task_userdata_run _ w)). fold conn.
      apply Z.eqb_neq in Hp. rewrite Hp. cbn [negb].
      unfold printf. rewrite bind_assoc. rewrite (bind_val _ _ _ _ _ (emit_run _ w)).
      fold w1. by rewrite (bind_val _ _ _ _ _ Hrun), hyper_task_free_run. }
    rewrite Hout. goal_simpl.
    split; [done|]. split; [exact Hh|]. split; [exact Hl|]. split; [by rewrite Hts|].
    rewrite (destroyed_same epoll conn c w w1 eq_refl eq_refl) in Ht.
    eapply emitted_run; [exact Hout|]. goal_simpl. rewrite Ht. subst w1. goal_simpl.
    by rewrite <- !app_assoc.
  - intros Hnull. unfold main_task_empty.
    rewrite (bind_val _ _ _ _ _ (hyper_task_userdata_run _ w)). fold conn.
    rewrite Hnull. cbn [Z.eqb negb NULL].
    unfold printf. rewrite (bind_val _ _ _ _ _ (emit_run _ w)), hyper_task_free_run.
    f_equal. world_eq.
Qed.

Lemma completed_task_empty_witness :
  let w := (main_accepted 4 1 0 9 (init_world (script []))).2 in
  let t := mk_completed 2 HYPER_TASK_EMPTY 0 0 in
  (main_task_empty 4 t w).1 = Val tt /\
  heap (main_task_empty 4 t w).2 = delete 1 (heap w) /\
  emitted (main_task_empty 4 t) w =
    [EvPrintf "server connection complete" [];
     EvSys (SysEpollCtl 4 EPOLL_CTL_DEL 9 None) 0; EvSys (SysClose 9) 0; EvFree 1;
     EvHyper (HyTaskFree 2)].
Proof.
  intros w t.
  assert (HI : Inv w) by apply main_accepted_keeps, Inv_init.
  destruct (completed_task_empty 4 t w HI) as [Hrec _].
  destruct (Hrec (mk_conn_data 9 None None) eq_refl) as (Hv & Hh & _ & _ & He).
  split; [exact Hv|]. split; [exact Hh|]. exact He.
Defined.

(** X7.  A completed task of the error type: three lines are printed (the
    error code and the length of the message among them), the error is
    freed, then the connection record of the task, if it has one, is
    destroyed, and the task is freed last. *)
Theorem completed_task_error (epoll : Z) (t : completed) (w : World) :
  Inv w ->
  let conn := default NULL (tasks w !! c_task t) in
  let out := main_task_error epoll t w in
  let report := [EvPrintf "handshake error!" [];
                 EvPrintf "error code: %d" [c_error_code t];
                 EvPrintf "details: %.*s" [c_error_len t];
                 EvHyper (HyErrorFree (c_task t))] in
  (forall c, heap w !! conn = Some c ->
     out.1 = Val tt /\
     heap out.2 = delete conn (heap w) /\
     live out.2 = without (write_waker c) (without (read_waker c) (live w)) /\
     tasks out.2 = delete (c_task t) (tasks w) /\
     emitted (main_task_error epoll t) w =
       report ++ destroyed epoll conn c w ++ [EvHyper (HyTaskFree (c_task t))]) /\
  (conn = NULL ->
     out =
       (Val tt,
        set_trace (fun tr => tr ++ report ++ [EvHyper (HyTaskFree (c_task t))])
          (set_tasks (delete (c_task t)) w))).
Proof.
  intros HI conn out report. subst out.
  set (w1 := set_trace (fun tr => tr ++ report) w).
  assert (Hhead : forall k : M unit,
            (printf "handshake error!" [] ;;
             printf "error code: %d" [c_error_code t] ;;
             printf "details: %.*s" [c_error_len t] ;;
             hyper_error_free (c_task t) ;;
             conn <- hyper_task_userdata (c_task t) ;;
             when (negb (conn =? NULL)) (free_conn_data epoll conn) ;; k) w =
            (when (negb (conn =? NULL)) (free_conn_data epoll conn) ;; k) w1).
  { intros k. unfold printf, hyper_error_free, hy.
    rewrite !(bind_val _ _ _ _ _ (emit_run _ _)).
    rewrite (bind_val _ _ _ _ _ (hyper_task_userdata_run _ _)). goal_simpl. fold conn.
    f_equal. subst w1 report. world_eq. }
  split.
  - intros c Hc.
    assert (Hp : conn <> NULL) by (by eapply Inv_not_null).
    destruct (destroyed_run epoll conn w1 c HI Hc) as (w2 & Hrun & Hh & Hl & Hts & Ht).
    assert (Hout : main_task_error epoll t w =
                   (Val tt, set_trace (fun tr => tr ++ [EvHyper (HyTaskFree (c_task t))])
                              (set_tasks (delete (c_task t)) w2))).
    { unfold main_task_error. rewrite Hhead.
      apply Z.eqb_neq in Hp. rewrite Hp. cbn [negb when].
      by rewrite (bind_val _ _ _ _ _ Hrun), hyper_task_free_run. }
    rewrite Hout. goal_simpl.
    split; [done|]. split; [exact Hh|]. split; [exact Hl|]. split; [by rewrite Hts|].
    rewrite (destroyed_same epoll conn c w w1 eq_refl eq_refl) in Ht.
    eapply emitted_run; [exact Hout|]. goal_simpl. rewrite Ht. subst w1. goal_simpl.
    by rewrite <- !app_assoc.
  - intros Hnull. unfold main_task_error. rewrite Hhead, Hnull. cbn [Z.eqb negb NULL when].
    rewrite (bind_val _ _ _ _ _ (ret_run _ _)), hyper_task_free_run.
    f_equal. subst w1. world_eq.
Qed.

Lemma completed_task_error_witness :
  let w := (main_accepted 4 1 0 9 (init_world (script []))).2 in
  let t := mk_completed 2 HYPER_TASK_ERROR 7 20 in
  (main_task_error 4 t w).1 = Val tt /\
  heap (main_task_error 4 t w).2 = delete 1 (heap w) /\
  emitted (main_task_error 4 t) w =
    [EvPrintf "handshake error!" []; EvPrintf "error code: %d" [7];
     EvPrintf "details: %.*s" [20]; EvHyper (HyErrorFree 2);
     EvSys (SysEpollCtl 4 EPOLL_CTL_DEL 9 None) 0; EvSys (SysClose 9) 0; EvFree 1;
     EvHyper (HyTaskFree 2)].
Proof.
  intros w t.
  assert (HI : Inv w) by apply main_accepted_keeps, Inv_init.
  destruct (completed_task_error 4 t w HI) as [Hrec _].
  destruct (Hrec (mk_conn_data 9 None None) eq_refl) as (Hv & Hh & _ & _ & He).
  split; [exact Hv|]. split; [exact Hh|]. exact He.
Defined.

(** ** The ways out of [main] *)

Lemma register_signal_handler_run (w : World) :
  exists z, register_signal_handler w = (Val z, (register_signal_handler w).2) /\ 0 <= z.
Proof.
  unfold register_signal_handler.
  set (body := (signal_fd <- syscall SysSignalfd ;; _)).
  assert (Hbody : exists z w', body w = (Return z, w') /\ 0 <= z).
  { subst body. rewrite (bind_val _ _ _ _ _ (syscall_run _ w)).
    destruct (r_ret (oracle w (tick w)) <? 0) eqn:Hs.
    - unfold perror. rewrite (bind_val _ _ _ _ _ (emit_run _ _)).
      eexists 1, _. split; [reflexivity | lia].
    - rewrite (bind_val _ _ _ _ _ (syscall_run _ _)).
      match goal with |- context [if ?b then _ else _] => destruct b end.
      + unfold perror. rewrite (bind_val _ _ _ _ _ (emit_run _ _)).
        eexists 1, _. split; [reflexivity | lia].
      + apply Z.ltb_ge in Hs. eexists _, _. split; [reflexivity | exact Hs]. }
  destruct Hbody as (z & w' & Hb & Hz). exists z.
  rewrite (call_return _ _ _ _ Hb). by split.
Qed.

(** X8.  The failures of set-up that [main] notices.  When [listen_on]
    returns a negative number, [main] exits with status 1 at once.  When
    [epoll_create1] fails, or one of the two registrations with epoll,
    [main] prints the diagnostic of that call and exits with status 1.  In
    each case no further call is made: nothing that was opened is closed,
    and the engine is not started. *)
Theorem setup_failure_exits (fuel : nat) (argv : list string) (w : World) (l : Z) :
  let host := nth 1 argv "127.0.0.1"%string in
  let port := nth 2 argv "1234"%string in
  let w0 := set_trace (fun t => t ++ [EvPrintf "listening on port %s on %s..." []]) w in
  let wl := (listen_on host port w0).2 in
  let s := match (register_signal_handler wl).1 with Val s => s | _ => 0 end in
  let ws := (register_signal_handler wl).2 in
  let e := r_ret (oracle ws (tick ws)) in
  let c1 := r_ret (oracle ws (S (tick ws))) in
  let c2 := r_ret (oracle ws (S (S (tick ws)))) in
  let w1 := answered (EvSys (SysEpollCreate1 EPOLL_CLOEXEC) e) ws in
  let w2 := answered (EvSys (SysEpollCtl e EPOLL_CTL_ADD l (Some KeyListen)) c1) w1 in
  let w3 := answered (EvSys (SysEpollCtl e EPOLL_CTL_ADD s (Some KeySignal)) c2) w2 in
  let said msg w' := set_trace (fun t => t ++ [EvPerror msg]) w' in
  (listen_on host port w0).1 = Val l ->
  (l < 0 -> main fuel argv w = (Val 1, wl)) /\
  (0 <= l -> e < 0 -> main fuel argv w = (Val 1, said "epoll" w1)) /\
  (0 <= l -> 0 <= e -> c1 < 0 ->
     main fuel argv w = (Val 1, said "epoll_ctl (add listening)" w2)) /\
  (0 <= l -> 0 <= e -> 0 <= c1 -> c2 < 0 ->
     main fuel argv w = (Val 1, said "epoll_ctl (add signal)" w3)).
Proof.
  intros host port w0 wl s ws e c1 c2 w1 w2 w3 said Hl.
  apply run_value in Hl. fold wl in Hl.
  destruct (register_signal_handler_run wl) as (s' & Hs & Hs').
  assert (Hs0 : s = s') by (subst s; by rewrite Hs). fold ws in Hs. rewrite <- Hs0 in *.
  clear Hs0 s'.
  assert (Hstart : forall k : Z -> M Z,
            (printf "listening on port %s on %s..." [] ;;
             listen_fd <- listen_on host port ;; k listen_fd) w = k l wl).
  { intros k. unfold printf. rewrite (bind_val _ _ _ _ _ (emit_run _ w)). fold w0.
    by rewrite (bind_val _ _ _ _ _ Hl). }
  assert (Hsig : forall k : Z -> M Z,
            (signal_fd <- register_signal_handler ;;
             if signal_fd <? 0 then return_ 1 else k signal_fd) wl = k s ws).
  { intros k. rewrite (bind_val _ _ _ _ _ Hs).
    apply Z.ltb_ge in Hs'. by rewrite Hs'. }
  unfold main. fold host port. split; [|split; [|split]].
  - intros Hneg. apply call_return. rewrite Hstart. apply Z.ltb_lt in Hneg. by rewrite Hneg.
  - intros Hpos He. apply call_return. rewrite Hstart.
    apply Z.ltb_ge in Hpos. rewrite Hpos, Hsig.
    rewrite (bind_val _ _ _ _ _ (syscall_run _ ws)). fold e.
    apply Z.ltb_lt in He. rewrite He. unfold perror.
    by rewrite (bind_val _ _ _ _ _ (emit_run _ _)).
  - intros Hpos He Hc1. apply call_return. rewrite Hstart.
    apply Z.ltb_ge in Hpos. rewrite Hpos, Hsig.
    rewrite (bind_val _ _ _ _ _ (syscall_run _ ws)). fold e.
    apply Z.ltb_ge in He. rewrite He.
    rewrite (bind_val _ _ _ _ _ (syscall_run _ _)). goal_simpl. fold c1.
    apply Z.ltb_lt in Hc1. rewrite Hc1. unfold perror.
    by rewrite (bind_val _ _ _ _ _ (emit_run _ _)).
  - intros Hpos He Hc1 Hc2. apply call_return. rewrite Hstart.
    apply Z.ltb_ge in Hpos. rewrite Hpos, Hsig.
    rewrite (bind_val _ _ _ _ _ (syscall_run _ ws)). fold e.
    apply Z.ltb_ge in He. rewrite He.
    rewrite (bind_val _ _ _ _ _ (syscall_run _ _)). goal_simpl. fold c1.
    apply Z.ltb_ge in Hc1. rewrite Hc1.
    rewrite (bind_val _ _ _ _ _ (syscall_run _ _)). goal_simpl. fold c2.
    apply Z.ltb_lt in Hc2. rewrite Hc2. unfold perror.
    by rewrite (bind_val _ _ _ _ _ (emit_run _ _)).
Qed.

Lemma setup_failure_exits_witness :
  let w := init_world (script [resolved [an_address]; answer 3; answer 0; answer 0;
                               answer 0; answer 0; answer 0; answer 5; answer 0;
                               failure EMFILE]) in
  (main 1 [] w).1 = Val 1 /\
  drop 11 (trace (main 1 [] w).2) =
    [EvSys (SysEpollCreate1 EPOLL_CLOEXEC) (-1); EvPerror "epoll"].
Proof.
  intros w.
  destruct (setup_failure_exits 1 [] w 3 eq_refl) as (_ & Hepoll & _).
  assert (Hpos : 0 <= 3) by lia.
  assert (He : -1 < 0) by lia.
  specialize (Hepoll Hpos He). rewrite Hepoll. by split.
Defined.

Lemma epoll_wait_fail (epoll maxevents : Z) (w : World) :
  r_ret (oracle w (tick w)) < 0 ->
  epoll_wait epoll maxevents w =
    (Val (r_ret (oracle w (tick w)), []),
     answered (EvSys (SysEpollWait epoll maxevents) (r_ret (oracle w (tick w)))) w).
Proof.
  intros Hr. unfold epoll_wait. rewrite (bind_val _ _ _ _ _ (ask_run w)).
  apply Z.ltb_lt in Hr. rewrite Hr.
  unfold bind, emit, ret. cbn [fst snd]. f_equal. unfold answered. rewrite Hr. world_eq.
Qed.

(** X9.  When [epoll_wait] fails, whatever the reason, [main] prints a
    diagnostic and returns 1 from inside the loop: the statements after the
    label [EXIT] do not run, so the options and the executor are not freed,
    and the records of the connections in flight stay allocated. *)
Theorem epoll_wait_failure_skips_teardown (n : nat) (listen_fd signal_fd epoll : Z)
    (opts exec : nat) (w w1 : World) :
  main_pump (S n) epoll exec w = (Val tt, w1) ->
  r_ret (oracle w1 (tick w1)) < 0 ->
  let out := at_EXIT (main_loop (S n) listen_fd signal_fd epoll opts exec)
               (main_EXIT opts exec) w in
  out.1 = Return 1 /\
  trace out.2 = trace w1 ++
    [EvPrintf "Processed all tasks - polling for events" [];
     EvSys (SysEpollWait epoll MAX_EVENTS) (r_ret (oracle w1 (tick w1)));
     EvPerror "epoll"] /\
  heap out.2 = heap w1 /\ live out.2 = live w1.
Proof.
  intros Hpump Hr out.
  set (w2 := set_trace (fun t => t ++ [EvPrintf "Processed all tasks - polling for events" []])
               w1).
  assert (Hloop : main_loop (S n) listen_fd signal_fd epoll opts exec w =
                  (Return 1,
                   set_trace (fun t => t ++ [EvPerror "epoll"])
                     (answered (EvSys (SysEpollWait epoll MAX_EVENTS)
                                  (r_ret (oracle w1 (tick w1)))) w2))).
  { cbn [main_loop]. rewrite (bind_val _ _ _ _ _ Hpump).
    unfold printf at 1. rewrite (bind_val _ _ _ _ _ (emit_run _ w1)). fold w2.
    rewrite (bind_val _ _ _ _ _ (epoll_wait_fail epoll MAX_EVENTS w2 Hr)).
    cbn [fst snd]. change (r_ret (oracle w2 (tick w2))) with (r_ret (oracle w1 (tick w1))).
    apply Z.ltb_lt in Hr. rewrite Hr.
    unfold perror. by rewrite (bind_val _ _ _ _ _ (emit_run _ _)). }
  subst out. unfold at_EXIT. rewrite Hloop. goal_simpl. split; [done|].
  split; [|done]. subst w2. goal_simpl. by rewrite <- !app_assoc.
Qed.

Lemma epoll_wait_failure_skips_teardown_witness :
  let w := init_world (script [polled [] None; failure 4]) in
  let out := at_EXIT (main_loop 1 3 5 4 1 0) (main_EXIT 1 0) w in
  out.1 = Return 1 /\
  trace out.2 =
    [EvHyper (HyExecutorPoll 0 None);
     EvPrintf "Processed all tasks - polling for events" [];
     EvSys (SysEpollWait 4 MAX_EVENTS) (-1); EvPerror "epoll"].
Proof.
  intros w out.
  assert (Hpump : main_pump 1 4 0 w = (Val tt, (main_pump 1 4 0 w).2)) by reflexivity.
  assert (Hr : r_ret (oracle (main_pump 1 4 0 w).2 (tick (main_pump 1 4 0 w).2)) < 0)
    by (simpl; lia).
  destruct (epoll_wait_failure_skips_teardown 0 3 5 4 1 0 w _ Hpump Hr) as (Hv & Ht & _).
  split; [exact Hv|]. exact Ht.
Defined.

(** X10.  A read of the signal descriptor that does not give a whole
    signal-information record, be it a failure, a would-block failure
    included, or a short read, ends the program: [main] prints a diagnostic
    and returns 1 without looking at the remaining events. *)
Theorem short_signal_read_exits (fuel : nat) (listen_fd signal_fd epoll : Z)
    (opts exec : nat) (ev : epoll_event) (rest : list epoll_event) (w : World) :
  ev_data ev = KeySignal ->
  r_ret (oracle w (tick w)) <> sizeof_signalfd_siginfo ->
  main_events fuel listen_fd signal_fd epoll opts exec (ev :: rest) w =
    (Return 1,
     set_trace (fun t => t ++ [EvPerror "read (signal_fd)"])
       (answered (EvSys (SysRead signal_fd sizeof_signalfd_siginfo)
                    (r_ret (oracle w (tick w)))) w)).
Proof.
  intros Hev Hr. cbn [main_events]. apply bind_return.
  unfold main_event. rewrite Hev. unfold main_signal.
  rewrite (bind_val _ _ _ _ _ (syscall_r_run _ w)).
  apply Z.eqb_neq in Hr. rewrite Hr. cbn [negb].
  unfold perror. by rewrite (bind_val _ _ _ _ _ (emit_run _ _)).
Qed.

Lemma short_signal_read_exits_witness :
  let w := init_world (script [failure EAGAIN]) in
  let sig := mk_epoll_event EPOLLIN KeySignal in
  let lis := mk_epoll_event EPOLLIN KeyListen in
  (main_events 1 3 5 4 1 0 [sig; lis] w).1 = Return 1 /\
  trace (main_events 1 3 5 4 1 0 [sig; lis] w).2 =
    [EvSys (SysRead 5 128) (-1); EvPerror "read (signal_fd)"].
Proof.
  intros w sig lis.
  assert (Hr : r_ret (oracle w (tick w)) <> sizeof_signalfd_siginfo) by (by simpl).
  rewrite (short_signal_read_exits 1 3 5 4 1 0 sig [lis] w eq_refl Hr). by split.
Defined.

Lemma main_accepted_fcntl_fail (epoll : Z) (opts exec : nat) (new_fd : Z) (w : World) :
  let g := r_ret (oracle w (tick w)) in
  let f1 := r_ret (oracle w (S (tick w))) in
  let f2 := r_ret (oracle w (S (S (tick w)))) in
  f1 <> 0 \/ (f1 = 0 /\ f2 <> 0) ->
  exists w',
    main_accepted epoll opts exec new_fd w = (Return 1, w') /\
    heap w' = heap w /\
    trace w' = trace w ++
      EvSys SysGetnameinfo g ::
      (if g <? 0
       then [EvPerror "getnameinfo"; EvPrintf "New incoming connection from (unknown)" []]
       else [EvPrintf "New incoming connection from (%s:%s)" []]) ++
      (if f1 =? 0
       then [EvSys (SysFcntl new_fd F_SETFL O_NONBLOCK) f1;
             EvSys (SysFcntl new_fd F_SETFD FD_CLOEXEC) f2;
             EvPerror "fcntl(FD_CLOEXEC) (transport)"]
       else [EvSys (SysFcntl new_fd F_SETFL O_NONBLOCK) f1;
             EvPerror "fcntl(O_NONBLOCK) (transport)"]).
Proof.
  intros g f1 f2 Hfail. unfold main_accepted. step. fold g.
  destruct (g <? 0) eqn:Hg.
  - do 3 step. fold f1.
    destruct Hfail as [H1 | [H1 H2]].
    + apply Z.eqb_neq in H1. rewrite H1. cbn [negb]. step.
      eexists. split; [reflexivity|]. split; [done|].
      goal_simpl. rewrite ?Hg. goal_simpl. by rewrite <- !app_assoc.
    + rewrite H1. cbn [negb Z.eqb]. step. fold f2.
      apply Z.eqb_neq in H2. rewrite H2. cbn [negb]. step.
      eexists. split; [reflexivity|]. split; [done|].
      goal_simpl. rewrite ?Hg. goal_simpl. by rewrite <- !app_assoc.
  - do 2 step. fold f1.
    destruct Hfail as [H1 | [H1 H2]].
    + apply Z.eqb_neq in H1. rewrite H1. cbn [negb]. step.
      eexists. split; [reflexivity|]. split; [done|].
      goal_simpl. rewrite ?Hg. goal_simpl. by rewrite <- !app_assoc.
    + rewrite H1. cbn [negb Z.eqb]. step. fold f2.
      apply Z.eqb_neq in H2. rewrite H2. cbn [negb]. step.
      eexists. split; [reflexivity|]. split; [done|].
      goal_simpl. rewrite ?Hg. goal_simpl. by rewrite <- !app_assoc.
Qed.

(** X11.  When [fcntl] fails on a descriptor that [accept] just gave,
    [main] prints a diagnostic and returns 1: the whole server stops.  The
    descriptor is not closed, and no record is allocated for it. *)
Theorem transport_fcntl_failure_exits (n : nat) (listen_fd epoll : Z) (opts exec : nat)
    (w : World) :
  let new_fd := r_ret (oracle w (tick w)) in
  let f1 := r_ret (oracle w (S (S (tick w)))) in
  let f2 := r_ret (oracle w (S (S (S (tick w))))) in
  let out := main_accept_loop (S n) listen_fd epoll opts exec w in
  0 <= new_fd ->
  f1 <> 0 \/ (f1 = 0 /\ f2 <> 0) ->
  out.1 = Return 1 /\
  heap out.2 = heap w /\
  closed_sockets (emitted (main_accept_loop (S n) listen_fd epoll opts exec) w) = [] /\
  last (trace out.2) =
    Some (EvPerror (if f1 =? 0 then "fcntl(FD_CLOEXEC) (transport)"
                    else "fcntl(O_NONBLOCK) (transport)")).
Proof.
  intros new_fd f1 f2 out Hfd Hfail. subst out.
  set (w1 := answered (EvSys (SysAccept listen_fd) new_fd) w).
  destruct (main_accepted_fcntl_fail epoll opts exec new_fd w1 Hfail)
    as (w' & Hacc & Hh & Ht).
  assert (Hrun : main_accept_loop (S n) listen_fd epoll opts exec w = (Return 1, w')).
  { cbn [main_accept_loop]. rewrite (bind_val _ _ _ _ _ (syscall_run _ w)). fold new_fd w1.
    apply Z.leb_le in Hfd. rewrite Hfd. by apply bind_return. }
  rewrite Hrun. goal_simpl. split; [done|]. split; [exact Hh|].
  revert Ht. clear Hacc. subst w1. goal_simpl. fold f1 f2.
  set (g := r_ret (oracle w (S (tick w)))). intros Ht. split.
  - erewrite (emitted_run _ _ _ _ _ Hrun); [|rewrite Ht, <- app_assoc; reflexivity].
    rewrite !closed_sockets_app. by destruct (g <? 0), (f1 =? 0).
  - rewrite Ht, last_app. by destruct (g <? 0), (f1 =? 0).
Qed.

Lemma transport_fcntl_failure_exits_witness :
  let w := init_world (script [answer 9; answer 0; failure EBADF]) in
  (main_accept_loop 1 3 4 1 0 w).1 = Return 1 /\
  heap (main_accept_loop 1 3 4 1 0 w).2 = ∅ /\
  last (trace (main_accept_loop 1 3 4 1 0 w).2) =
    Some (EvPerror "fcntl(O_NONBLOCK) (transport)").
Proof.
  intros w.
  assert (Hfd : 0 <= r_ret (oracle w (tick w))) by (simpl; lia).
  assert (Hfail : r_ret (oracle w (S (S (tick w)))) <> 0 \/
                  (r_ret (oracle w (S (S (tick w)))) = 0 /\
                   r_ret (oracle w (S (S (S (tick w))))) <> 0)) by (by left).
  destruct (transport_fcntl_failure_exits 0 3 4 1 0 w Hfd Hfail) as (Hv & Hh & _ & Hl).
  split; [exact Hv|]. split; [exact Hh|]. exact Hl.
Defined.

(** ** Records stay where they are while events are processed *)

Global Instance keeps_records_preorder : PreOrder keeps_records.
Proof.
  split.
  - intros w HI. split; [done|]. eauto.
  - intros w1 w2 w3 H12 H23 HI. destruct (H12 HI) as [HI2 Hk2].
    destruct (H23 HI2) as [HI3 Hk3]. split; [done|].
    intros p c Hc. destruct (Hk2 p c Hc) as (c2 & Hc2 & Hf2).
    destruct (Hk3 p c2 Hc2) as (c3 & Hc3 & Hf3). exists c3. split; [done|]. congruence.
Qed.

Lemma keeps_records_same_heap {A} (m : M A) :
  preserves keeps_Inv m -> (forall w, heap (m w).2 = heap w) ->
  preserves keeps_records m.
Proof.
  intros Hk Hh w HI. split; [by apply Hk|]. intros p c Hc. exists c. by rewrite Hh.
Qed.

Lemma emit_records (e : Event) : preserves keeps_records (emit e).
Proof. apply keeps_records_same_heap; [apply emit_keeps | done]. Qed.

Lemma syscall_r_records (c : Syscall) : preserves keeps_records (syscall_r c).
Proof.
  apply keeps_records_same_heap; [apply syscall_r_keeps|].
  intros w. by rewrite syscall_r_run.
Qed.

Lemma fresh_id_records : preserves keeps_records fresh_id.
Proof. apply keeps_records_same_heap; [apply fresh_id_keeps | done]. Qed.

Lemma main_transport_bad (events p : Z) (w : World) :
  p = NULL \/ heap w !! p = None -> (main_transport events p w).2 = w.
Proof.
  intros Hbad. destruct (deref_fails p w Hbad) as [f Hf]. unfold main_transport.
  destruct (Z.land events EPOLLIN =? 0), (Z.land events EPOLLOUT =? 0); goal_simpl.
  - done.
  - rewrite (bind_val _ _ _ _ _ (ret_run tt w)). by rewrite (bind_fault _ _ _ _ _ Hf).
  - rewrite bind_assoc. by rewrite (bind_fault _ _ _ _ _ Hf).
  - rewrite bind_assoc. by rewrite (bind_fault _ _ _ _ _ Hf).
Qed.

Lemma main_transport_records (events conn : Z) :
  preserves keeps_records (main_transport events conn).
Proof.
  intros w HI. split; [by apply transport_keeps|]. intros p c Hc.
  destruct (allocated_or_not conn w) as [(c0 & Hp & Hc0) | Hbad].
  - rewrite (main_transport_run events conn w c0 Hp Hc0 (Inv_wakers_ok w conn c0 HI Hc0)).
    goal_simpl. destruct (decide (p = conn)) as [->|Hne].
    + rewrite lookup_insert_eq. eexists. split; [done|]. simpl. congruence.
    + rewrite lookup_insert_ne by done. eauto.
  - rewrite (main_transport_bad events conn w Hbad). eauto.
Qed.

Lemma create_conn_data_records (epoll new_fd : Z) :
  preserves keeps_records (create_conn_data epoll new_fd).
Proof.
  intros w HI. split; [by apply create_keeps|]. intros p c Hc.
  pose proof (inv_brk _ _ _ _ HI) as Hb.
  assert (Hne : p <> brk w + 1).
  { intros ->. rewrite (Inv_unallocated _ _ _ _ HI) in Hc; [done | lia]. }
  destruct (Z.le_gt_cases 0 (r_ret (oracle w (tick w)))) as [Hr|Hr].
  - rewrite (create_conn_data_run_ok epoll new_fd w Hb Hr). goal_simpl.
    rewrite lookup_insert_ne by done. eauto.
  - assert (Hr' : r_ret (oracle w (tick w)) < 0) by lia.
    rewrite (create_conn_data_run_fail epoll new_fd w Hb Hr'). goal_simpl.
    rewrite lookup_delete_ne by done. rewrite lookup_insert_ne by done. eauto.
Qed.

#[export] Hint Resolve emit_records syscall_r_records fresh_id_records
  main_transport_records create_conn_data_records : preserves.
#[export] Hint Extern 1 (keeps_records _ _) =>
  (let H := fresh in intros H; split; [exact H | eauto]) : preserves.

Lemma main_accept_loop_records (fuel : nat) (listen_fd epoll : Z) (opts exec : nat) :
  preserves keeps_records (main_accept_loop fuel listen_fd epoll opts exec).
Proof.
  induction fuel as [|n IH]; simpl; [preserves_tac|].
  unfold main_accepted, create_io, hyper_io_new, hyper_io_set_userdata, hyper_io_set_read,
    hyper_io_set_write, hyper_service_new, hyper_serve_connection,
    hyper_task_set_userdata, hyper_executor_push.
  preserves_tac.
Qed.

#[export] Hint Resolve main_accept_loop_records : preserves.

Lemma main_events_records (fuel : nat) (listen_fd signal_fd epoll : Z) (opts exec : nat)
    (evs : list epoll_event) :
  preserves keeps_records (main_events fuel listen_fd signal_fd epoll opts exec evs).
Proof.
  induction evs as [|ev evs IH]; simpl; [preserves_tac|].
  apply preserves_bind; [apply _ | | intros _; exact IH].
  unfold main_event, main_listen, main_signal. preserves_tac.
Qed.

(** X12.  While the events that one [epoll_wait] reported are processed,
    whatever they are, no connection record is freed and no record changes
    its descriptor: a pointer to a record that an event carries stays valid
    until the last event of the batch is done.  (Records are destroyed by
    the pump only, before the next wait.) *)
Theorem events_keep_records (fuel : nat) (listen_fd signal_fd epoll : Z) (opts exec : nat)
    (evs : list epoll_event) (w : World) (p : Z) (c : conn_data) :
  Inv w -> heap w !! p = Some c ->
  exists c',
    heap (main_events fuel listen_fd signal_fd epoll opts exec evs w).2 !! p = Some c' /\
    fd c' = fd c.
Proof.
  intros HI Hc.
  destruct (main_events_records fuel listen_fd signal_fd epoll opts exec evs w HI) as [_ Hk].
  by apply Hk.
Qed.

Lemma events_keep_records_witness :
  let w := perform_all [OpCreate 4 9; OpCallback Rd 1 7 100]
             (init_world (script [answer 0; failure EAGAIN; failure ECONNABORTED])) in
  let evs := [mk_epoll_event EPOLLIN KeyListen; mk_epoll_event EPOLLIN (KeyConn 1);
              mk_epoll_event EPOLLIN (KeyConn 1)] in
  heap w !! 1 = Some (mk_conn_data 9 (Some 0%nat) None) /\
  exists c', heap (main_events 2 3 5 4 1 0 evs w).2 !! 1 = Some c' /\ fd c' = 9.
Proof.
  intros w evs.
  assert (HI : Inv w) by apply perform_all_keeps, Inv_init.
  assert (Hc : heap w !! 1 = Some (mk_conn_data 9 (Some 0%nat) None)) by reflexivity.
  split; [exact Hc|].
  exact (events_keep_records 2 3 5 4 1 0 evs w 1 _ HI Hc).
Defined.

(** ** No waker is used twice *)

Lemma never_bind {A B} (m : M A) (k : A -> M B) :
  never_dead_waker m -> preserves keeps_Inv m -> (forall a, never_dead_waker (k a)) ->
  never_dead_waker (bind m k).
Proof.
  intros Hm Hk Hcont w HI. unfold bind. specialize (Hm w HI). specialize (Hk w HI).
  destruct (m w) as [[a| | | f|] w1]; simpl in *; try done.
  - by apply Hcont.
  - intros [= ->]. by apply Hm.
Qed.

Lemma never_call (m : M Z) : never_dead_waker m -> never_dead_waker (call m).
Proof.
  intros Hm w HI. unfold call. specialize (Hm w HI).
  by destruct (m w) as [[a| | | f|] w1].
Qed.

Lemma never_at_EXIT {A} (body : M unit) (handler : M A) :
  never_dead_waker body -> preserves keeps_Inv body -> never_dead_waker handler ->
  never_dead_waker (at_EXIT body handler).
Proof.
  intros Hb Hk Hh w HI. unfold at_EXIT. specialize (Hb w HI). specialize (Hk w HI).
  destruct (body w) as [[a| | | f|] w1]; simpl in *; try done; try (by apply Hh).
  intros [= ->]. by apply Hb.
Qed.

Lemma never_update {A} (a : A) (f : World -> World) :
  never_dead_waker (fun w => (Val a, f w)).
Proof. by intros w HI. Qed.

Lemma deref_not_dead (p : Z) (w : World) : (deref p w).1 <> Fault DeadWaker.
Proof. unfold deref. destruct (p =? NULL); [done|]. by destruct (heap w !! p). Qed.

Lemma deref_fails_not_dead (p : Z) (w : World) :
  p = NULL \/ heap w !! p = None ->
  exists f, deref p w = (Fault f, w) /\ f <> DeadWaker.
Proof.
  intros Hbad. destruct (deref_fails p w Hbad) as [f Hf]. exists f. split; [done|].
  pose proof (deref_not_dead p w) as Hd. rewrite Hf in Hd. simpl in Hd. congruence.
Qed.

Lemma never_io_cb (d : dir) (conn : Z) (ctx : nat) (len : Z) :
  never_dead_waker (io_cb d conn ctx len).
Proof.
  intros w HI.
  destruct (allocated_or_not conn w) as [(c & Hp & Hc) | Hbad].
  - destruct (Z.le_gt_cases 0 (r_ret (oracle w (tick w)))) as [Hr|Hr].
    + by rewrite (io_cb_bytes_run d conn ctx len w c Hp Hc Hr).
    + assert (Hr' : r_ret (oracle w (tick w)) < 0) by lia.
      destruct (decide (r_errno (oracle w (tick w)) = EAGAIN)) as [He|He].
      * assert (Hlive : forall old, slot d c = Some old -> old ∈ live w)
          by (intros old Hs; by eapply Inv_stored_live).
        by rewrite (io_cb_pending_run d conn ctx len w c Hp Hc Hr' He Hlive).
      * by rewrite (io_cb_error_run d conn ctx len w c Hp Hc Hr' He).
  - destruct (deref_fails_not_dead conn w Hbad) as (f & Hf & Hne).
    destruct d; goal_simpl; unfold read_cb, write_cb;
      rewrite (bind_fault _ _ _ _ _ Hf); simpl; congruence.
Qed.

Lemma never_main_transport (events conn : Z) :
  never_dead_waker (main_transport events conn).
Proof.
  intros w HI.
  destruct (allocated_or_not conn w) as [(c & Hp & Hc) | Hbad].
  - by rewrite (main_transport_run events conn w c Hp Hc (Inv_wakers_ok w conn c HI Hc)).
  - destruct (deref_fails_not_dead conn w Hbad) as (f & Hf & Hne). unfold main_transport.
    destruct (Z.land events EPOLLIN =? 0), (Z.land events EPOLLOUT =? 0); goal_simpl.
    + done.
    + rewrite (bind_val _ _ _ _ _ (ret_run tt w)), (bind_fault _ _ _ _ _ Hf).
      simpl; congruence.
    + rewrite bind_assoc, (bind_fault _ _ _ _ _ Hf). simpl; congruence.
    + rewrite bind_assoc, (bind_fault _ _ _ _ _ Hf). simpl; congruence.
Qed.

Lemma never_free_conn_data (epoll conn : Z) :
  never_dead_waker (free_conn_data epoll conn).
Proof.
  intros w HI.
  destruct (allocated_or_not conn w) as [(c & Hp & Hc) | Hbad].
  - by rewrite (free_conn_data_run epoll conn w c Hp Hc (Inv_wakers_ok w conn c HI Hc)).
  - destruct (deref_fails_not_dead conn w Hbad) as (f & Hf & Hne). unfold free_conn_data.
    rewrite (bind_fault _ _ _ _ _ Hf). simpl; congruence.
Qed.

Lemma never_deref (p : Z) : never_dead_waker (deref p).
Proof. intros w _. apply deref_not_dead. Qed.

Lemma never_syscall_r (c : Syscall) : never_dead_waker (syscall_r c).
Proof. intros w _. by rewrite syscall_r_run. Qed.

Create HintDb never discriminated.

#[export] Hint Resolve never_io_cb never_main_transport never_free_conn_data never_deref
  never_call : never.

Ltac never_step :=
  lazymatch goal with
  | |- never_dead_waker (bind _ _) =>
      apply never_bind; [| solve [preserves_tac] | intros ?]
  | |- never_dead_waker (call _) => apply never_call
  | |- never_dead_waker (at_EXIT _ _) =>
      apply never_at_EXIT; [| solve [preserves_tac] |]
  | |- never_dead_waker (let _ := _ in _) => cbv zeta
  | |- never_dead_waker (if ?b then _ else _) => destruct b
  | |- never_dead_waker (match ?x with _ => _ end) => destruct x
  | |- never_dead_waker (when _ _) => unfold when
  | |- never_dead_waker (printf _ _) => unfold printf
  | |- never_dead_waker (perror _) => unfold perror
  | |- never_dead_waker (fprintf_stderr _) => unfold fprintf_stderr
  | |- never_dead_waker (hy _) => unfold hy
  | |- never_dead_waker (syscall _) => unfold syscall
  | |- never_dead_waker (syscall_r _) => apply never_syscall_r
  | |- never_dead_waker (store _ _) => unfold store
  | |- never_dead_waker (free _) => unfold free
  | |- never_dead_waker (set_fd _ _) => unfold set_fd
  | |- never_dead_waker (set_read_waker _ _) => unfold set_read_waker
  | |- never_dead_waker (set_write_waker _ _) => unfold set_write_waker
  | |- never_dead_waker (fun w => (Val _, _)) => apply never_update
  | |- never_dead_waker (ret _) => by intros ? ?
  | |- never_dead_waker (return_ _) => by intros ? ?
  | |- never_dead_waker (@out_of_fuel _) => by intros ? ?
  | |- never_dead_waker (@goto_EXIT _) => by intros ? ?
  | |- never_dead_waker ask => by intros ? ?
  | |- never_dead_waker get_errno => by intros ? ?
  | |- never_dead_waker fresh_id => by intros ? ?
  | |- never_dead_waker malloc => by intros ? ?
  | |- never_dead_waker (emit _) => by intros ? ?
  | |- never_dead_waker (io_userdata _) => by intros ? ?
  | |- never_dead_waker (hyper_task_userdata _) => by intros ? ?
  | _ => solve [eauto with never]
  end.

Ltac never_tac := repeat never_step.

Lemma never_run_callbacks (cbs : list callback) : never_dead_waker (run_callbacks cbs).
Proof.
  induction cbs as [|cb cbs IH]; simpl; [never_tac|].
  apply never_bind; [| unfold run_callback; preserves_tac | intros _; exact IH].
  destruct cb as [io len | io len]; unfold run_callback.
  - apply never_bind; [never_tac | preserves_tac | intros p].
    apply never_bind; [apply (never_io_cb Rd) | apply read_cb_keeps | intros; never_tac].
  - apply never_bind; [never_tac | preserves_tac | intros p].
    apply never_bind; [apply (never_io_cb Wr) | apply write_cb_keeps | intros; never_tac].
Qed.

#[export] Hint Resolve never_run_callbacks : never.

Lemma never_main_pump (fuel : nat) (epoll : Z) (exec : nat) :
  never_dead_waker (main_pump fuel epoll exec).
Proof.
  induction fuel as [|n IH]; simpl; [never_tac|].
  unfold hyper_executor_poll, main_task_error, main_task_empty, hyper_error_free,
    hyper_task_free.
  never_tac.
Qed.

Lemma never_create_conn_data (epoll new_fd : Z) :
  never_dead_waker (create_conn_data epoll new_fd).
Proof.
  intros w HI. pose proof (inv_brk _ _ _ _ HI) as Hb.
  destruct (Z.le_gt_cases 0 (r_ret (oracle w (tick w)))) as [Hr|Hr].
  - by rewrite (create_conn_data_run_ok epoll new_fd w Hb Hr).
  - assert (Hr' : r_ret (oracle w (tick w)) < 0) by lia.
    by rewrite (create_conn_data_run_fail epoll new_fd w Hb Hr').
Qed.

#[export] Hint Resolve never_main_pump never_create_conn_data : never.

Lemma never_main_accept_loop (fuel : nat) (listen_fd epoll : Z) (opts exec : nat) :
  never_dead_waker (main_accept_loop fuel listen_fd epoll opts exec).
Proof.
  induction fuel as [|n IH]; simpl; [never_tac|].
  unfold main_accepted, create_io, hyper_io_new, hyper_io_set_userdata, hyper_io_set_read,
    hyper_io_set_write, hyper_service_new, hyper_serve_connection,
    hyper_task_set_userdata, hyper_executor_push.
  never_tac.
Qed.

#[export] Hint Resolve never_main_accept_loop : never.

Lemma never_main_events (fuel : nat) (listen_fd signal_fd epoll : Z) (opts exec : nat)
    (evs : list epoll_event) :
  never_dead_waker (main_events fuel listen_fd signal_fd epoll opts exec evs).
Proof.
  induction evs as [|ev evs IH]; simpl; [never_tac|].
  unfold main_event, main_listen, main_signal. never_tac.
Qed.

#[export] Hint Resolve never_main_events : never.

Lemma never_main_loop (fuel : nat) (listen_fd signal_fd epoll : Z) (opts exec : nat) :
  never_dead_waker (main_loop fuel listen_fd signal_fd epoll opts exec).
Proof.
  induction fuel as [|n IH]; [by intros ? ?|].
  cbn -[main_pump main_events]. unfold epoll_wait. never_tac.
Qed.

#[export] Hint Resolve never_main_loop : never.

Lemma never_listen_on_loop (addrs : list addrinfo) (sock : Z) :
  never_dead_waker (listen_on_loop sock addrs).
Proof. revert sock. induction addrs as [|a addrs IH]; intros sock; simpl; never_tac. Qed.

#[export] Hint Resolve never_listen_on_loop : never.

Lemma never_main (fuel : nat) (argv : list string) : never_dead_waker (main fuel argv).
Proof.
  unfold main, main_serve, main_EXIT, listen_on, register_signal_handler,
    hyper_executor_new, hyper_serverconn_options_new, hyper_serverconn_options_free,
    hyper_executor_free.
  never_tac.
Qed.

(** X13.  Whatever the operating system and the engine do, and however
    long the program runs, [main] never wakes and never frees a waker that
    is not outstanding: no waker is woken twice, freed twice, or used after
    it was woken or freed. *)
Theorem main_never_uses_dead_waker (o : nat -> Response) (fuel : nat) (argv : list string)
    (ops : list operation) :
  (main fuel argv (init_world o)).1 <> Fault DeadWaker /\
  forall op, (perform op (perform_all ops (main fuel argv (init_world o)).2)).1
             <> Fault DeadWaker.
Proof.
  split; [apply never_main, Inv_init|].
  intros op.
  assert (HI : Inv (perform_all ops (main fuel argv (init_world o)).2))
    by apply perform_all_keeps, main_keeps, Inv_init.
  revert HI. generalize (perform_all ops (main fuel argv (init_world o)).2). intros w HI.
  assert (Hop : never_dead_waker (perform op)).
  { destruct op as [epoll new_fd | d conn ctx len | events conn | epoll conn]; simpl.
    - never_tac.
    - apply never_bind; [apply never_io_cb | apply callback_keeps | intros; never_tac].
    - apply never_main_transport.
    - apply never_free_conn_data. }
  by apply Hop.
Qed.

(** ** The exit status *)

(** X15.  [main] ends only with exit status 1: a run that ends by a
    [return] of [main], from set-up, from inside the loop or after the
    label [EXIT], never gives the status 0 or any other. *)
Theorem main_exits_with_one (fuel : nat) (argv : list string) (w : World) :
  match (main fuel argv w).1 with
  | Val z => z = 1
  | Return _ => False
  | GotoEXIT | Fault _ | OutOfFuel => True
  end.
Proof.
  destruct (main fuel argv w).1 as [z|z| | |] eqn:Hres; try done.
  - by apply (main_exit_status fuel argv w).
  - revert Hres. unfold main, call.
    match goal with |- (match ?b with _ => _ end).1 = _ -> _ => destruct b as [[]?] end;
      discriminate.
Qed.
